(** * A shallow embedding of the tee_adaptive_selector benchmark tools

    The development follows three scripts of [contrib/tee_adaptive_selector]:

    - [execute_sql_queries_enhanced_with_analyze.py]: the class
      [EnhancedPostgreSQLExecutor] (plan summaries, the three execution
      paths, the round loop and the persisted report);
    - [generate_sql_speedup_hash_cache.py]: [map_scenario], the hash
      ([rot], [mix], [final], [hash_bytes]), [strip_explain_prefix],
      [normalize_sql] and the signed fingerprint [main] writes;
    - [compare_component_similarity.py]: the tables, [normalize_query],
      [hamming] and [evaluate].

    Conventions of the embedding.

    - Python values that come out of [json.loads] are values of [json];
      [None] is [JNull].  A Python [dict] with string keys is an association
      list read through [get], which returns the first binding of a key.
    - A Python [str] is a [string]; each character stands for the code point
      of its code, so the model covers text in the range below 256.  Case
      conversion is defined on ASCII letters, and every statement that
      depends on it is restricted to ASCII text; the fingerprint of a query
      text lowers its characters with [lower_cp], which follows [str.lower]
      on every code point below 256.
    - Python [float]s are values of an arbitrary type [F] with the operations
      of the class [FloatOps]; nothing is assumed about rounding.
    - Exceptions are values of [exn]; a computation that can raise returns
      [Exc].  A [psycopg2.Error] is never left uncaught by the scripts, so
      it is a value the server's answer carries, not an [exn].
    - The methods of the executor run in the monad [M] over a [State]: the
      attributes of the object and a [World] that scripts the clock, the
      server and the file system and records what is printed and saved.
      The world gives the files of a directory by its path; for a path that
      [glob] reads as a pattern it gives the paths [glob] yields.
      The recursion limit of the interpreter is not modelled. *)

From Stdlib Require Import ZArith QArith List String Ascii Bool Lia.
From Stdlib Require Import DecimalString Sorted Permutation.
Import ListNotations.

#[global] Set Warnings "-register-all".

Local Open Scope Z_scope.
Local Open Scope string_scope.
Local Open Scope list_scope.

(* ================================================================== *)
(** * Part I: definitions                                              *)
(* ================================================================== *)

(** ** Exceptions *)

Inductive exn : Type :=
| AttributeError
| TypeError
| ValueError
| OverflowError
| IndexError
| KeyError
| ZeroDivisionError.

Inductive Exc (A : Type) : Type :=
| Ok (a : A)
| Raise (e : exn).

Arguments Ok {A} a.
Arguments Raise {A} e.

Definition ebind {A B : Type} (c : Exc A) (k : A -> Exc B) : Exc B :=
  match c with
  | Ok a => k a
  | Raise e => Raise e
  end.

Declare Scope exc_scope.
Delimit Scope exc_scope with exc.
Notation "x <- c ;; k" := (ebind c (fun x => k))
  (at level 61, c at next level, right associativity) : exc_scope.

(** [mapM] for [Exc]: the first exception wins, as in a [for] loop. *)
Fixpoint emap {A B : Type} (f : A -> Exc B) (l : list A) : Exc (list B) :=
  match l with
  | [] => Ok []
  | a :: l' =>
      match f a with
      | Raise e => Raise e
      | Ok b =>
          match emap f l' with
          | Raise e => Raise e
          | Ok bs => Ok (b :: bs)
          end
      end
  end.

(** ** Python strings *)

Module Py.

(** [str.isspace] on one character, for code points below 256. *)
Definition isspace (c : ascii) : bool :=
  let n := nat_of_ascii c in
  ((9 <=? n) && (n <=? 13) || (28 <=? n) && (n <=? 32)
   || (n =? 133) || (n =? 160))%nat.

Fixpoint lstrip (s : string) : string :=
  match s with
  | EmptyString => EmptyString
  | String c s' => if isspace c then lstrip s' else s
  end.

(** [rstrip] keeps a character when something that is not a space follows. *)
Fixpoint rstrip (s : string) : string :=
  match s with
  | EmptyString => EmptyString
  | String c s' =>
      match rstrip s' with
      | EmptyString => if isspace c then EmptyString else String c EmptyString
      | r => String c r
      end
  end.

Definition strip (s : string) : string := rstrip (lstrip s).

Definition is_upper (c : ascii) : bool :=
  ((65 <=? nat_of_ascii c) && (nat_of_ascii c <=? 90))%nat.

Definition is_lower (c : ascii) : bool :=
  ((97 <=? nat_of_ascii c) && (nat_of_ascii c <=? 122))%nat.

Definition lower_char (c : ascii) : ascii :=
  if is_upper c then ascii_of_nat (nat_of_ascii c + 32) else c.

Definition upper_char (c : ascii) : ascii :=
  if is_lower c then ascii_of_nat (nat_of_ascii c - 32) else c.

Fixpoint map_chars (f : ascii -> ascii) (s : string) : string :=
  match s with
  | EmptyString => EmptyString
  | String c s' => String (f c) (map_chars f s')
  end.

(** [str.lower] and [str.upper], exact on ASCII text. *)
Definition lower : string -> string := map_chars lower_char.
Definition upper : string -> string := map_chars upper_char.

Fixpoint all_chars (p : ascii -> bool) (s : string) : bool :=
  match s with
  | EmptyString => true
  | String c s' => p c && all_chars p s'
  end.

Definition is_ascii_char (c : ascii) : bool := (nat_of_ascii c <? 128)%nat.
Definition is_ascii : string -> bool := all_chars is_ascii_char.

(** [sub in s]. *)
Fixpoint contains (sub s : string) : bool :=
  String.prefix sub s ||
  match s with
  | EmptyString => false
  | String _ s' => contains sub s'
  end.

(** [s.endswith(suf)]. *)
Fixpoint endswith (suf s : string) : bool :=
  String.eqb suf s ||
  match s with
  | EmptyString => false
  | String _ s' => endswith suf s'
  end.

(** [str(n)] for an [int]. *)
Definition str_of_int (n : Z) : string := NilZero.string_of_int (Z.to_int n).

(** Truthiness of a string: [bool(s)]. *)
Definition nonempty (s : string) : bool :=
  match s with
  | EmptyString => false
  | String _ _ => true
  end.

(** *** Dictionaries with string keys *)

Definition dict (V : Type) : Type := list (string * V).

Fixpoint get {V : Type} (k : string) (d : dict V) : option V :=
  match d with
  | [] => None
  | (k', v) :: d' => if String.eqb k' k then Some v else get k d'
  end.

(** [d.get(k, default)]. *)
Definition getd {V : Type} (k : string) (d : dict V) (default : V) : V :=
  match get k d with
  | Some v => v
  | None => default
  end.

(** [d[k] = v]: an existing key keeps its place, a new one goes last. *)
Fixpoint set {V : Type} (k : string) (v : V) (d : dict V) : dict V :=
  match d with
  | [] => [(k, v)]
  | (k', v') :: d' =>
      if String.eqb k' k then (k', v) :: d' else (k', v') :: set k v d'
  end.

(** [with_key k absent present d] is
    [present d[k] if k in d else absent], written as a traversal of [d] so
    that a recursive function may be called on the value found. *)
Definition with_key {V A : Type} (k : string) (absent : A) (present : V -> A)
  : dict V -> A :=
  fix go (d : dict V) : A :=
    match d with
    | [] => absent
    | (k', v) :: d' => if String.eqb k' k then present v else go d'
    end.

End Py.

(** ** Floats *)

(** The operations the scripts apply to [float]s.  [fdiv] is only used with
    a divisor that is not zero. *)
Class FloatOps (F : Type) : Type := {
  fzero : F;                    (* 0.0 *)
  fthousand : F;                (* 1000.0 *)
  fadd : F -> F -> F;
  fsub : F -> F -> F;
  fdiv : F -> F -> F;
  fltb : F -> F -> bool;        (* x < y *)
  fis_zero : F -> bool;         (* x == 0 *)
  fof_int : Z -> Exc F;         (* float(n); OverflowError when too large *)
  ftrunc : F -> Exc Z;          (* int(x); raises on inf and nan *)
  fstdev : list F -> F          (* statistics.stdev, two points or more *)
}.

(** ** Decoded JSON documents *)

Section Json.

Context {F : Type}.

Inductive json : Type :=
| JNull
| JBool (b : bool)
| JInt (n : Z)
| JFloat (x : F)
| JStr (s : string)
| JList (items : list json)
| JObj (members : list (string * json)).

(** [d.get(k)]: [None] when the key is missing. *)
Definition getj (k : string) (d : Py.dict json) : json :=
  Py.getd k d JNull.

(** [isinstance(v, dict)]. *)
Definition is_dict (v : json) : bool :=
  match v with
  | JObj _ => true
  | _ => false
  end.

(** [v is not None]. *)
Definition not_none (v : json) : bool :=
  match v with
  | JNull => false
  | _ => true
  end.

(** Values that can be keys of a [dict]: everything but lists and dicts. *)
Definition hashable (v : json) : bool :=
  match v with
  | JList _ | JObj _ => false
  | _ => true
  end.

Fixpoint chars_of (s : string) : list json :=
  match s with
  | EmptyString => []
  | String c s' => JStr (String c EmptyString) :: chars_of s'
  end.

(** [iter(v)]: the elements of a list, the keys of a dict, the characters of
    a string; anything else is not iterable. *)
Definition py_iter (v : json) : Exc (list json) :=
  match v with
  | JList l => Ok l
  | JObj o => Ok (map (fun kv => JStr (fst kv)) o)
  | JStr s => Ok (chars_of s)
  | _ => Raise TypeError
  end.

(** Induction on a document, with the hypothesis on every element of a list
    and on every value of an object. *)
Section Induction.

Variable P : json -> Prop.
Hypothesis HNull : P JNull.
Hypothesis HBool : forall b, P (JBool b).
Hypothesis HInt : forall n, P (JInt n).
Hypothesis HFloat : forall x, P (JFloat x).
Hypothesis HStr : forall s, P (JStr s).
Hypothesis HList : forall l, Forall P l -> P (JList l).
Hypothesis HObj : forall o, Forall (fun kv => P (snd kv)) o -> P (JObj o).

Fixpoint json_induction (v : json) : P v :=
  match v with
  | JNull => HNull
  | JBool b => HBool b
  | JInt n => HInt n
  | JFloat x => HFloat x
  | JStr s => HStr s
  | JList l =>
      HList l
        ((fix all (l : list json) : Forall P l :=
            match l with
            | [] => Forall_nil P
            | x :: l' => Forall_cons x (json_induction x) (all l')
            end) l)
  | JObj o =>
      HObj o
        ((fix all (o : list (string * json))
            : Forall (fun kv => P (snd kv)) o :=
            match o with
            | [] => Forall_nil _
            | kv :: o' =>
                Forall_cons kv (json_induction (snd kv)) (all o')
            end) o)
  end.

End Induction.

End Json.

Arguments json F : clear implicits.

(** ** Plan summaries *)

Module Plan.

Import Py.

Section WithFloat.

Context {F : Type} {FO : FloatOps F}.

Local Open Scope exc_scope.

#[local] Abbreviation json := (json F).

(** [bool(v)]. *)
Definition truthy (v : json) : bool :=
  match v with
  | JNull => false
  | JBool b => b
  | JInt n => negb (n =? 0)%Z
  | JFloat x => negb (fis_zero x)
  | JStr s => nonempty s
  | JList l => match l with [] => false | _ => true end
  | JObj o => match o with [] => false | _ => true end
  end.

(** The ten counters of [collect_buffers] and of the per-node [buffers]. *)
Definition buffer_keys : list string :=
  [ "Shared Hit Blocks";
    "Shared Read Blocks";
    "Shared Dirtied Blocks";
    "Shared Written Blocks";
    "Local Hit Blocks";
    "Local Read Blocks";
    "Local Dirtied Blocks";
    "Local Written Blocks";
    "Temp Read Blocks";
    "Temp Written Blocks" ].

(** [int(v)] when [isinstance(v, (int, float))]; [bool] is a subclass of
    [int].  [None] stands for a value that is not a number. *)
Definition int_of_number (v : json) : option (Exc Z) :=
  match v with
  | JInt n => Some (Ok n)
  | JBool b => Some (Ok (Z.b2z b))
  | JFloat x => Some (ftrunc x)
  | _ => None
  end.

(** One turn of [for k in keys] in [collect_buffers]:
    [if k in p and isinstance(p[k], (int, float)):
         agg[k] = agg.get(k, 0) + int(p[k])]. *)
Definition add_counter (p : dict json) (agg : dict Z) (k : string)
  : Exc (dict Z) :=
  match get k p with
  | Some v =>
      match int_of_number v with
      | Some c => n <- c ;; Ok (set k (getd k agg 0 + n) agg)
      | None => Ok agg
      end
  | None => Ok agg
  end.

Fixpoint add_counters (p : dict json) (keys : list string) (agg : dict Z)
  : Exc (dict Z) :=
  match keys with
  | [] => Ok agg
  | k :: keys' => agg' <- add_counter p agg k ;; add_counters p keys' agg'
  end.

(** [for child in items: if isinstance(child, dict): agg = f(child, agg)]. *)
Definition each_dict_child {A : Type} (f : json -> A -> Exc A)
  : list json -> A -> Exc A :=
  fix loop (items : list json) (a : A) : Exc A :=
    match items with
    | [] => Ok a
    | child :: items' =>
        match child with
        | JObj _ => a' <- f child a ;; loop items' a'
        | _ => loop items' a
        end
    end.

(** [for child in v or []: if isinstance(child, dict): ...] for the value [v]
    found under ["Plans"].  A falsy value is replaced by the empty list; the
    keys of a dict and the characters of a string are no dicts; a number or
    [True] cannot be iterated. *)
Definition over_plans {A : Type} (f : json -> A -> Exc A) (v : json) (a : A)
  : Exc A :=
  if truthy v then
    match v with
    | JList l => each_dict_child f l a
    | JObj _ | JStr _ => Ok a
    | _ => Raise TypeError
    end
  else Ok a.

(** [collect_buffers(p, agg)], the helper nested in [summarize_plan]; the
    dictionary it updates in place is returned.  [p.get] on something that
    is no dict is an [AttributeError]. *)
Fixpoint collect_buffers (p : json) (agg : dict Z) : Exc (dict Z) :=
  match p with
  | JObj o =>
      agg1 <- add_counters o buffer_keys agg ;;
      with_key "Plans" (Ok agg1)
        (fun v => over_plans collect_buffers v agg1) o
  | _ => Raise AttributeError
  end.

(** *** The decoded tree *)

(** The value returned by [extract_plan_tree].  [pn_attrs] holds the entries
    whose value is [node.get(...)], in the order of the source; a worker is
    its copied record together with its ["PlanTree"], when it has one. *)
Inductive PlanNode : Type :=
  mkPlanNode
    (pn_attrs : dict json)
    (pn_buffers : option (dict json))
    (pn_children : list PlanNode)
    (pn_workers : option (list (list (json * json) * option PlanNode))).

Definition pn_attrs (n : PlanNode) : dict json :=
  let (a, _, _, _) := n in a.
Definition pn_buffers (n : PlanNode) : option (dict json) :=
  let (_, b, _, _) := n in b.
Definition pn_children (n : PlanNode) : list PlanNode :=
  let (_, _, c, _) := n in c.
Definition pn_workers (n : PlanNode)
  : option (list (list (json * json) * option PlanNode)) :=
  let (_, _, _, w) := n in w.

Definition Worker : Type := (list (json * json) * option PlanNode)%type.

(** Output key and source key of the entries read with [node.get]. *)
Definition node_fields : list (string * string) :=
  [ ("node_type", "Node Type");
    ("parent_relationship", "Parent Relationship");
    ("strategy", "Strategy");
    ("join_type", "Join Type");
    ("parallel_aware", "Parallel Aware");
    ("async_capable", "Async Capable");
    ("relation", "Relation Name");
    ("schema", "Schema");
    ("alias", "Alias");
    ("index_name", "Index Name");
    ("startup_cost", "Startup Cost");
    ("total_cost", "Total Cost");
    ("plan_rows", "Plan Rows");
    ("plan_width", "Plan Width");
    ("actual_startup_time_ms", "Actual Startup Time");
    ("actual_total_time_ms", "Actual Total Time");
    ("actual_rows", "Actual Rows");
    ("actual_loops", "Actual Loops");
    ("output", "Output");
    ("filter", "Filter");
    ("index_cond", "Index Cond");
    ("recheck_cond", "Recheck Cond");
    ("hash_cond", "Hash Cond");
    ("join_filter", "Join Filter");
    ("merge_cond", "Merge Cond");
    ("sort_key", "Sort Key");
    ("group_key", "Group Key");
    ("hash_key", "Hash Key");
    ("exact_heap_tuples", "Exact Heap Tuples");
    ("workers_planned", "Workers Planned");
    ("workers_launched", "Workers Launched") ].

Definition read_fields (fields : list (string * string)) (o : dict json)
  : dict json :=
  map (fun f => (fst f, getj (snd f) o)) fields.

(** [{k: node.get(k) for k in keys if node.get(k) is not None}]. *)
Fixpoint node_buffer_entries (keys : list string) (o : dict json)
  : dict json :=
  match keys with
  | [] => []
  | k :: keys' =>
      if not_none (getj k o)
      then (k, getj k o) :: node_buffer_entries keys' o
      else node_buffer_entries keys' o
  end.

(** [x or None] for a dict. *)
Definition or_none {V : Type} (d : dict V) : option (dict V) :=
  match d with
  | [] => None
  | _ => Some d
  end.

(** [for child in items: if isinstance(child, dict): out.append(f(child))]. *)
Definition decode_children (f : json -> Exc PlanNode)
  : list json -> Exc (list PlanNode) :=
  fix loop (items : list json) : Exc (list PlanNode) :=
    match items with
    | [] => Ok []
    | child :: items' =>
        match child with
        | JObj _ => t <- f child ;; ts <- loop items' ;; Ok (t :: ts)
        | _ => loop items'
        end
    end.

(** The children loop of [extract_plan_tree] for the value under ["Plans"]. *)
Definition decode_plans (f : json -> Exc PlanNode) (v : json)
  : Exc (list PlanNode) :=
  if truthy v then
    match v with
    | JList l => decode_children f l
    | JObj _ | JStr _ => Ok []
    | _ => Raise TypeError
    end
  else Ok [].

(** [w_copy["PlanTree"] = f(w_copy["Plan"])] when the copy has a dict under
    ["Plan"]. *)
Definition plan_tree_of (f : json -> Exc PlanNode) (v : json)
  : Exc (option PlanNode) :=
  match v with
  | JObj _ => t <- f v ;; Ok (Some t)
  | _ => Ok None
  end.

(** One element of the sequence given to [dict(w)] when [w] is a list: it
    must have two elements, the first of them hashable.  Iterating a string
    of two characters or a dict of two keys gives two strings. *)
Definition pair_of_item (item : json) : Exc (json * json) :=
  match item with
  | JList [k; v] => if hashable k then Ok (k, v) else Raise TypeError
  | JList _ => Raise ValueError
  | JStr (String a (String b EmptyString)) =>
      Ok (JStr (String a EmptyString), JStr (String b EmptyString))
  | JStr _ => Raise ValueError
  | JObj [(k1, _); (k2, _)] => Ok (JStr k1, JStr k2)
  | JObj _ => Raise ValueError
  | _ => Raise TypeError
  end.

(** [dict(w)] for a worker that is a list: the pairs in update order (a later
    pair replaces an earlier one with an equal key), and the ["PlanTree"]
    decoded from the last pair whose key is ["Plan"]. *)
Definition worker_of_pairs (f : json -> Exc PlanNode)
  : list json -> list (json * json) -> Exc (option PlanNode) -> Exc Worker :=
  fix loop (items : list json) (acc : list (json * json))
           (tree : Exc (option PlanNode)) : Exc Worker :=
    match items with
    | [] => t <- tree ;; Ok (rev acc, t)
    | item :: items' =>
        kv <- pair_of_item item ;;
        match item with
        | JList [JStr "Plan"; v] => loop items' (kv :: acc) (plan_tree_of f v)
        | JObj [("Plan", _); _] => loop items' (kv :: acc) (Ok None)
        | _ => loop items' (kv :: acc) tree
        end
    end.

(** The body of [for w in node["Workers"]]: [w_copy = dict(w)], then the
    nested plan is decoded. *)
Definition decode_worker (f : json -> Exc PlanNode) (w : json) : Exc Worker :=
  match w with
  | JObj o =>
      t <- with_key "Plan" (Ok None) (plan_tree_of f) o ;;
      Ok (map (fun kv => (JStr (fst kv), snd kv)) o, t)
  | JList l => worker_of_pairs f l [] (Ok None)
  | JStr EmptyString => Ok ([], None)
  | JStr _ => Raise ValueError
  | _ => Raise TypeError
  end.

Definition decode_workers (f : json -> Exc PlanNode)
  : list json -> Exc (list Worker) :=
  fix loop (ws : list json) : Exc (list Worker) :=
    match ws with
    | [] => Ok []
    | w :: ws' => r <- decode_worker f w ;; rs <- loop ws' ;; Ok (r :: rs)
    end.

(** [if "Workers" in node and isinstance(node["Workers"], list)]. *)
Definition decode_workers_value (f : json -> Exc PlanNode) (v : json)
  : Exc (option (list Worker)) :=
  match v with
  | JList ws => rs <- decode_workers f ws ;; Ok (Some rs)
  | _ => Ok None
  end.

(** [extract_plan_tree(node)]. *)
Fixpoint extract_plan_tree (node : json) : Exc PlanNode :=
  match node with
  | JObj o =>
      children <- with_key "Plans" (Ok [])
                    (decode_plans extract_plan_tree) o ;;
      workers <- with_key "Workers" (Ok None)
                   (decode_workers_value extract_plan_tree) o ;;
      Ok (mkPlanNode (read_fields node_fields o)
            (or_none (node_buffer_entries buffer_keys o))
            children workers)
  | _ => Raise AttributeError
  end.

(** *** The summary *)

(** The entries of ["root"] in a summary: output key and source key. *)
Definition root_fields : list (string * string) :=
  [ ("node_type", "Node Type");
    ("relation", "Relation Name");
    ("schema", "Schema");
    ("alias", "Alias");
    ("index_name", "Index Name");
    ("plan_rows", "Plan Rows");
    ("plan_width", "Plan Width");
    ("total_cost", "Total Cost");
    ("actual_rows", "Actual Rows");
    ("actual_total_time_ms", "Actual Total Time");
    ("actual_loops", "Actual Loops");
    ("workers_planned", "Workers Planned");
    ("workers_launched", "Workers Launched") ].

(** The dictionary returned by [summarize_plan] when nothing was raised. *)
Record PlanSummary : Type := mkPlanSummary {
  planning_time_ms : json;
  execution_time_ms : json;
  root : dict json;
  buffers : option (dict Z);
  jit : option (dict json);
  complete_plan_tree : PlanNode
}.

(** What [summarize_plan] returns: a summary, or [{"error": ...}] for the
    exception caught by [except Exception]. *)
Inductive SummaryDict : Type :=
| Summary (s : PlanSummary)
| SummaryError (e : exn).

(** [jit_summary]: only for a dict; ["Timing"] only when the key is there. *)
Definition jit_summary (v : json) : option (dict json) :=
  match v with
  | JObj j =>
      Some ([ ("Functions", getj "Functions" j);
              ("Options", getj "Options" j) ]
            ++ match get "Timing" j with
               | Some t => [ ("Timing", t) ]
               | None => []
               end)
  | _ => None
  end.

(** [plan_json[0] if isinstance(plan_json, list) and plan_json else
    plan_json]. *)
Definition top_of (plan_json : json) : json :=
  match plan_json with
  | JList (x :: _) => x
  | _ => plan_json
  end.

(** The [try] block of [summarize_plan]. *)
Definition summarize_plan_body (plan_json : json) : Exc PlanSummary :=
  match top_of plan_json with
  | JObj top =>
      match getd "Plan" top (JObj []) with
      | JObj p =>
          agg <- collect_buffers (JObj p) [] ;;
          tree <- extract_plan_tree (JObj p) ;;
          Ok {| planning_time_ms := getj "Planning Time" top;
                execution_time_ms := getj "Execution Time" top;
                root := read_fields root_fields p;
                buffers := or_none agg;
                jit := jit_summary (getj "JIT" top);
                complete_plan_tree := tree |}
      | _ => Raise AttributeError
      end
  | _ => Raise AttributeError
  end.

(** [summarize_plan(plan_json)]. *)
Definition summarize_plan (plan_json : json) : SummaryDict :=
  match summarize_plan_body plan_json with
  | Ok s => Summary s
  | Raise e => SummaryError e
  end.

(** *** Sums over a decoded tree *)

(** The value of counter [k] on one decoded node, as [collect_buffers] reads
    it: [int(v)] for a number, 0 when the counter is missing or is no
    number. *)
Definition node_counter (k : string) (n : PlanNode) : Z :=
  match pn_buffers n with
  | Some b =>
      match get k b with
      | Some v =>
          match int_of_number v with
          | Some (Ok z) => z
          | _ => 0
          end
      | None => 0
      end
  | None => 0
  end.

(** The node and its descendants through ["children"]. *)
Fixpoint child_nodes (n : PlanNode) : list PlanNode :=
  match n with
  | mkPlanNode _ _ cs _ => n :: flat_map child_nodes cs
  end.

(** Every node of the decoded tree: through ["children"] and through the
    ["PlanTree"] of each worker. *)
Fixpoint all_nodes (n : PlanNode) : list PlanNode :=
  match n with
  | mkPlanNode _ _ cs ws =>
      n :: flat_map all_nodes cs
        ++ match ws with
           | Some l =>
               flat_map (fun w : Worker =>
                           match w with
                           | (_, Some t) => all_nodes t
                           | (_, None) => []
                           end) l
           | None => []
           end
  end.

Definition sum_counter (k : string) (nodes : list PlanNode) : Z :=
  fold_right Z.add 0 (map (node_counter k) nodes).

(** The aggregated value of counter [k] in a summary; a counter that is not
    in ["buffers"], or a ["buffers"] that is [None], counts as 0. *)
Definition aggregated (s : PlanSummary) (k : string) : Z :=
  match buffers s with
  | Some agg => getd k agg 0
  | None => 0
  end.

(** *** Notions used to state the properties of summaries *)

(** What the raw node [o] adds to counter [k] in [collect_buffers]. *)
Definition contribution (o : dict json) (k : string) : Z :=
  match get k o with
  | Some v =>
      match int_of_number v with
      | Some (Ok z) => z
      | _ => 0
      end
  | None => 0
  end.

(** [k in keys]. *)
Definition mem (k : string) (keys : list string) : bool :=
  existsb (String.eqb k) keys.

(** On the node [v], the two traversals agree: what [collect_buffers] adds
    to each counter is the sum over the decoded node and its descendants. *)
Definition node_sums (v : json) : Prop :=
  forall agg agg' t,
    collect_buffers v agg = Ok agg' ->
    extract_plan_tree v = Ok t ->
    forall k, getd k agg' 0 = getd k agg 0 + sum_counter k (child_nodes t).

(** The same for [v] and, when [v] is a list, for each of its elements:
    the form in which the property goes through the induction on documents,
    where the children of a node are the elements of its ["Plans"]. *)
Definition elements_sum (v : json) : Prop :=
  node_sums v /\ forall l, v = JList l -> Forall node_sums l.

(** The ["Execution Time"] of a plan document. *)
Definition server_execution_ms (doc : json) : json :=
  match top_of doc with
  | JObj top => getj "Execution Time" top
  | _ => JNull
  end.

End WithFloat.

Arguments PlanNode F : clear implicits.
Arguments Worker F : clear implicits.
Arguments PlanSummary F : clear implicits.
Arguments SummaryDict F : clear implicits.

End Plan.

(** ** The executor *)

Module Executor.

Import Py Plan.

Section WithFloat.

Context {F : Type} {FO : FloatOps F}.

#[local] Abbreviation json := (json F).
#[local] Abbreviation SummaryDict := (SummaryDict F).
#[local] Abbreviation PlanSummary := (PlanSummary F).

(** One row of a result set. *)
Definition Row : Type := list json.

(** *** The world outside the interpreter *)

(** The answer of the server to one [cursor.execute]: the [psycopg2.Error]
    it raises, if any; what [fetchall] gives ([inl] when it raises a
    [psycopg2.Error]); the column names of [cursor.description]. *)
Record DbReply : Type := mkDbReply {
  execute_error : option string;
  fetch_result : string + list Row;
  description : option (list string)
}.

(** A file of a directory: its name and what [open(...).read()] gives
    ([None] when reading raises). *)
Record FileEntry : Type := mkFileEntry {
  fe_name : string;
  fe_text : option string
}.

(** One line [Round r done: ...] of the progress output. *)
Record RoundLine : Type := mkRoundLine {
  rl_round : Z;
  rl_time : F;
  rl_success : nat;
  rl_error : nat
}.

(** The figures printed after the last round. *)
Record RoundTotals : Type := mkRoundTotals {
  rt_total : F;
  rt_avg : F;
  rt_min : F;
  rt_max : F;
  rt_stdev : F
}.

Record RoundSummary : Type := mkRoundSummary {
  rounds : nat;
  average_round_time : F;
  min_round_time : F;
  max_round_time : F;
  total_round_time : F;
  std_deviation : F
}.

Record DetailedTiming : Type := mkDetailedTiming {
  cursor_creation_time : F;
  query_execution_time : F;
  result_fetch_time : F;
  column_info_time : F
}.

(** The dictionary an execution path returns.  A field is [None] when the
    key is missing or its value is [None]. *)
Record ResultDict : Type := mkResultDict {
  query_name : option string;
  environment : option string;
  execution_time : option F;
  detailed_timing : option DetailedTiming;
  row_count : option json;
  column_names : option (list string);
  results : option (list Row);
  status : option string;
  error : option string;
  timestamp : option string;
  plan_summary : option SummaryDict;
  plan_json : option json
}.

Record SummaryBlock : Type := mkSummaryBlock {
  total_queries : nat;
  successful_queries : nat;
  failed_queries : nat;
  total_execution_time : F;
  average_query_time : F;
  round_summary : option RoundSummary
}.

(** [save_data], the document written by [save_results]. *)
Record SessionReport : Type := mkSessionReport {
  sr_environment : string;
  sr_connection_time : F;
  sr_summary : SummaryBlock;
  sr_round_times : list F;
  sr_query_results : list ResultDict
}.

(** The clock, the server and the file system, with what the run has sent
    to them.  [clock] and [stamps] are indexed by the number of readings
    taken so far, [cursor_error] and [reply] by the number of statements
    executed so far.  [listing d] holds the files of the directory at the
    path [d]; [globbed d], for a path [d] that [glob] reads as a pattern,
    holds the paths [glob.glob(os.path.join(d, "*.sql"))] yields, each with
    what reading it gives. *)
Record World : Type := mkWorld {
  clock : nat -> F;
  stamps : nat -> string;
  ticks : nat;
  connect_error : option string;
  cursor_error : nat -> option string;
  reply : nat -> string -> DbReply;
  statements : nat;
  listing : string -> list FileEntry;
  globbed : string -> list FileEntry;
  writable : bool;
  closed : bool;
  round_lines : list RoundLine;
  round_totals : option RoundTotals;
  saved : option SessionReport
}.

(** *** The object *)

(** A value of the option dictionary given to [EXPLAIN]. *)
Inductive OptValue : Type :=
| OptBool (b : bool)
| OptText (s : string).   (* [str(v)] of a value that is no [bool] *)

(** The attributes of an [EnhancedPostgreSQLExecutor] the methods read or
    write; [connection] tells whether [self.connection] is set. *)
Record Self : Type := mkSelf {
  environment_name : string;
  connection : bool;
  self_results : list ResultDict;
  self_round_times : list F;
  connect_time : F;
  store_full_plan_json : bool;
  explain_options : dict OptValue;
  statement_timeout_ms : option Z
}.

Definition default_explain_options : dict OptValue :=
  [ ("ANALYZE", OptBool true);
    ("BUFFERS", OptBool true);
    ("VERBOSE", OptBool false);
    ("COSTS", OptBool true);
    ("TIMING", OptBool true);
    ("FORMAT", OptText "JSON") ].

(** [__init__]: [explain_options or {...}] replaces an empty dictionary too. *)
Definition init (environment_name : string) (store_full_plan_json : bool)
    (explain_options : option (dict OptValue))
    (statement_timeout_ms : option Z) : Self :=
  mkSelf environment_name false [] [] fzero store_full_plan_json
    match explain_options with
    | Some ((_ :: _) as o) => o
    | _ => default_explain_options
    end
    statement_timeout_ms.

Definition with_connection (self : Self) : Self :=
  mkSelf (environment_name self) true (self_results self)
    (self_round_times self) (connect_time self) (store_full_plan_json self)
    (explain_options self) (statement_timeout_ms self).

Definition with_connect_time (self : Self) (t : F) : Self :=
  mkSelf (environment_name self) (connection self) (self_results self)
    (self_round_times self) t (store_full_plan_json self)
    (explain_options self) (statement_timeout_ms self).

Definition with_round_times (self : Self) (ts : list F) : Self :=
  mkSelf (environment_name self) (connection self) (self_results self) ts
    (connect_time self) (store_full_plan_json self) (explain_options self)
    (statement_timeout_ms self).

(** [self.results.append(res)]. *)
Definition append_result (self : Self) (res : ResultDict) : Self :=
  mkSelf (environment_name self) (connection self)
    (self_results self ++ [res]) (self_round_times self) (connect_time self)
    (store_full_plan_json self) (explain_options self)
    (statement_timeout_ms self).

(** *** The monad of the methods *)

(** A method runs on the object and the world; an exception that leaves it
    keeps what was changed before. *)
Record State : Type := mkState {
  st_self : Self;
  st_world : World
}.

Definition M (A : Type) : Type := State -> Exc A * State.

Definition ret {A : Type} (a : A) : M A := fun s => (Ok a, s).

Definition raise {A : Type} (e : exn) : M A := fun s => (Raise e, s).

Definition bind {A B : Type} (c : M A) (k : A -> M B) : M B :=
  fun s =>
    match c s with
    | (Ok a, s') => k a s'
    | (Raise e, s') => (Raise e, s')
    end.

Definition lift {A : Type} (c : Exc A) : M A := fun s => (c, s).

Declare Scope m_scope.
Delimit Scope m_scope with M.
Notation "x <- c ;; k" := (bind c (fun x => k))
  (at level 61, c at next level, right associativity) : m_scope.
Notation "c ;;; k" := (bind c (fun _ => k))
  (at level 61, right associativity) : m_scope.

Local Open Scope m_scope.

Definition get_self : M Self := fun s => (Ok (st_self s), s).

Definition get_world : M World := fun s => (Ok (st_world s), s).

Definition modify_self (f : Self -> Self) : M unit :=
  fun s => (Ok tt, mkState (f (st_self s)) (st_world s)).

Definition modify_world (f : World -> World) : M unit :=
  fun s => (Ok tt, mkState (st_self s) (f (st_world s))).

Definition advance (w : World) : World :=
  mkWorld (clock w) (stamps w) (S (ticks w)) (connect_error w)
    (cursor_error w) (reply w) (statements w) (listing w) (globbed w)
    (writable w) (closed w) (round_lines w) (round_totals w) (saved w).

Definition sent (w : World) : World :=
  mkWorld (clock w) (stamps w) (ticks w) (connect_error w)
    (cursor_error w) (reply w) (S (statements w)) (listing w) (globbed w)
    (writable w) (closed w) (round_lines w) (round_totals w) (saved w).

Definition with_round_line (l : RoundLine) (w : World) : World :=
  mkWorld (clock w) (stamps w) (ticks w) (connect_error w)
    (cursor_error w) (reply w) (statements w) (listing w) (globbed w)
    (writable w) (closed w) (round_lines w ++ [l]) (round_totals w) (saved w).

Definition with_round_totals (t : RoundTotals) (w : World) : World :=
  mkWorld (clock w) (stamps w) (ticks w) (connect_error w)
    (cursor_error w) (reply w) (statements w) (listing w) (globbed w)
    (writable w) (closed w) (round_lines w) (Some t) (saved w).

Definition with_closed (w : World) : World :=
  mkWorld (clock w) (stamps w) (ticks w) (connect_error w)
    (cursor_error w) (reply w) (statements w) (listing w) (globbed w)
    (writable w) true (round_lines w) (round_totals w) (saved w).

(** [json.dump(save_data, f)] into a file opened for writing: nothing is
    stored when the destination cannot be written. *)
Definition with_saved (r : SessionReport) (w : World) : World :=
  if writable w then
    mkWorld (clock w) (stamps w) (ticks w) (connect_error w)
      (cursor_error w) (reply w) (statements w) (listing w) (globbed w)
      (writable w) (closed w) (round_lines w) (round_totals w) (Some r)
  else w.

(** [time.time()]. *)
Definition time_time : M F :=
  w <- get_world ;; modify_world advance ;;; ret (clock w (ticks w)).

(** [datetime.now().isoformat()]. *)
Definition now_isoformat : M string :=
  w <- get_world ;; modify_world advance ;;; ret (stamps w (ticks w)).

(** [psycopg2.connect(...)]: the message of the [psycopg2.Error] raised. *)
Definition db_connect : M (option string) :=
  w <- get_world ;; ret (connect_error w).

(** [connection.cursor()]: the message of the [psycopg2.Error] raised. *)
Definition db_cursor : M (option string) :=
  w <- get_world ;; ret (cursor_error w (statements w)).

(** [cursor.execute(q)]: the server's answer to the statement. *)
Definition db_execute (q : string) : M DbReply :=
  w <- get_world ;; modify_world sent ;;; ret (reply w (statements w) q).

(** *** Connecting *)

(** [connect()]: the flag and the measured time.  [self.connection] is
    assigned as soon as [psycopg2.connect] returns, also when setting the
    statement timeout then fails. *)
Definition connect : M (bool * F) :=
  self <- get_self ;;
  t0 <- time_time ;;
  c <- db_connect ;;
  match c with
  | Some _ => ret (false, fzero)
  | None =>
      modify_self with_connection ;;;
      cur <- db_cursor ;;
      match cur with
      | Some _ => ret (false, fzero)
      | None =>
          e <- match statement_timeout_ms self with
               | Some ms =>
                   if (0 <? ms)%Z then
                     rep <- db_execute ("SET statement_timeout = '"
                                          ++ str_of_int ms ++ "ms'") ;;
                     ret (execute_error rep)
                   else ret None
               | None => ret None
               end ;;
          match e with
          | Some _ => ret (false, fzero)
          | None => t1 <- time_time ;; ret (true, fsub t1 t0)
          end
      end
  end.

(** [disconnect()]. *)
Definition disconnect : M unit :=
  self <- get_self ;;
  if connection self then modify_world with_closed else ret tt.

(** *** The EXPLAIN statement *)

Definition str_of_opt (v : OptValue) : string :=
  match v with
  | OptBool true => "True"
  | OptBool false => "False"
  | OptText s => s
  end.

Definition render_option (kv : string * OptValue) : string :=
  let (k, v) := kv in
  if String.eqb (upper k) "FORMAT" then "FORMAT " ++ str_of_opt v
  else
    match v with
    | OptBool true => upper k
    | OptBool false => upper k ++ " false"
    | OptText s => upper k ++ " " ++ s
    end.

(** [sep.join(parts)]. *)
Fixpoint join (sep : string) (parts : list string) : string :=
  match parts with
  | [] => ""
  | [x] => x
  | x :: rest => x ++ sep ++ join sep rest
  end.

Definition build_explain_sql (self : Self) (query : string) : string :=
  "EXPLAIN (" ++ join ", " (map render_option (explain_options self))
    ++ ") " ++ query.

(** What [get_explain_analyze_json] returns: [{"error": ...}], or the
    summary with the raw document when it is kept. *)
Inductive ExplainOut : Type :=
| ExplainError (msg : string)
| ExplainOk (summary : SummaryDict) (raw : option json).

(** [get_explain_analyze_json(query)].  [rows[0][0]] on a row without
    columns is an [IndexError], which nothing here catches. *)
Definition get_explain_analyze_json (query : string) : M ExplainOut :=
  self <- get_self ;;
  if negb (connection self) then ret (ExplainError "Not connected")
  else
    cur <- db_cursor ;;
    match cur with
    | Some e => ret (ExplainError ("EXPLAIN failed: " ++ e))
    | None =>
        rep <- db_execute (build_explain_sql self query) ;;
        match execute_error rep with
        | Some e => ret (ExplainError ("EXPLAIN failed: " ++ e))
        | None =>
            match fetch_result rep with
            | inl e => ret (ExplainError ("EXPLAIN failed: " ++ e))
            | inr [] => ret (ExplainError "No EXPLAIN output")
            | inr ([] :: _) => raise IndexError
            | inr ((plan_obj :: _) :: _) =>
                ret (ExplainOk (summarize_plan plan_obj)
                       (if store_full_plan_json self
                        then Some plan_obj else None))
            end
        end
    end.

(** *** The three execution paths *)

(** [{"error": "Not connected"}]. *)
Definition not_connected : ResultDict :=
  mkResultDict None None None None None None None None
    (Some "Not connected") None None None.

(** [plan_summary.get(key)] for the two timing keys. *)
Definition summary_time (key : PlanSummary -> json) (s : SummaryDict) : json :=
  match s with
  | Summary ps => key ps
  | SummaryError _ => JNull
  end.

(** [plan_summary.get("root", {}).get("actual_rows")]. *)
Definition summary_actual_rows (s : SummaryDict) : json :=
  match s with
  | Summary ps => getj "actual_rows" (root ps)
  | SummaryError _ => JNull
  end.

Definition some_unless_none (v : json) : option json :=
  match v with
  | JNull => None
  | _ => Some v
  end.

(** [(execution_ms / 1000.0) if isinstance(execution_ms, (int, float))
     else client_elapsed]. *)
Definition primary_exec_seconds (execution_ms : json) (client_elapsed : F)
  : Exc F :=
  match execution_ms with
  | JInt n => ebind (fof_int n) (fun x => Ok (fdiv x fthousand))
  | JBool b => ebind (fof_int (Z.b2z b)) (fun x => Ok (fdiv x fthousand))
  | JFloat x => Ok (fdiv x fthousand)
  | _ => Ok client_elapsed
  end.

(** [execute_query_with_explain(query, query_name)]. *)
Definition execute_query_with_explain (query query_name : string)
  : M ResultDict :=
  self <- get_self ;;
  if negb (connection self) then ret not_connected
  else
    t0 <- time_time ;;
    explain_out <- get_explain_analyze_json query ;;
    t1 <- time_time ;;
    let client_elapsed := fsub t1 t0 in
    match explain_out with
    | ExplainError msg =>
        ts <- now_isoformat ;;
        ret (mkResultDict (Some query_name) (Some (environment_name self))
               (Some client_elapsed) None None None None (Some "error")
               (Some msg) (Some ts) None None)
    | ExplainOk summary raw =>
        secs <- lift (primary_exec_seconds
                        (summary_time execution_time_ms summary)
                        client_elapsed) ;;
        ts <- now_isoformat ;;
        ret (mkResultDict (Some query_name) (Some (environment_name self))
               (Some secs) None
               (some_unless_none (summary_actual_rows summary))
               None None (Some "success") None (Some ts) (Some summary)
               (if store_full_plan_json self then raw else None))
    end.

(** The result both other paths build in [except psycopg2.Error]. *)
Definition error_result (self : Self) (query_name : string) (t0 : F)
    (msg : string) : M ResultDict :=
  t1 <- time_time ;;
  ts <- now_isoformat ;;
  ret (mkResultDict (Some query_name) (Some (environment_name self))
         (Some (fsub t1 t0)) None None None None (Some "error") (Some msg)
         (Some ts) None None).

(** [[desc[0] for desc in cursor.description] if cursor.description
     else []]. *)
Definition names_of (description : option (list string)) : list string :=
  match description with
  | Some l => l
  | None => []
  end.

(** [len(results)]. *)
Definition len_json {A : Type} (l : list A) : json := JInt (Z.of_nat (List.length l)).

(** [execute_query_with_detailed_timing(query, query_name)]. *)
Definition execute_query_with_detailed_timing (query query_name : string)
  : M ResultDict :=
  self <- get_self ;;
  if negb (connection self) then ret not_connected
  else
    t0 <- time_time ;;
    t_c0 <- time_time ;;
    cur <- db_cursor ;;
    match cur with
    | Some e => error_result self query_name t0 e
    | None =>
        t_c1 <- time_time ;;
        t_e0 <- time_time ;;
        rep <- db_execute query ;;
        match execute_error rep with
        | Some e => error_result self query_name t0 e
        | None =>
            t_e1 <- time_time ;;
            t_f0 <- time_time ;;
            match fetch_result rep with
            | inl e => error_result self query_name t0 e
            | inr rows =>
                t_f1 <- time_time ;;
                t_col0 <- time_time ;;
                let column_names := names_of (description rep) in
                t_col1 <- time_time ;;
                let timing :=
                  mkDetailedTiming (fsub t_c1 t_c0) (fsub t_e1 t_e0)
                    (fsub t_f1 t_f0) (fsub t_col1 t_col0) in
                let total_time :=
                  fadd (fadd (fadd (cursor_creation_time timing)
                                (query_execution_time timing))
                          (result_fetch_time timing))
                    (column_info_time timing) in
                ts <- now_isoformat ;;
                ret (mkResultDict (Some query_name)
                       (Some (environment_name self)) (Some total_time)
                       (Some timing) (Some (len_json rows))
                       (Some column_names) (Some rows) (Some "success")
                       None (Some ts) None None)
            end
        end
    end.

(** [execute_query_simple(query, query_name)]. *)
Definition execute_query_simple (query query_name : string) : M ResultDict :=
  self <- get_self ;;
  if negb (connection self) then ret not_connected
  else
    t0 <- time_time ;;
    cur <- db_cursor ;;
    match cur with
    | Some e => error_result self query_name t0 e
    | None =>
        rep <- db_execute query ;;
        match execute_error rep with
        | Some e => error_result self query_name t0 e
        | None =>
            match fetch_result rep with
            | inl e => error_result self query_name t0 e
            | inr rows =>
                let colnames := names_of (description rep) in
                t1 <- time_time ;;
                ts <- now_isoformat ;;
                ret (mkResultDict (Some query_name)
                       (Some (environment_name self)) (Some (fsub t1 t0))
                       None (Some (len_json rows)) (Some colnames)
                       (Some rows) (Some "success") None (Some ts) None
                       None)
            end
        end
    end.

(** *** Loading the queries *)

(** One element of the list built by [load_sql_files]. *)
Record QueryRecord : Type := mkQueryRecord {
  filename : string;
  content : string
}.

Definition is_slash (c : ascii) : bool := Ascii.eqb c "/"%char.

Fixpoint has_slash (s : string) : bool :=
  match s with
  | EmptyString => false
  | String c s' => is_slash c || has_slash s'
  end.

(** [s.rstrip("/")]. *)
Fixpoint rstrip_slashes (s : string) : string :=
  match s with
  | EmptyString => EmptyString
  | String c s' =>
      match rstrip_slashes s' with
      | EmptyString => if is_slash c then EmptyString else String c EmptyString
      | r => String c r
      end
  end.

(** What [glob.glob(os.path.join(directory, "*.sql"))] puts before each
    name it finds, for a directory path without pattern characters: the
    path without its trailing slashes and one slash, or the path itself
    when it is empty or made of slashes only. *)
Definition glob_prefix (directory : string) : string :=
  match directory with
  | EmptyString => EmptyString
  | _ =>
      match rstrip_slashes directory with
      | EmptyString => directory
      | d => (d ++ "/")%string
      end
  end.

(** [os.path.basename(p)]: what follows the last slash. *)
Fixpoint basename (p : string) : string :=
  match p with
  | EmptyString => EmptyString
  | String c p' =>
      if has_slash p' then basename p'
      else if is_slash c then p' else p
  end.

(** A name [glob] keeps for the pattern [*.sql]: it ends with [.sql] and
    does not start with a dot. *)
Definition starts_with_dot (name : string) : bool :=
  match name with
  | String "."%char _ => true
  | _ => false
  end.

Definition matches_sql (name : string) : bool :=
  endswith ".sql" name && negb (starts_with_dot name).

(** [glob.glob(os.path.join(directory, "*.sql"))] for a directory path
    without pattern characters, from the files of the directory. *)
Definition glob_sql (directory : string) (entries : list FileEntry)
  : list string :=
  map (fun e => (glob_prefix directory ++ fe_name e)%string)
    (List.filter (fun e => matches_sql (fe_name e)) entries).

(** [sorted(paths)]: by code point, character by character. *)
Fixpoint insert_sorted (x : string) (l : list string) : list string :=
  match l with
  | [] => [x]
  | y :: l' => if String.leb x y then x :: l else y :: insert_sorted x l'
  end.

Definition sorted (l : list string) : list string :=
  fold_right insert_sorted [] l.

(** [open(file_path).read()] for a path made of [glob_prefix directory]
    and a name of the directory; [None] when it raises. *)
Definition read_path (directory : string) (entries : list FileEntry)
    (path : string) : option string :=
  match List.find (fun e => String.eqb
                              (glob_prefix directory ++ fe_name e)%string
                              path) entries with
  | Some e => fe_text e
  | None => None
  end.

(** The body of the loop of [load_sql_files]. *)
Definition load_path (directory : string) (entries : list FileEntry)
    (path : string) : list QueryRecord :=
  match read_path directory entries path with
  | Some text =>
      let content := strip text in
      if nonempty content then [ mkQueryRecord (basename path) content ]
      else []
  | None => []
  end.

(** What the loop of [load_sql_files] builds for a directory path without
    pattern characters, from the files of the directory. *)
Definition load_from (directory : string) (entries : list FileEntry)
  : list QueryRecord :=
  flat_map (load_path directory entries)
    (sorted (glob_sql directory entries)).

(** [glob.has_magic]: the path holds one of [*], [?] and [[], and [glob]
    reads it as a pattern.  The pattern [os.path.join(directory, "*.sql")]
    has the directory, less its trailing slashes, as its directory part. *)
Definition is_magic (c : ascii) : bool :=
  Ascii.eqb c "*"%char || Ascii.eqb c "?"%char || Ascii.eqb c "["%char.

Fixpoint has_magic (s : string) : bool :=
  match s with
  | EmptyString => false
  | String c s' => is_magic c || has_magic s'
  end.

(** What the loop builds from the paths [glob] yields for a pattern
    directory: the paths are whole, nothing is put before them. *)
Definition load_globbed (found : list FileEntry) : list QueryRecord :=
  flat_map (load_path EmptyString found) (sorted (map fe_name found)).

(** The list [load_sql_files] builds in a world. *)
Definition load_all (w : World) (directory : string) : list QueryRecord :=
  if has_magic directory then load_globbed (globbed w directory)
  else load_from directory (listing w directory).

(** [load_sql_files(directory)]. *)
Definition load_sql_files (directory : string) : M (list QueryRecord) :=
  w <- get_world ;; ret (load_all w directory).

(** *** The rounds *)

(** [sum(xs)] of floats: Python starts from the integer 0, and 0 plus a
    float is that float; the model starts from 0.0. *)
Definition py_sum (xs : list F) : F := fold_left fadd xs fzero.

(** [min(xs)] and [max(xs)]; a [ValueError] on an empty sequence. *)
Definition py_min (xs : list F) : Exc F :=
  match xs with
  | [] => Raise ValueError
  | x :: xs' => Ok (fold_left (fun m y => if fltb y m then y else m) xs' x)
  end.

Definition py_max (xs : list F) : Exc F :=
  match xs with
  | [] => Raise ValueError
  | x :: xs' => Ok (fold_left (fun m y => if fltb m y then y else m) xs' x)
  end.

(** [x / n] for a float (or the integer 0 of an empty sum) and an [int]. *)
Definition div_by_int (x : F) (n : Z) : Exc F :=
  if (n =? 0)%Z then Raise ZeroDivisionError
  else ebind (fof_int n) (fun d => Ok (fdiv x d)).

(** [statistics.stdev(xs) if len(xs) > 1 else 0.0]. *)
Definition stdev_or_zero (xs : list F) : F :=
  if (1 <? List.length xs)%nat then fstdev xs else fzero.

(** The figures computed after the loop of [execute_all_queries]. *)
Definition round_statistics (round_times : list F) (iterations : Z)
  : Exc RoundTotals :=
  let total := py_sum round_times in
  ebind (div_by_int total iterations) (fun avg =>
  ebind (py_min round_times) (fun mn =>
  ebind (py_max round_times) (fun mx =>
  Ok (mkRoundTotals total avg mn mx (stdev_or_zero round_times))))).

(** [f"_round{r}"]. *)
Definition round_marker (r : Z) : string :=
  ("_round" ++ str_of_int r)%string.

(** [x["status"] == st and f"_round{r}" in x["query_name"]]; a missing key
    is a [KeyError]. *)
Definition in_round (st : string) (r : Z) (x : ResultDict) : Exc bool :=
  match status x with
  | None => Raise KeyError
  | Some s =>
      if String.eqb s st then
        match query_name x with
        | None => Raise KeyError
        | Some qn => Ok (contains (round_marker r) qn)
        end
      else Ok false
  end.

(** [sum(1 for x in xs if test(x))]. *)
Fixpoint count_where {A : Type} (test : A -> Exc bool) (xs : list A)
  : Exc nat :=
  match xs with
  | [] => Ok O
  | x :: xs' =>
      ebind (test x) (fun b =>
      ebind (count_where test xs') (fun n =>
      Ok (if b then S n else n)))
  end.

Definition dispatch (run_explain detailed_timing : bool)
    (query qname : string) : M ResultDict :=
  if run_explain then execute_query_with_explain query qname
  else if detailed_timing then execute_query_with_detailed_timing query qname
  else execute_query_simple query qname.

(** The inner loop [for i, s in enumerate(sql_files, 1)] of round [r]. *)
Fixpoint run_queries (run_explain detailed_timing : bool) (r : Z)
    (sql_files : list QueryRecord) : M unit :=
  match sql_files with
  | [] => ret tt
  | s :: rest =>
      res <- dispatch run_explain detailed_timing (content s)
               (filename s ++ round_marker r)%string ;;
      modify_self (fun self => append_result self res) ;;;
      run_queries run_explain detailed_timing r rest
  end.

(** [n] turns of [for r in range(...)], starting with round [r]; the local
    list [round_times] is passed along. *)
Fixpoint run_rounds (run_explain detailed_timing : bool)
    (sql_files : list QueryRecord) (n : nat) (r : Z) (round_times : list F)
  : M (list F) :=
  match n with
  | O => ret round_times
  | S n' =>
      r0 <- time_time ;;
      run_queries run_explain detailed_timing r sql_files ;;;
      r1 <- time_time ;;
      let rt := fsub r1 r0 in
      self <- get_self ;;
      succ <- lift (count_where (in_round "success" r) (self_results self)) ;;
      fail <- lift (count_where (in_round "error" r) (self_results self)) ;;
      modify_world (with_round_line (mkRoundLine r rt succ fail)) ;;;
      run_rounds run_explain detailed_timing sql_files n' (r + 1)
        (round_times ++ [rt])
  end.

(** [execute_all_queries(sql_directory, iterations, detailed_timing,
    run_explain)]; [range(1, iterations + 1)] has [iterations] elements, or
    none when [iterations] is not positive. *)
Definition execute_all_queries (sql_directory : string) (iterations : Z)
    (detailed_timing run_explain : bool) : M unit :=
  c <- connect ;;
  let (ok, connect_time) := c in
  if negb ok then ret tt
  else
    modify_self (fun self => with_connect_time self connect_time) ;;;
    sql_files <- load_sql_files sql_directory ;;
    round_times <- run_rounds run_explain detailed_timing sql_files
                     (Z.to_nat iterations) 1 [] ;;
    totals <- lift (round_statistics round_times iterations) ;;
    modify_world (with_round_totals totals) ;;;
    modify_self (fun self => with_round_times self round_times) ;;;
    disconnect.

(** *** The report *)

(** [r.get("status") == st]. *)
Definition status_is (st : string) (r : ResultDict) : bool :=
  match status r with
  | Some s => String.eqb s st
  | None => false
  end.

(** [r["status"] == st]. *)
Definition status_eq (st : string) (r : ResultDict) : Exc bool :=
  match status r with
  | Some s => Ok (String.eqb s st)
  | None => Raise KeyError
  end.

(** [r.get("execution_time", 0.0)]. *)
Definition execution_time_or_zero (r : ResultDict) : F :=
  match execution_time r with
  | Some t => t
  | None => fzero
  end.

(** The entries added to the summary when [self.round_times] is not
    empty. *)
Definition round_summary_of (round_times : list F) : Exc (option RoundSummary) :=
  match round_times with
  | [] => Ok None
  | _ =>
      let n := List.length round_times in
      ebind (div_by_int (py_sum round_times) (Z.of_nat n)) (fun avg =>
      ebind (py_min round_times) (fun mn =>
      ebind (py_max round_times) (fun mx =>
      Ok (Some (mkRoundSummary n avg mn mx (py_sum round_times)
                  (stdev_or_zero round_times))))))
  end.

(** [save_data] as built in the [try] block of [save_results]. *)
Definition save_data (self : Self) : Exc SessionReport :=
  let rs := self_results self in
  let total_exec :=
    py_sum (map execution_time_or_zero (List.filter (status_is "success") rs)) in
  let n := List.length rs in
  ebind (match n with
         | O => Ok fzero
         | _ => div_by_int total_exec (Z.of_nat n)
         end) (fun avg_query_time =>
  ebind (count_where (status_eq "success") rs) (fun n_ok =>
  ebind (count_where (status_eq "error") rs) (fun n_err =>
  ebind (round_summary_of (self_round_times self)) (fun rsum =>
  Ok (mkSessionReport (environment_name self) (connect_time self)
        (mkSummaryBlock n n_ok n_err total_exec avg_query_time rsum)
        (self_round_times self) rs))))).

(** [save_results()]: whatever is raised is caught and only reported. *)
Definition save_results : M unit :=
  self <- get_self ;;
  match save_data self with
  | Ok report => modify_world (with_saved report)
  | Raise _ => ret tt
  end.

(** *** The run *)

(** The [try] statement that ends [main]: the rounds, then the report; an
    exception is reported; [disconnect] runs in any case. *)
Definition main_run (sql_directory : string) (iterations : Z)
    (detailed_timing run_explain : bool) : State -> State :=
  fun s =>
    let (_, s1) :=
      bind (execute_all_queries sql_directory iterations detailed_timing
              run_explain)
           (fun _ => save_results) s in
    snd (disconnect s1).

(** *** Notions used to state the properties of a run *)

(** The client-measured elapsed time of a call that took the state from [s]
    to [s']: the last reading of [time.time()] in the call, which is the one
    before the time stamp of the result, minus the first. *)
Definition client_elapsed (s s' : State) : F :=
  fsub (clock (st_world s) (ticks (st_world s') - 2)%nat)
       (clock (st_world s) (ticks (st_world s))).

(** The plan document the server sends back for [query]: the first column
    of the first row of the answer to the EXPLAIN statement. *)
Definition explain_document (query : string) (s : State) : option json :=
  let w := st_world s in
  match fetch_result (reply w (statements w)
                        (build_explain_sql (st_self s) query)) with
  | inr ((doc :: _) :: _) => Some doc
  | _ => None
  end.

(** [t] is [ms / 1000.0] when [ms] is a number for [isinstance(ms, (int,
    float))], and the elapsed time otherwise. *)
Definition seconds_from (ms : json) (elapsed : F) (t : option F) : Prop :=
  match ms with
  | JInt n => exists x, fof_int n = Ok x /\ t = Some (fdiv x fthousand)
  | JBool b =>
      exists x, fof_int (Z.b2z b) = Ok x /\ t = Some (fdiv x fthousand)
  | JFloat x => t = Some (fdiv x fthousand)
  | _ => t = Some elapsed
  end.

(** What [connect] leaves as it was. *)
Definition same_records (s s1 : State) : Prop :=
  self_results (st_self s1) = self_results (st_self s) /\
  self_round_times (st_self s1) = self_round_times (st_self s) /\
  environment_name (st_self s1) = environment_name (st_self s) /\
  connect_time (st_self s1) = connect_time (st_self s) /\
  round_lines (st_world s1) = round_lines (st_world s) /\
  round_totals (st_world s1) = round_totals (st_world s) /\
  saved (st_world s1) = saved (st_world s) /\
  writable (st_world s1) = writable (st_world s) /\
  listing (st_world s1) = listing (st_world s).

(** [a <= b] for strings. *)
Definition str_le (a b : string) : Prop := String.leb a b = true.

(** A directory listing: no two files have the same name, and a name has
    no slash. *)
Definition wf_listing (entries : list FileEntry) : Prop :=
  NoDup (map fe_name entries) /\
  forall e, In e entries -> has_slash (fe_name e) = false.

(** The record a file gives, and the files that give one: the name matches
    [*.sql], the file can be read, and its text is not blank. *)
Definition record_of (e : FileEntry) : QueryRecord :=
  mkQueryRecord (fe_name e)
    (strip match fe_text e with Some t => t | None => EmptyString end).

Definition has_text (e : FileEntry) : bool :=
  match fe_text e with
  | Some t => nonempty (strip t)
  | None => false
  end.

Definition loadable (e : FileEntry) : bool :=
  matches_sql (fe_name e) && has_text e.

Definition by_filename (a b : QueryRecord) : Prop :=
  str_le (filename a) (filename b).

(** How many records carry the file name [name]. *)
Definition records_named (name : string) (recs : list QueryRecord) : nat :=
  List.length (List.filter (fun r => String.eqb (filename r) name) recs).

(** How many results have the status [st] and a name that ends with the
    marker of round [r]. *)
Definition ends_in_round (st : string) (r : Z) (x : ResultDict) : bool :=
  status_is st x &&
  match query_name x with
  | Some qn => endswith (round_marker r) qn
  | None => false
  end.

End WithFloat.

Arguments Row F : clear implicits.
Arguments DbReply F : clear implicits.
Arguments RoundLine F : clear implicits.
Arguments RoundTotals F : clear implicits.
Arguments RoundSummary F : clear implicits.
Arguments DetailedTiming F : clear implicits.
Arguments ResultDict F : clear implicits.
Arguments SummaryBlock F : clear implicits.
Arguments SessionReport F : clear implicits.
Arguments World F : clear implicits.
Arguments Self F : clear implicits.
Arguments State F : clear implicits.
Arguments M F : clear implicits.
Arguments ExplainOut F : clear implicits.

End Executor.

(** ** Scenario labels *)

Module Scenario.

Import Py.

(** The table of [map_scenario]. *)
Definition mapping : dict string :=
  [ ("baseline", "NONE");
    ("ce_cm", "CE+CM");
    ("ce", "CE");
    ("cm", "CM");
    ("jn", "JN");
    ("ce_jn", "CE+JN");
    ("cm_jn", "CM+JN");
    ("all_three", "ALL");
    ("all", "ALL");
    ("ce+cm", "CE+CM");
    ("ce+jn", "CE+JN");
    ("cm+jn", "CM+JN");
    ("ce+cm+jn", "ALL") ].

(** [map_scenario(best_combo)] of [generate_sql_speedup_hash_cache.py], for
    a string argument. *)
Definition map_scenario (best_combo : string) : string :=
  if negb (nonempty best_combo) then "NONE"
  else
    let key := lower (strip best_combo) in
    getd key mapping (upper (strip best_combo)).

(** The labels the table produces. *)
Definition canonical_labels : list string :=
  [ "NONE"; "CE"; "CM"; "JN"; "CE+CM"; "CE+JN"; "CM+JN"; "ALL" ].

End Scenario.

(** ** Rational arithmetic as an instance of the float interface *)

(** The worked examples compute with rationals: the four operations are
    exact, [int(x)] truncates towards zero, and the standard deviation is the
    square root of the sample variance rounded down to eight decimals. *)
Module QFloat.

Definition q_mean (xs : list Q) : Q :=
  Qdiv (fold_left Qplus xs (inject_Z 0)) (inject_Z (Z.of_nat (List.length xs))).

Definition q_variance (xs : list Q) : Q :=
  let m := q_mean xs in
  Qdiv (fold_left Qplus
          (map (fun x => Qmult (Qminus x m) (Qminus x m)) xs) (inject_Z 0))
       (inject_Z (Z.of_nat (List.length xs) - 1)).

Definition q_sqrt (q : Q) : Q :=
  Qmake (Z.sqrt (Qnum q * 10 ^ 16 / Zpos (Qden q))) (10 ^ 8).

Definition q_trunc (q : Q) : Z := Z.quot (Qnum q) (Zpos (Qden q)).

#[global] Instance ops : FloatOps Q := {|
  fzero := inject_Z 0;
  fthousand := inject_Z 1000;
  fadd := Qplus;
  fsub := Qminus;
  fdiv := Qdiv;
  fltb := fun x y => negb (Qle_bool y x);
  fis_zero := fun x => Qeq_bool x (inject_Z 0);
  fof_int := fun n => Ok (inject_Z n);
  ftrunc := fun x => Ok (q_trunc x);
  fstdev := fun xs => q_sqrt (q_variance xs)
|}.

End QFloat.

(** ** Worked inputs *)

Module Examples.

Import Py Plan Executor.

(** A parallel scan whose only worker carries a plan of its own:
<<
  [{"Plan": {"Node Type": "Gather", "Shared Hit Blocks": 1,
             "Workers": [{"Worker Number": 0,
                          "Plan": {"Node Type": "Seq Scan",
                                   "Shared Hit Blocks": 5}}]},
    "Execution Time": 2}]
>> *)
Definition worker_plan_doc : json Q :=
  JList
    [ JObj
        [ ("Plan",
           JObj
             [ ("Node Type", JStr "Gather");
               ("Shared Hit Blocks", JInt 1);
               ("Workers",
                JList
                  [ JObj
                      [ ("Worker Number", JInt 0);
                        ("Plan",
                         JObj
                           [ ("Node Type", JStr "Seq Scan");
                             ("Shared Hit Blocks", JInt 5) ]) ] ]) ]);
          ("Execution Time", JInt 2) ] ].

(** A join over one scan, with counters on both nodes:
<<
  [{"Plan": {"Node Type": "Hash Join", "Shared Hit Blocks": 3,
             "Temp Read Blocks": 2,
             "Plans": [{"Node Type": "Seq Scan", "Shared Hit Blocks": 4}]},
    "Planning Time": 1, "Execution Time": 2500}]
>> *)
Definition join_doc : json Q :=
  JList
    [ JObj
        [ ("Plan",
           JObj
             [ ("Node Type", JStr "Hash Join");
               ("Shared Hit Blocks", JInt 3);
               ("Temp Read Blocks", JInt 2);
               ("Plans",
                JList
                  [ JObj
                      [ ("Node Type", JStr "Seq Scan");
                        ("Shared Hit Blocks", JInt 4) ] ]) ]);
          ("Planning Time", JInt 1);
          ("Execution Time", JInt 2500) ] ].

(** A document whose ["Plan"] is a list, so that it cannot be summarised,
    with an execution time of 5 ms:
<<
  [{"Plan": [], "Execution Time": 5}]
>> *)
Definition unreadable_plan_doc : json Q :=
  JList [ JObj [ ("Plan", JList []); ("Execution Time", JInt 5) ] ].

(** A clock that advances by one second at each reading. *)
Definition clock_1s (n : nat) : Q := inject_Z (Z.of_nat n).

Definition stamp (n : nat) : string := "2026-01-01T00:00:00".

(** A statement that succeeds with the given rows, and one that fails. *)
Definition answer (rows : list (Row Q)) : DbReply Q :=
  mkDbReply None (inr rows) (Some [ "?column?" ]).

Definition failure (msg : string) : DbReply Q :=
  mkDbReply (Some msg) (inl msg) None.

(** A world at the start of a run. *)
Definition world (connect_error : option string)
    (reply : nat -> string -> DbReply Q) (files : list FileEntry) : World Q :=
  mkWorld clock_1s stamp 0 connect_error (fun _ => None) reply 0
    (fun _ => files) (fun _ => []) true false [] None None.

(** The object [main] creates, and the same object once connected. *)
Definition fresh : Self Q := init "test" false None None.

Definition connected : Self Q := with_connection fresh.

(** The server answers every statement with one row holding [doc]. *)
Definition plan_world (doc : json Q) : World Q :=
  world None (fun _ _ => answer [ [ doc ] ]) [].

(** The server refuses every statement. *)
Definition failing_world : World Q :=
  world None (fun _ _ => failure "relation does not exist") [].

(** The server cannot be reached. *)
Definition unreachable_world : World Q :=
  world (Some "timeout expired") (fun _ _ => answer []) [].

(** A directory with one query whose name contains a round marker. *)
Definition marker_files : list FileEntry :=
  [ mkFileEntry "q_round2.sql" (Some "SELECT 1") ].

Definition marker_world : World Q :=
  world None (fun _ _ => answer [ [ JInt 1 ] ]) marker_files.

(** A directory with two queries, the second of which fails. *)
Definition mixed_files : list FileEntry :=
  [ mkFileEntry "a.sql" (Some "SELECT 1");
    mkFileEntry "b.sql" (Some "SELECT * FROM missing") ].

Definition mixed_world : World Q :=
  world None
    (fun _ q =>
       if String.eqb q "SELECT * FROM missing"
       then failure "relation does not exist"
       else answer [ [ JInt 1 ] ])
    mixed_files.

(** A directory with a blank query file. *)
Definition blank_files : list FileEntry :=
  [ mkFileEntry "blank.sql" (Some "  ") ].

(** A directory in no particular order, with a file that is no query, a
    hidden file, a blank one and one that cannot be read. *)
Definition some_files : list FileEntry :=
  [ mkFileEntry "b.sql" (Some "SELECT 2");
    mkFileEntry "notes.txt" (Some "remember");
    mkFileEntry "a.sql" (Some " SELECT 1 ");
    mkFileEntry ".hidden.sql" (Some "SELECT 3");
    mkFileEntry "blank.sql" (Some "");
    mkFileEntry "locked.sql" None ].

(** The states the examples start from. *)
Definition join_state : State Q := mkState connected (plan_world join_doc).

Definition unreadable_state : State Q :=
  mkState connected (plan_world unreadable_plan_doc).

Definition failing_state : State Q := mkState connected failing_world.

Definition unreachable_state : State Q := mkState fresh unreachable_world.

Definition files_state : State Q :=
  mkState fresh (world None (fun _ _ => answer []) some_files).

Definition blank_state : State Q :=
  mkState fresh (world None (fun _ _ => answer []) blank_files).

(** Two directories [q1] and [q2], seen through the pattern [q*]: the paths
    [glob] yields, with the text of each file. *)
Definition globbed_files : list FileEntry :=
  [ mkFileEntry "q1/b.sql" (Some "SELECT 2");
    mkFileEntry "q2/a.sql" (Some " SELECT 1 ") ].

Definition pattern_state : State Q :=
  mkState fresh
    (mkWorld clock_1s stamp 0 None (fun _ => None) (fun _ _ => answer []) 0
       (fun _ => []) (fun _ => globbed_files) true false [] None None).

(** Two rounds in simple mode over [marker_files]. *)
Definition marker_run : State Q :=
  snd (execute_all_queries "queries" 2 false false
         (mkState fresh marker_world)).

(** One round in simple mode over [mixed_files], then the report. *)
Definition mixed_run : State Q :=
  main_run "queries" 1 false false (mkState fresh mixed_world).

End Examples.

(** ** The fingerprint of a query text *)

Module Fingerprint.

Import Py.

(** [x & 0xFFFFFFFF]. *)
Definition mask32 (x : Z) : Z := Z.land x 0xFFFFFFFF.

(** [rot(x, k)]; every call has a constant [k] between 4 and 25. *)
Definition rot (x k : Z) : Z :=
  mask32 (Z.lor (Z.shiftl x k) (Z.shiftr x (32 - k))).

(** [mix(a, b, c)]. *)
Definition mix (a b c : Z) : Z * Z * Z :=
  let a := mask32 (a - c) in
  let a := Z.lxor a (rot c 4) in
  let c := mask32 (c + b) in
  let b := mask32 (b - a) in
  let b := Z.lxor b (rot a 6) in
  let a := mask32 (a + c) in
  let c := mask32 (c - b) in
  let c := Z.lxor c (rot b 8) in
  let b := mask32 (b + a) in
  let a := mask32 (a - c) in
  let a := Z.lxor a (rot c 16) in
  let c := mask32 (c + b) in
  let b := mask32 (b - a) in
  let b := Z.lxor b (rot a 19) in
  let a := mask32 (a + c) in
  let c := mask32 (c - b) in
  let c := Z.lxor c (rot b 4) in
  let b := mask32 (b + a) in
  (a, b, c).

(** [final(a, b, c)]. *)
Definition final (a b c : Z) : Z * Z * Z :=
  let c := Z.lxor c b in
  let c := mask32 (c - rot b 14) in
  let a := Z.lxor a c in
  let a := mask32 (a - rot c 11) in
  let b := Z.lxor b a in
  let b := mask32 (b - rot a 25) in
  let c := Z.lxor c b in
  let c := mask32 (c - rot b 16) in
  let a := Z.lxor a c in
  let a := mask32 (a - rot c 4) in
  let b := Z.lxor b a in
  let b := mask32 (b - rot a 14) in
  let c := Z.lxor c b in
  let c := mask32 (c - rot b 24) in
  (a, b, c).

(** [d0 | (d1 << 8) | (d2 << 16) | (d3 << 24)]. *)
Definition word_le (d0 d1 d2 d3 : Z) : Z :=
  Z.lor (Z.lor (Z.lor d0 (Z.shiftl d1 8)) (Z.shiftl d2 16)) (Z.shiftl d3 24).

(** The [while length - i >= 12] loop of [hash_bytes]: the state after the
    last whole block, and [data[i:]]. *)
Fixpoint blocks (data : list Z) (a b c : Z) : Z * Z * Z * list Z :=
  match data with
  | d0 :: d1 :: d2 :: d3 :: d4 :: d5 :: d6 :: d7 :: d8 :: d9 :: d10 :: d11
       :: rest =>
      let a := mask32 (a + word_le d0 d1 d2 d3) in
      let b := mask32 (b + word_le d4 d5 d6 d7) in
      let c := mask32 (c + word_le d8 d9 d10 d11) in
      let '(a, b, c) := mix a b c in
      blocks rest a b c
  | _ => (a, b, c, data)
  end.

(** [x = (x + (tail[i] << k)) & 0xFFFFFFFF] under [if tlen >= i + 1]. *)
Definition add_byte (tail : list Z) (i : nat) (k : Z) (x : Z) : Z :=
  if (i <? List.length tail)%nat
  then mask32 (x + Z.shiftl (nth i tail 0) k)
  else x.

(** The bytes after the last whole block; the lowest byte of [c] is left to
    the length. *)
Definition add_tail (tail : list Z) (a b c : Z) : Z * Z * Z :=
  let a := add_byte tail 0 0 a in
  let a := add_byte tail 1 8 a in
  let a := add_byte tail 2 16 a in
  let a := add_byte tail 3 24 a in
  let b := add_byte tail 4 0 b in
  let b := add_byte tail 5 8 b in
  let b := add_byte tail 6 16 b in
  let b := add_byte tail 7 24 b in
  let c := add_byte tail 8 8 c in
  let c := add_byte tail 9 16 c in
  let c := add_byte tail 10 24 c in
  (a, b, c).

(** [hash_bytes(data)] for a sequence of byte values. *)
Definition hash_bytes (data : list Z) : Z :=
  let length := Z.of_nat (List.length data) in
  let init := mask32 (0x9E3779B9 + length + 3923095) in
  let '(a, b, c, tail) := blocks data init init init in
  let '(a, b, c) := add_tail tail a b c in
  let '(a, b, c) := final a b c in
  mask32 c.

(** The value [main] writes for the hash [h]:
    [h - 0x100000000 if h & 0x80000000 else h]. *)
Definition signed_hash (h : Z) : Z :=
  if Z.eqb (Z.land h 0x80000000) 0 then h else h - 0x100000000.

(** A 32-bit word: a value the mask leaves as it is. *)
Definition word (x : Z) : Prop := mask32 x = x.

(** The steps of [mix] and [final] taken backwards. *)
Definition unmix (a b c : Z) : Z * Z * Z :=
  let b := mask32 (b - a) in
  let c := Z.lxor c (rot b 4) in
  let c := mask32 (c + b) in
  let a := mask32 (a - c) in
  let b := Z.lxor b (rot a 19) in
  let b := mask32 (b + a) in
  let c := mask32 (c - b) in
  let a := Z.lxor a (rot c 16) in
  let a := mask32 (a + c) in
  let b := mask32 (b - a) in
  let c := Z.lxor c (rot b 8) in
  let c := mask32 (c + b) in
  let a := mask32 (a - c) in
  let b := Z.lxor b (rot a 6) in
  let b := mask32 (b + a) in
  let c := mask32 (c - b) in
  let a := Z.lxor a (rot c 4) in
  let a := mask32 (a + c) in
  (a, b, c).

Definition unfinal (a b c : Z) : Z * Z * Z :=
  let c := mask32 (c + rot b 24) in
  let c := Z.lxor c b in
  let b := mask32 (b + rot a 14) in
  let b := Z.lxor b a in
  let a := mask32 (a + rot c 4) in
  let a := Z.lxor a c in
  let c := mask32 (c + rot b 16) in
  let c := Z.lxor c b in
  let b := mask32 (b + rot a 25) in
  let b := Z.lxor b a in
  let a := mask32 (a + rot c 11) in
  let a := Z.lxor a c in
  let c := mask32 (c + rot b 14) in
  let c := Z.lxor c b in
  (a, b, c).

(** *** The statement text *)

(** [ch.lower()] for one character below 256: the ASCII capitals and the
    capitals of Latin-1 move up by 32. *)
Definition lower_cp (c : ascii) : ascii :=
  let n := nat_of_ascii c in
  if ((65 <=? n) && (n <=? 90)
      || (192 <=? n) && (n <=? 222) && negb (n =? 215))%nat
  then ascii_of_nat (n + 32) else c.

Definition lower_text : string -> string := map_chars lower_cp.

(** [sql[p:p + len(w)].lower() == w], where [s] is [sql[p:]]. *)
Definition at_word (w s : string) : bool :=
  String.eqb (lower_text (substring 0 (String.length w) s)) w.

(** [s[n:]]. *)
Fixpoint drop (n : nat) (s : string) : string :=
  match n, s with
  | S n', String _ s' => drop n' s'
  | _, _ => s
  end.

(** [while p < n and depth > 0], after an opening parenthesis. *)
Fixpoint skip_group (depth : nat) (s : string) : string :=
  match s with
  | EmptyString => EmptyString
  | String c s' =>
      match depth with
      | O => s
      | S d =>
          if Ascii.eqb c "("%char then skip_group (S depth) s'
          else if Ascii.eqb c ")"%char then skip_group d s'
          else skip_group depth s'
      end
  end.

(** [while p < n and not sql[p].isspace()]. *)
Fixpoint skip_word (s : string) : string :=
  match s with
  | EmptyString => EmptyString
  | String c s' => if isspace c then s else skip_word s'
  end.

(** The option names of the unparenthesised form, a [set] in the source:
    [strip_explain_prefix_in] takes them in the order the [for] loop meets
    them. *)
Definition option_words : list string :=
  [ "analyze"; "verbose"; "costs"; "buffers";
    "timing"; "summary"; "settings"; "wal" ].

Definition keywords : list string :=
  [ "select"; "with"; "insert"; "update"; "delete" ].

(** The body of [for opt in options] for one [opt]: where the scan stands
    when [opt] is matched at [s]. *)
Definition after_option (opt s : string) : option string :=
  if at_word opt s then
    let rest := drop (String.length opt) s in
    match rest with
    | EmptyString => Some (lstrip (skip_word rest))
    | String c _ =>
        if isspace c then Some (lstrip (skip_word rest)) else None
    end
  else None.

(** The [for] loop: the first option that is matched ends it. *)
Fixpoint first_option (options : list string) (s : string) : option string :=
  match options with
  | [] => None
  | opt :: rest =>
      match after_option opt s with
      | Some r => Some r
      | None => first_option rest s
      end
  end.

(** The [while p < n] loop over the options; a matched option moves [p]
    forward, so [fuel] turns are enough when [fuel] is the length of [s]. *)
Fixpoint skip_options (options : list string) (fuel : nat) (s : string)
  : string :=
  match fuel with
  | O => s
  | S fuel' =>
      match s with
      | EmptyString => s
      | String _ _ =>
          match first_option options s with
          | Some r => skip_options options fuel' r
          | None => s
          end
      end
  end.

(** [for kw in keywords] at one place: some keyword is read there. *)
Definition at_keyword (s : string) : bool :=
  existsb (fun kw => at_word kw s) keywords.

(** The last loop: the text from the first keyword on, or all of [sql]. *)
Fixpoint find_keyword (sql s : string) : string :=
  match s with
  | EmptyString => sql
  | String _ s' => if at_keyword s then s else find_keyword sql s'
  end.

(** [strip_explain_prefix(sql)], the options being met in the order
    [options]. *)
Definition strip_explain_prefix_in (options : list string) (sql : string)
  : string :=
  let s := lstrip sql in
  if negb (at_word "explain" s) then sql
  else
    let s := lstrip (drop 7 s) in
    let s :=
      match s with
      | String c rest =>
          if Ascii.eqb c "("%char then lstrip (skip_group 1 rest)
          else skip_options options (String.length s) s
      | EmptyString => skip_options options (String.length s) s
      end in
    find_keyword sql s.

Definition strip_explain_prefix : string -> string :=
  strip_explain_prefix_in option_words.

(** [s.encode("utf-8")] for characters below 256. *)
Definition utf8 (c : ascii) : list Z :=
  let n := Z.of_nat (nat_of_ascii c) in
  if (n <? 128)%Z then [n]
  else [Z.lor 0xC0 (Z.shiftr n 6); Z.lor 0x80 (Z.land n 0x3F)].

(** [ch.lower() for ch in start if not ch.isspace()]. *)
Fixpoint squeeze (s : string) : list ascii :=
  match s with
  | EmptyString => []
  | String c s' =>
      if isspace c then squeeze s' else lower_cp c :: squeeze s'
  end.

(** [normalize_sql(sql)]: the bytes of the text. *)
Definition normalize_sql (sql : string) : list Z :=
  flat_map utf8 (squeeze (strip_explain_prefix sql)).

(** A byte of a normal form: no ASCII capital and no ASCII white space. *)
Definition plain_byte (b : Z) : bool :=
  ((0 <=? b) && (b <? 256) && negb ((65 <=? b) && (b <=? 90))
   && negb ((9 <=? b) && (b <=? 13)) && negb ((28 <=? b) && (b <=? 32)))%Z.

(** [query[:-7] if query.endswith("_round1") else query] for the stripped
    [query] of a row, also [normalize_query] of the comparison script. *)
Fixpoint drop_last (n : nat) (s : string) : string :=
  match s with
  | EmptyString => EmptyString
  | String c s' =>
      if (String.length s <=? n)%nat then EmptyString
      else String c (drop_last n s')
  end.

Definition normalize_query (name : string) : string :=
  let name := strip name in
  if endswith "_round1" name then drop_last 7 name else name.

(** The fingerprint [main] stores for the text of a query file. *)
Definition fingerprint (sql : string) : Z :=
  signed_hash (hash_bytes (normalize_sql sql)).

(** A text without parentheses. *)
Definition no_paren : string -> bool :=
  all_chars (fun c => negb (Ascii.eqb c "("%char || Ascii.eqb c ")"%char)).

(** [t] is what is left of [s] after some of its first characters. *)
Definition suffix_of (s t : string) : Prop := exists pre, s = (pre ++ t)%string.

End Fingerprint.

(** ** Notions used to state the properties of whole runs *)

Module Runs.

Import Py Plan Executor.

Section WithFloat.

Context {F : Type} {FO : FloatOps F}.

#[local] Abbreviation Self := (Self F).
#[local] Abbreviation ResultDict := (ResultDict F).
#[local] Abbreviation State := (State F).

(** The object with [self.results] replaced. *)
Definition with_results (self : Self) (rs : list ResultDict) : Self :=
  mkSelf (environment_name self) (connection self) rs
    (self_round_times self) (connect_time self) (store_full_plan_json self)
    (explain_options self) (statement_timeout_ms self).

(** A result as the three execution paths of a connected object build it:
    it has a name, and its status is one of the two the report counts. *)
Definition settled (r : ResultDict) : Prop :=
  (exists qn, query_name r = Some qn) /\
  (status r = Some "success" \/ status r = Some "error").

(** [n] round numbers from [r] on: [range(r, r + n)]. *)
Fixpoint rounds_from (r : Z) (n : nat) : list Z :=
  match n with
  | O => []
  | S n' => r :: rounds_from (r + 1) n'
  end.

(** The names round [r] gives to its results. *)
Definition round_names (files : list QueryRecord) (r : Z)
  : list (option string) :=
  map (fun q => Some (filename q ++ round_marker r)%string) files.

(** Whether [psycopg2.connect] returns a connection. *)
Definition reachable (s : State) : bool :=
  match connect_error (st_world s) with
  | Some _ => false
  | None => true
  end.

End WithFloat.

End Runs.

(** ** The connection parameters *)

Module Config.

Import Py Fingerprint.

Section WithFloat.

Context {F : Type}.

#[local] Abbreviation json := (json F).

(** What is left of [d] after [d.pop(k, None)]. *)
Definition pop {V : Type} (k : string) (d : dict V) : dict V :=
  List.filter (fun kv => negb (String.eqb (fst kv) k)) d.

Definition default_configs : dict (dict json) :=
  [ ("kvm",
     [ ("host", JStr "localhost"); ("port", JInt 5432);
       ("database", JStr "imdbload"); ("user", JStr "qihan") ]);
    ("cvm",
     [ ("host", JStr "localhost"); ("port", JInt 5432);
       ("database", JStr "imdbload"); ("user", JStr "qihan") ]);
    ("cvm_es",
     [ ("host", JStr "localhost"); ("port", JInt 5432);
       ("database", JStr "imdbload"); ("user", JStr "qihan") ]);
    ("cvm_snp",
     [ ("host", JStr "localhost"); ("port", JInt 5432);
       ("database", JStr "imdbload"); ("user", JStr "qihan") ]) ].

(** [get_database_config(environment_name, config_file)].  [config_file]
    is the document [json.load] reads, [None] when there is no such file or
    it cannot be read.  Every exception of the [try] block leads to the
    defaults: a document or an ["environments"] value that is no [dict],
    and an entry that is no [dict] ([.copy()] or the two-argument [.pop]
    raises). *)
Definition get_database_config (environment_name : string)
    (config_file : option json) : dict json :=
  let name := lower_text environment_name in
  let defaults := getd name default_configs (getd "kvm" default_configs []) in
  match config_file with
  | Some (JObj cfg) =>
      match getd "environments" cfg (JObj []) with
      | JObj envs =>
          match get name envs with
          | Some (JObj conf) => pop "description" conf
          | _ => defaults
          end
      | _ => defaults
      end
  | _ => defaults
  end.

End WithFloat.

End Config.

(** ** The comparison of component choices *)

Module Compare.

Import Py.

(** The tables of [compare_component_similarity.py]; the bits are in the
    order CE, CM, JN. *)
Definition BIT_MAP : dict (list Z) :=
  [ ("none", [0; 0; 0]);
    ("baseline", [0; 0; 0]);
    ("ce", [1; 0; 0]);
    ("cm", [0; 1; 0]);
    ("jn", [0; 0; 1]);
    ("ce_cm", [1; 1; 0]);
    ("ce_jn", [1; 0; 1]);
    ("cm_jn", [0; 1; 1]);
    ("all_three", [1; 1; 1]);
    ("all", [1; 1; 1]);
    ("ce+cm", [1; 1; 0]);
    ("ce+jn", [1; 0; 1]);
    ("cm+jn", [0; 1; 1]);
    ("ce+cm+jn", [1; 1; 1]) ].

Definition BEST_NORM : dict string :=
  [ ("baseline", "baseline");
    ("ce", "ce");
    ("cm", "cm");
    ("jn", "jn");
    ("ce_cm", "ce_cm");
    ("ce_jn", "ce_jn");
    ("cm_jn", "cm_jn");
    ("all_three", "all_three");
    ("all", "all_three");
    ("ce+cm", "ce_cm");
    ("ce+jn", "ce_jn");
    ("cm+jn", "cm_jn");
    ("ce+cm+jn", "all_three") ].

Definition COMP_NORM : dict string :=
  [ ("NONE", "none");
    ("N", "none");
    ("CM", "cm");
    ("CE", "ce");
    ("JN", "jn");
    ("CE+CM", "ce_cm");
    ("CE+JN", "ce_jn");
    ("CM+JN", "cm_jn");
    ("ALL", "all_three") ].

(** [hamming(a, b)]: [sum(x != y for x, y in zip(a, b))]. *)
Definition hamming (a b : list Z) : nat :=
  List.length
    (List.filter (fun xy => negb (Z.eqb (fst xy) (snd xy))) (combine a b)).

(** [a == b] for two tuples of integers. *)
Fixpoint tuple_eqb (a b : list Z) : bool :=
  match a, b with
  | [], [] => true
  | x :: a', y :: b' => Z.eqb x y && tuple_eqb a' b'
  | _, _ => false
  end.

(** The combination [load_best_csv] stores for a [best_combo] cell, and the
    one [load_current_txt] stores for a component label. *)
Definition best_combination (best_combo : string) : string :=
  let combo := lower (strip best_combo) in
  getd combo BEST_NORM combo.

Definition label_combination (comp : string) : string :=
  getd comp COMP_NORM (lower comp).

(** The rows [evaluate] compares: the queries of [best], in the order of
    the dictionary, that [pred] knows too and whose two combinations are in
    [BIT_MAP]. *)
Definition rows_of (best pred : dict string)
  : list (string * list Z * list Z) :=
  flat_map
    (fun entry =>
       let (query, best_combo) := entry : string * string in
       match get query pred with
       | None => []
       | Some pred_combo =>
           match get best_combo BIT_MAP, get pred_combo BIT_MAP with
           | Some b, Some p => [ (query, b, p) ]
           | _, _ => []
           end
       end)
    best.

(** A row whose two tuples have the three bits of [BIT_MAP]. *)
Definition bits_row (row : string * list Z * list Z) : Prop :=
  List.length (snd (fst row)) = 3%nat /\ List.length (snd row) = 3%nat.

(** [max(xs)] of a list that is not empty. *)
Definition max_of (xs : list nat) : nat := fold_right Nat.max O xs.

Section WithFloat.

Context {F : Type} {FO : FloatOps F}.

(** What [evaluate] returns when there are rows. *)
Record Stats : Type := mkStats {
  count : nat;
  exact : nat;
  exact_pct : F;
  avg_hamming : F;
  max_hamming : nat;
  dist_counts : list (nat * nat)
}.

(** [a / b] for two [int]s. *)
Definition int_div (a b : nat) : Exc F :=
  if (b =? 0)%nat then Raise ZeroDivisionError
  else ebind (fof_int (Z.of_nat a)) (fun x =>
       ebind (fof_int (Z.of_nat b)) (fun y => Ok (fdiv x y))).

(** [evaluate(best, pred)]; [None] stands for [{"count": 0}]. *)
Definition evaluate (best pred : dict string) : Exc (option Stats) :=
  let rows := rows_of best pred in
  match rows with
  | [] => Ok None
  | _ :: _ =>
      let dists := map (fun row => hamming (snd (fst row)) (snd row)) rows in
      let exact :=
        List.length
          (List.filter (fun row => tuple_eqb (snd (fst row)) (snd row))
             rows) in
      ebind (int_div (list_sum dists) (List.length dists)) (fun avg =>
      ebind (int_div exact (List.length rows)) (fun pct =>
      Ok (Some (mkStats (List.length rows) exact pct avg (max_of dists)
                  (map (fun i => (i, count_occ Nat.eq_dec dists i))
                     (seq 0 4))))))
  end.

End WithFloat.

Arguments Stats F : clear implicits.

End Compare.

(** ** More example data *)

Module MoreExamples.
Import Py Plan Executor Examples.

(** The object [main] creates, in front of the server of [mixed_world]. *)
Definition mixed_start : State Q := mkState fresh mixed_world.

End MoreExamples.

(* ================================================================== *)
(** * Part II: theorems                                                *)
(* ================================================================== *)

(** ** Strings *)

Module PyFacts.

Import Py.

Lemma isspace_upper_char c : isspace (upper_char c) = isspace c.
Proof. destruct c as [[] [] [] [] [] [] [] []]; reflexivity. Qed.

Lemma lower_upper_char c : lower_char (upper_char c) = lower_char c.
Proof. destruct c as [[] [] [] [] [] [] [] []]; reflexivity. Qed.

Lemma upper_upper_char c : upper_char (upper_char c) = upper_char c.
Proof. destruct c as [[] [] [] [] [] [] [] []]; reflexivity. Qed.

Lemma map_chars_compose f g s :
  map_chars f (map_chars g s) = map_chars (fun c => f (g c)) s.
Proof. induction s as [|c s IH]; simpl; [reflexivity | now rewrite IH]. Qed.

Lemma map_chars_ext f g s :
  (forall c, f c = g c) -> map_chars f s = map_chars g s.
Proof.
  intros E. induction s as [|c s IH]; simpl; [reflexivity | now rewrite E, IH].
Qed.

Lemma lower_upper s : lower (upper s) = lower s.
Proof.
  unfold lower, upper. rewrite map_chars_compose.
  apply map_chars_ext, lower_upper_char.
Qed.

Lemma upper_upper s : upper (upper s) = upper s.
Proof.
  unfold upper. rewrite map_chars_compose.
  apply map_chars_ext, upper_upper_char.
Qed.

Lemma nonempty_map_chars f s : nonempty (map_chars f s) = nonempty s.
Proof. destruct s; reflexivity. Qed.

Section Stripping.

Variable f : ascii -> ascii.
Hypothesis keeps_space : forall c, isspace (f c) = isspace c.

Lemma lstrip_map_chars s : lstrip (map_chars f s) = map_chars f (lstrip s).
Proof.
  induction s as [|c s IH]; simpl; [reflexivity|].
  rewrite keeps_space. destruct (isspace c); [exact IH | reflexivity].
Qed.

Lemma rstrip_map_chars s : rstrip (map_chars f s) = map_chars f (rstrip s).
Proof.
  induction s as [|c s IH]; simpl; [reflexivity|].
  rewrite IH, keeps_space. destruct (rstrip s); simpl; [|reflexivity].
  destruct (isspace c); reflexivity.
Qed.

Lemma strip_map_chars s : strip (map_chars f s) = map_chars f (strip s).
Proof. unfold strip. now rewrite lstrip_map_chars, rstrip_map_chars. Qed.

End Stripping.

Lemma lstrip_length s : (String.length (lstrip s) <= String.length s)%nat.
Proof.
  induction s as [|c s IH]; simpl; [lia|].
  destruct (isspace c); simpl; lia.
Qed.

(** A string is left alone by [lstrip] when it does not start with a
    space. *)
Lemma lstrip_fixed s :
  lstrip s = s ->
  match s with
  | EmptyString => True
  | String c _ => isspace c = false
  end.
Proof.
  destruct s as [|c s]; simpl; [tauto|].
  destruct (isspace c) eqn:E; intros H; [|reflexivity].
  pose proof (lstrip_length s) as L. rewrite H in L. simpl in L. lia.
Qed.

Lemma lstrip_idem s : lstrip (lstrip s) = lstrip s.
Proof.
  induction s as [|c s IH]; simpl; [reflexivity|].
  destruct (isspace c) eqn:E; [exact IH|]. simpl. now rewrite E.
Qed.

Lemma rstrip_idem s : rstrip (rstrip s) = rstrip s.
Proof.
  induction s as [|c s IH]; simpl; [reflexivity|].
  destruct (rstrip s) as [|d r] eqn:R.
  - destruct (isspace c) eqn:E; simpl; [reflexivity | now rewrite E].
  - change (rstrip (String c (String d r))) with
      (match rstrip (String d r) with
       | EmptyString => if isspace c then EmptyString else String c EmptyString
       | String _ _ as r' => String c r'
       end).
    now rewrite IH.
Qed.

Lemma lstrip_rstrip s : lstrip s = s -> lstrip (rstrip s) = rstrip s.
Proof.
  intros H. apply lstrip_fixed in H. destruct s as [|c s]; [reflexivity|].
  simpl. destruct (rstrip s); rewrite ?H; simpl; rewrite ?H; reflexivity.
Qed.

Lemma strip_idem s : strip (strip s) = strip s.
Proof.
  unfold strip. rewrite (lstrip_rstrip (lstrip s) (lstrip_idem s)).
  apply rstrip_idem.
Qed.

Lemma nonempty_strip s : nonempty (strip s) = true -> nonempty s = true.
Proof. destruct s; [discriminate | reflexivity]. Qed.

Lemma strip_upper_strip s : strip (upper (strip s)) = upper (strip s).
Proof.
  unfold upper. rewrite strip_map_chars by apply isspace_upper_char.
  now rewrite strip_idem.
Qed.

(** *** Dictionaries *)

Lemma with_key_get {V A : Type} k (absent : A) (present : V -> A) (d : dict V) :
  with_key k absent present d =
  match get k d with
  | Some v => present v
  | None => absent
  end.
Proof.
  induction d as [|[k' v] d IH]; simpl; [reflexivity|].
  destruct (String.eqb k' k); [reflexivity | exact IH].
Qed.

Lemma get_set_same {V : Type} k (v : V) d : get k (set k v d) = Some v.
Proof.
  induction d as [|[k' v'] d IH]; simpl.
  - now rewrite String.eqb_refl.
  - destruct (String.eqb k' k) eqn:E; simpl; rewrite E;
      [reflexivity | exact IH].
Qed.

Lemma get_set_other {V : Type} k k' (v : V) d :
  k <> k' -> get k' (set k v d) = get k' d.
Proof.
  intros N. induction d as [|[k0 v0] d IH]; simpl.
  - destruct (String.eqb k k') eqn:E;
      [apply String.eqb_eq in E; contradiction | reflexivity].
  - destruct (String.eqb k0 k) eqn:E; simpl.
    + apply String.eqb_eq in E. subst k0.
      destruct (String.eqb k k') eqn:E';
        [apply String.eqb_eq in E'; contradiction | reflexivity].
    + destruct (String.eqb k0 k'); [reflexivity | exact IH].
Qed.

Lemma get_in_values {V : Type} k (d : dict V) v :
  get k d = Some v -> In v (map snd d).
Proof.
  induction d as [|[k' v'] d IH]; simpl; [discriminate|].
  destruct (String.eqb k' k); intros H; [inversion H; now left | right; auto].
Qed.

Lemma get_Forall {V : Type} (P : V -> Prop) k (d : dict V) v :
  Forall (fun kv => P (snd kv)) d -> get k d = Some v -> P v.
Proof.
  induction 1 as [|[k' v'] d Hx Hd IH]; simpl; [discriminate|].
  destruct (String.eqb k' k); intros H; [inversion H; subst; exact Hx | auto].
Qed.

End PyFacts.

(** ** Scenario labels *)

Module ScenarioFacts.

Import Py Scenario PyFacts.

Lemma mapping_values k v : get k mapping = Some v -> In v canonical_labels.
Proof.
  intros H. apply get_in_values in H. simpl in H |- *.
  repeat destruct H as [<- | H]; tauto.
Qed.

Lemma canonical_fixed l : In l canonical_labels -> map_scenario l = l.
Proof.
  intros H. simpl in H.
  repeat destruct H as [<- | H]; try reflexivity. contradiction.
Qed.

Lemma map_scenario_nonempty x :
  nonempty x = true ->
  map_scenario x = getd (lower (strip x)) mapping (upper (strip x)).
Proof. intros H. unfold map_scenario. now rewrite H. Qed.

Lemma map_scenario_twice x :
  nonempty (strip x) = true ->
  map_scenario (map_scenario x) = map_scenario x.
Proof.
  intros Hne.
  rewrite (map_scenario_nonempty x (nonempty_strip _ Hne)).
  unfold getd. destruct (get (lower (strip x)) mapping) as [v|] eqn:G.
  - apply canonical_fixed, (mapping_values _ _ G).
  - rewrite map_scenario_nonempty.
    + rewrite strip_upper_strip, lower_upper, upper_upper.
      unfold getd. now rewrite G.
    + unfold upper. now rewrite nonempty_map_chars.
Qed.

(** Every string has a label: one of the table, or the string itself,
    stripped and in upper case. *)
Lemma map_scenario_range x :
  In (map_scenario x) canonical_labels \/ map_scenario x = upper (strip x).
Proof.
  unfold map_scenario. destruct (nonempty x); simpl negb; cbv iota.
  - unfold getd. destruct (get (lower (strip x)) mapping) as [v|] eqn:G.
    + left. exact (mapping_values _ _ G).
    + now right.
  - left. simpl. tauto.
Qed.

(** C9 (amended).  [map_scenario] gives every string a label, which is a
    canonical one or the stripped string in upper case; the empty string
    gives NONE; each of the eight canonical labels is mapped to itself; and
    mapping twice is the same as mapping once for every ASCII string that is
    not blank (not empty once stripped). *)
Theorem map_scenario_spec :
  (forall x, In (map_scenario x) canonical_labels \/
             map_scenario x = upper (strip x)) /\
  map_scenario "" = "NONE" /\
  (forall l, In l canonical_labels -> map_scenario l = l) /\
  (forall x, is_ascii x = true -> nonempty (strip x) = true ->
             map_scenario (map_scenario x) = map_scenario x).
Proof.
  split; [exact map_scenario_range|].
  split; [reflexivity|].
  split; [exact canonical_fixed|].
  intros x _ H. now apply map_scenario_twice.
Qed.

End ScenarioFacts.

(** ** Plan summaries *)

Module PlanFacts.

Import Py Plan PyFacts.

Section WithFloat.

Context {F : Type} {FO : FloatOps F}.

#[local] Abbreviation json := (json F).
#[local] Abbreviation PlanNode := (PlanNode F).
#[local] Abbreviation PlanSummary := (PlanSummary F).

Lemma buffer_keys_nodup : NoDup buffer_keys.
Proof.
  unfold buffer_keys.
  repeat (constructor;
          [simpl; intros H; repeat destruct H as [H|H];
           try discriminate; exact H|]).
  constructor.
Qed.

(** One turn of the loop over the counter names. *)
Lemma add_counter_spec (o : dict json) agg k agg' :
  add_counter o agg k = Ok agg' ->
  forall k', getd k' agg' 0 =
             getd k' agg 0 + (if String.eqb k k' then contribution o k else 0).
Proof.
  unfold add_counter, contribution. intros H k'.
  destruct (get k o) as [v|].
  2:{ inversion H; subst. destruct (String.eqb k k'); lia. }
  destruct (int_of_number v) as [[z|e]|].
  - simpl in H. inversion H; subst. unfold getd.
    destruct (String.eqb k k') eqn:E.
    + apply String.eqb_eq in E. subst k'. now rewrite get_set_same.
    + rewrite get_set_other; [lia|].
      intros ->. rewrite String.eqb_refl in E. discriminate.
  - discriminate.
  - inversion H; subst. destruct (String.eqb k k'); lia.
Qed.

Lemma add_counters_spec (o : dict json) keys :
  NoDup keys -> forall agg agg',
  add_counters o keys agg = Ok agg' ->
  forall k, getd k agg' 0 =
            getd k agg 0 + (if mem k keys then contribution o k else 0).
Proof.
  induction 1 as [|k0 keys Hnotin Hnd IH]; intros agg agg' H k; simpl in *.
  - inversion H; subst. lia.
  - destruct (add_counter o agg k0) as [agg1|e] eqn:E1; simpl in H;
      [|discriminate].
    rewrite (IH _ _ H k), (add_counter_spec _ _ _ _ E1 k).
    rewrite (String.eqb_sym k k0).
    destruct (String.eqb k0 k) eqn:E; simpl.
    + apply String.eqb_eq in E. subst k0.
      assert (mem k keys = false) as ->; [|lia].
      unfold mem. destruct (existsb (String.eqb k) keys) eqn:X; [|reflexivity].
      apply existsb_exists in X. destruct X as [x [Hin Hx]].
      apply String.eqb_eq in Hx. subst x. contradiction.
    + destruct (mem k keys); lia.
Qed.

(** The per-node [buffers] hold the counters of the raw node that are not
    [None]. *)
Lemma get_node_buffer_entries keys (o : dict json) k :
  get k (node_buffer_entries keys o) =
  if mem k keys
  then (if not_none (getj k o) then Some (getj k o) else None)
  else None.
Proof.
  induction keys as [|k0 keys IH]; [reflexivity|].
  cbn [node_buffer_entries]. unfold mem in *. cbn [existsb].
  rewrite (String.eqb_sym k k0).
  destruct (String.eqb k0 k) eqn:E.
  - apply String.eqb_eq in E. subst k0. cbn [orb].
    destruct (not_none (getj k o)) eqn:N.
    + cbn [get]. now rewrite String.eqb_refl.
    + rewrite IH. now destruct (existsb (String.eqb k) keys).
  - cbn [orb]. destruct (not_none (getj k0 o)); cbn [get];
      [rewrite E|]; exact IH.
Qed.

Lemma node_counter_spec keys attrs (o : dict json) cs ws k :
  node_counter k
    (mkPlanNode attrs (or_none (node_buffer_entries keys o)) cs ws) =
  if mem k keys then contribution o k else 0.
Proof.
  unfold node_counter.
  change (pn_buffers
            (mkPlanNode attrs (or_none (node_buffer_entries keys o)) cs ws))
    with (or_none (node_buffer_entries keys o)).
  assert (G := get_node_buffer_entries keys o k).
  destruct (node_buffer_entries keys o) as [|e es]; unfold or_none.
  - cbn [get] in G. destruct (mem k keys); [|reflexivity].
    unfold contribution, getj, getd in *.
    destruct (get k o) as [v|]; [|reflexivity].
    destruct v; simpl in *; try discriminate; reflexivity.
  - rewrite G. destruct (mem k keys); [|reflexivity].
    unfold contribution, getj, getd.
    destruct (get k o) as [v|]; [|reflexivity].
    destruct v; reflexivity.
Qed.

Lemma sum_counter_app k (a b : list PlanNode) :
  sum_counter k (a ++ b) = sum_counter k a + sum_counter k b.
Proof.
  unfold sum_counter.
  induction a as [|x a IH]; simpl; [reflexivity | rewrite IH; lia].
Qed.

(** The two loops over the children agree. *)
Lemma children_sum (l : list json) :
  Forall node_sums l -> forall agg agg' ts,
  each_dict_child collect_buffers l agg = Ok agg' ->
  decode_children extract_plan_tree l = Ok ts ->
  forall k, getd k agg' 0 =
            getd k agg 0 + sum_counter k (flat_map child_nodes ts).
Proof.
  induction 1 as [|c l Hc Hl IH]; intros agg agg' ts HC HD k.
  - simpl in *. inversion HC; inversion HD; subst.
    unfold sum_counter. simpl. lia.
  - cbn [each_dict_child decode_children] in HC, HD.
    destruct c as [| | | | | |o]; try (exact (IH _ _ _ HC HD k)).
    destruct (collect_buffers (JObj o) agg) as [agg1|] eqn:E1;
      simpl in HC; [|discriminate].
    destruct (extract_plan_tree (JObj o)) as [t|] eqn:E2;
      simpl in HD; [|discriminate].
    destruct (decode_children extract_plan_tree l) as [ts'|] eqn:E3;
      simpl in HD; [|discriminate].
    inversion HD; subst ts. simpl flat_map. rewrite sum_counter_app.
    rewrite (IH _ _ _ HC eq_refl k), (Hc _ _ _ E1 E2 k). lia.
Qed.

Lemma over_plans_sum (v : json) :
  elements_sum v -> forall agg agg' ts,
  over_plans collect_buffers v agg = Ok agg' ->
  decode_plans extract_plan_tree v = Ok ts ->
  forall k, getd k agg' 0 =
            getd k agg 0 + sum_counter k (flat_map child_nodes ts).
Proof.
  intros [_ HL] agg agg' ts HC HD k. unfold over_plans, decode_plans in *.
  destruct (truthy v).
  - destruct v; try discriminate.
    + inversion HC; inversion HD; subst. unfold sum_counter; simpl; lia.
    + exact (children_sum _ (HL _ eq_refl) _ _ _ HC HD k).
    + inversion HC; inversion HD; subst. unfold sum_counter; simpl; lia.
  - inversion HC; inversion HD; subst. unfold sum_counter; simpl; lia.
Qed.

(** Every document has the property, by induction on the document. *)
Lemma all_elements_sum : forall v : json, elements_sum v.
Proof.
  apply json_induction;
    try (split; [intros agg agg' t H; discriminate | intros l H; discriminate]).
  - intros l Hl. split; [intros agg agg' t H; discriminate|].
    intros l' E. inversion E; subst l'.
    eapply Forall_impl; [|exact Hl]. intros a [Ha _]. exact Ha.
  - intros o Ho. split; [|intros l H; discriminate].
    intros agg agg' t HC HE k.
    cbn [collect_buffers extract_plan_tree] in HC, HE.
    destruct (add_counters o buffer_keys agg) as [agg1|] eqn:E1;
      cbn [ebind] in HC; [|discriminate].
    pose proof (add_counters_spec _ _ buffer_keys_nodup _ _ E1 k) as A.
    rewrite with_key_get in HC. rewrite with_key_get in HE.
    assert (exists ts ws,
               match get "Plans" o with
               | Some v => decode_plans extract_plan_tree v
               | None => Ok []
               end = Ok ts
               /\ t = mkPlanNode (read_fields node_fields o)
                        (or_none (node_buffer_entries buffer_keys o)) ts ws)
      as (ts & ws & E2 & ->).
    { destruct (match get "Plans" o with
                | Some v => decode_plans extract_plan_tree v
                | None => Ok []
                end) as [ts|]; cbn [ebind] in HE; [|discriminate].
      destruct (with_key "Workers" (Ok None)
                  (decode_workers_value extract_plan_tree) o) as [ws|];
        cbn [ebind] in HE; [|discriminate].
      inversion HE. eauto. }
    clear HE. cbn [child_nodes].
    change (sum_counter k (?n :: ?r))
      with (node_counter k n + sum_counter k r).
    rewrite node_counter_spec.
    destruct (get "Plans" o) as [v|] eqn:GP.
    + rewrite (over_plans_sum v (get_Forall _ _ _ _ Ho GP) _ _ _ HC E2 k). lia.
    + inversion HC; inversion E2; subst. cbn [flat_map].
      change (sum_counter k []) with 0. lia.
Qed.

(** C1 (amended).  For every plan document that [summarize_plan] turns
    into a summary and every counter name [k], the aggregated value of [k]
    in the summary is the sum of [k] over the root of the decoded tree and
    all its descendants through ["children"], where a node counts [int(v)]
    for a numeric value [v] of the counter and 0 when the counter is missing
    or is no number.  Plans nested in workers are not part of the sum. *)
Theorem aggregated_sums_children (plan_json : json) (s : PlanSummary)
    (k : string) :
  summarize_plan plan_json = Summary s ->
  aggregated s k = sum_counter k (child_nodes (complete_plan_tree s)).
Proof.
  unfold summarize_plan, summarize_plan_body. intros H.
  destruct (top_of plan_json) as [| | | | | |top]; try discriminate.
  destruct (getd "Plan" top (JObj [])) as [| | | | | |p] eqn:EP;
    try discriminate.
  destruct (collect_buffers (JObj p) []) as [agg|] eqn:E1;
    cbn [ebind] in H; [|discriminate].
  destruct (extract_plan_tree (JObj p)) as [t|] eqn:E2;
    cbn [ebind] in H; [|discriminate].
  inversion H; subst s. unfold aggregated. cbn [buffers complete_plan_tree].
  pose proof (proj1 (all_elements_sum (JObj p)) _ _ _ E1 E2 k) as A.
  change (getd k [] 0) with 0 in A.
  destruct agg; unfold or_none; [exact A | lia].
Qed.

(** When a summary is built, its execution time is the one of the
    document. *)
Lemma summarize_execution_time (doc : json) (ps : PlanSummary) :
  summarize_plan doc = Summary ps ->
  execution_time_ms ps = server_execution_ms doc.
Proof.
  unfold summarize_plan, summarize_plan_body, server_execution_ms.
  destruct (top_of doc); try discriminate.
  destruct (getd "Plan" members (JObj [])); try discriminate.
  destruct (collect_buffers _ _); cbn [ebind]; [|discriminate].
  destruct (extract_plan_tree _); cbn [ebind]; [|discriminate].
  intros H. inversion H. reflexivity.
Qed.

End WithFloat.

End PlanFacts.

(** ** The execution paths *)

Module ExecutorFacts.

Import Py Plan Executor PyFacts PlanFacts.

Section WithFloat.

Context {F : Type} {FO : FloatOps F}.

#[local] Abbreviation json := (json F).
#[local] Abbreviation State := (State F).
#[local] Abbreviation ResultDict := (ResultDict F).
#[local] Abbreviation World := (World F).
#[local] Abbreviation Self := (Self F).

Ltac unfold_prims :=
  unfold time_time, now_isoformat, db_cursor, db_execute, db_connect,
    bind, ret, raise, lift, get_self, get_world, modify_world,
    modify_self in *.

Ltac unfold_paths :=
  unfold dispatch in *;
  unfold execute_query_with_explain, execute_query_with_detailed_timing,
    execute_query_simple in *;
  unfold get_explain_analyze_json, error_result in *;
  unfold_prims.

(** A branch that returns an error result: the elapsed time is the one of
    the client and there is no summary. *)
Ltac error_case H :=
  inversion H; subst;
  split;
  [ intros _; split; cbn; reflexivity
  | intros ? X; cbn in X; discriminate X ].

(** The four phases are differences of successive readings of the clock,
    none of which is the reading taken on entry. *)
Lemma detailed_phases query qname (s : State) r s' :
  execute_query_with_detailed_timing query qname s = (Ok r, s') ->
  status r = Some "success" ->
  let w := st_world s in
  let n := ticks w in
  detailed_timing r =
    Some (mkDetailedTiming
            (fsub (clock w (n + 2)%nat) (clock w (n + 1)%nat))
            (fsub (clock w (n + 4)%nat) (clock w (n + 3)%nat))
            (fsub (clock w (n + 6)%nat) (clock w (n + 5)%nat))
            (fsub (clock w (n + 8)%nat) (clock w (n + 7)%nat))).
Proof.
  unfold_paths. intros H Hs.
  destruct (connection (st_self s)); cbn in H.
  2:{ inversion H; subst. discriminate. }
  destruct (cursor_error (st_world s) (statements (st_world s))); cbn in H.
  { inversion H; subst. discriminate. }
  destruct (execute_error _); cbn in H.
  { inversion H; subst. discriminate. }
  destruct (fetch_result _); cbn in H.
  { inversion H; subst. discriminate. }
  inversion H; subst. cbn.
  replace (ticks (st_world s) + 1)%nat with (S (ticks (st_world s))) by lia.
  replace (ticks (st_world s) + 2)%nat
    with (S (S (ticks (st_world s)))) by lia.
  replace (ticks (st_world s) + 3)%nat
    with (S (S (S (ticks (st_world s))))) by lia.
  replace (ticks (st_world s) + 4)%nat
    with (S (S (S (S (ticks (st_world s)))))) by lia.
  replace (ticks (st_world s) + 5)%nat
    with (S (S (S (S (S (ticks (st_world s))))))) by lia.
  replace (ticks (st_world s) + 6)%nat
    with (S (S (S (S (S (S (ticks (st_world s)))))))) by lia.
  replace (ticks (st_world s) + 7)%nat
    with (S (S (S (S (S (S (S (ticks (st_world s))))))))) by lia.
  replace (ticks (st_world s) + 8)%nat
    with (S (S (S (S (S (S (S (S (ticks (st_world s)))))))))) by lia.
  reflexivity.
Qed.

(** C5.  In detailed mode the [execution_time] of a successful result is
    the sum, from left to right, of the four phase durations stored in its
    [detailed_timing]; each of them is the difference of the two readings
    of the clock taken around its phase, and the reading taken on entry is
    not used. *)
Theorem detailed_time_is_phase_sum query qname (s : State) r s' :
  execute_query_with_detailed_timing query qname s = (Ok r, s') ->
  status r = Some "success" ->
  exists dt,
    detailed_timing r = Some dt /\
    execution_time r =
      Some (fadd (fadd (fadd (cursor_creation_time dt)
                          (query_execution_time dt))
                    (result_fetch_time dt))
              (column_info_time dt)) /\
    let w := st_world s in
    let n := ticks w in
    dt = mkDetailedTiming
           (fsub (clock w (n + 2)%nat) (clock w (n + 1)%nat))
           (fsub (clock w (n + 4)%nat) (clock w (n + 3)%nat))
           (fsub (clock w (n + 6)%nat) (clock w (n + 5)%nat))
           (fsub (clock w (n + 8)%nat) (clock w (n + 7)%nat)).
Proof.
  intros H Hs. pose proof (detailed_phases _ _ _ _ _ H Hs) as P.
  unfold_paths.
  destruct (connection (st_self s)); cbn in H.
  2:{ inversion H; subst. discriminate. }
  destruct (cursor_error (st_world s) (statements (st_world s))); cbn in H.
  { inversion H; subst. discriminate. }
  destruct (execute_error _); cbn in H.
  { inversion H; subst. discriminate. }
  destruct (fetch_result _); cbn in H.
  { inversion H; subst. discriminate. }
  inversion H; subst. cbn in P |- *. eexists.
  split; [reflexivity|]. split; [reflexivity|].
  cbv zeta in P. inversion P. reflexivity.
Qed.

(** C4.  For a result returned by any of the three execution paths: when
    its status is "error", its [execution_time] is the elapsed time measured
    by the client and it has no plan summary; when it was produced in plan
    mode and its status is "success", it has a plan summary and neither rows
    nor column names, and the call has sent one statement to the server (the
    query is not run a second time to fetch its rows). *)
Theorem result_invariant run_explain detailed query qname (s : State) r s' :
  dispatch run_explain detailed query qname s = (Ok r, s') ->
  (status r = Some "error" ->
     execution_time r = Some (client_elapsed s s') /\
     plan_summary r = None) /\
  (run_explain = true -> status r = Some "success" ->
     (exists ps, plan_summary r = Some ps) /\
     results r = None /\ column_names r = None /\
     statements (st_world s') = S (statements (st_world s))).
Proof.
  unfold client_elapsed. unfold_paths. intros H.
  destruct run_explain; [|destruct detailed].
  all: destruct (connection (st_self s)) eqn:Ec; cbn in H;
    rewrite ?Ec in H; cbn in H;
    [| inversion H; subst; cbn;
       split; [intros X; discriminate X | intros ? X; discriminate X] ].
  all: destruct (cursor_error (st_world s) (statements (st_world s)));
    cbn in H; [error_case H|].
  all: destruct (execute_error _); cbn in H; [error_case H|].
  all: destruct (fetch_result _) as [e|rows]; cbn in H; [error_case H|].
  - destruct rows as [|[|doc row] rows]; cbn in H.
    + error_case H.
    + discriminate.
    + destruct (primary_exec_seconds _ _); cbn in H; [|discriminate].
      inversion H; subst; cbn. split; [intros X; discriminate X|].
      intros _ _. split; [eexists; reflexivity | repeat split].
  - inversion H; subst; cbn.
    split; [intros X; discriminate X | intros X; discriminate X].
  - inversion H; subst; cbn.
    split; [intros X; discriminate X | intros X; discriminate X].
Qed.

(** C3 (amended).  A successful result of plan mode carries the summary of
    the document the server sent.  When that summary was built, its
    execution time is the ["Execution Time"] of the document, and the
    result's [execution_time] is that value divided by 1000.0 if it is a
    number (an [int], a [float] or a [bool]) and the client's elapsed time
    otherwise.  When the document could not be summarised, [execution_time]
    is the client's elapsed time whatever the document says. *)
Theorem explain_execution_time query qname (s : State) r s' :
  execute_query_with_explain query qname s = (Ok r, s') ->
  status r = Some "success" ->
  exists doc,
    explain_document query s = Some doc /\
    plan_summary r = Some (summarize_plan doc) /\
    match summarize_plan doc with
    | Summary ps =>
        execution_time_ms ps = server_execution_ms doc /\
        seconds_from (execution_time_ms ps) (client_elapsed s s')
          (execution_time r)
    | SummaryError _ => execution_time r = Some (client_elapsed s s')
    end.
Proof.
  unfold client_elapsed, explain_document. unfold_paths. intros H Hs.
  destruct (connection (st_self s)) eqn:Ec; cbn in H;
    rewrite ?Ec in H; cbn in H; [|inversion H; subst; discriminate].
  destruct (cursor_error (st_world s) (statements (st_world s))); cbn in H;
    [inversion H; subst; discriminate|].
  destruct (execute_error _); cbn in H; [inversion H; subst; discriminate|].
  destruct (fetch_result _) as [e|[|[|doc row] rows]]; cbn in H;
    try (inversion H; subst; discriminate).
  exists doc. split; [reflexivity|].
  destruct (summarize_plan doc) as [ps|e] eqn:ES; cbn in H.
  - pose proof (summarize_execution_time _ _ ES) as EQ.
    destruct (execution_time_ms ps) eqn:EM; cbn in H.
    all: try (inversion H; subst; cbn; split; [reflexivity|];
              split; [exact EQ|]; cbn; reflexivity).
    all: destruct (fof_int _) eqn:EF; cbn in H; [|discriminate].
    all: inversion H; subst; cbn; split; [reflexivity|];
         split; [exact EQ|]; cbn; eexists; split; [exact EF | reflexivity].
  - inversion H; subst; cbn. split; reflexivity.
Qed.

(** *** Connection failures *)

Lemma connect_frame (s : State) o s1 :
  connect s = (o, s1) -> same_records s s1.
Proof.
  unfold connect, same_records. unfold_prims. cbn. intros H.
  destruct (connect_error (st_world s)); cbn in H.
  { inversion H; subst; cbn. repeat split. }
  destruct (cursor_error (st_world s) (statements (st_world s))); cbn in H.
  { inversion H; subst; cbn. repeat split. }
  destruct (statement_timeout_ms (st_self s)) as [ms|]; cbn in H.
  - destruct (0 <? ms)%Z; cbn in H.
    + destruct (execute_error _); cbn in H;
        inversion H; subst; cbn; repeat split.
    + inversion H; subst; cbn. repeat split.
  - inversion H; subst; cbn. repeat split.
Qed.

Lemma connect_failed_returns dir iterations dt re (s : State) t s1 :
  connect s = (Ok (false, t), s1) ->
  execute_all_queries dir iterations dt re s = (Ok tt, s1).
Proof.
  intros H. unfold execute_all_queries, bind. rewrite H. reflexivity.
Qed.

Lemma main_run_after_abort dir iterations dt re (s : State) t s1 :
  connect s = (Ok (false, t), s1) ->
  main_run dir iterations dt re s = snd (disconnect (snd (save_results s1))).
Proof.
  intros H. unfold main_run, bind.
  rewrite (connect_failed_returns dir iterations dt re s t s1 H).
  destruct (save_results s1). reflexivity.
Qed.

(** C8.  When [connect()] returns false for the object [main] has just
    created, the run ends with no result and no round time recorded, no
    statement sent after those of [connect], no round line and no totals
    printed; the report that is written has no round statistics, no round
    times and no results. *)
Theorem failed_connection_aborts_run env store opts timeout (w : World)
    dir iterations dt re t s1 :
  connect (mkState (init env store opts timeout) w) = (Ok (false, t), s1) ->
  let s' := main_run dir iterations dt re
              (mkState (init env store opts timeout) w) in
  self_results (st_self s') = [] /\
  self_round_times (st_self s') = [] /\
  statements (st_world s') = statements (st_world s1) /\
  round_lines (st_world s') = round_lines w /\
  round_totals (st_world s') = round_totals w /\
  (writable w = true ->
   exists rep, saved (st_world s') = Some rep /\
               round_summary (sr_summary rep) = None /\
               sr_round_times rep = [] /\
               sr_query_results rep = []) /\
  (writable w = false -> saved (st_world s') = saved w).
Proof.
  intros H s'. subst s'. rewrite (main_run_after_abort _ _ _ _ _ _ _ H).
  destruct (connect_frame _ _ _ H)
    as (R1 & R2 & R3 & R4 & R5 & R6 & R7 & R8 & R9).
  cbn in R1, R2, R3, R4, R5, R6, R7, R8, R9.
  unfold save_results, save_data, disconnect. unfold_prims. cbn.
  rewrite R1, R2. cbn.
  unfold with_saved. rewrite R8.
  destruct (writable w); destruct (connection (st_self s1)); cbn;
    repeat split; try assumption;
    try (intros X; discriminate X);
    try (intros _; assumption);
    try (intros _; eexists; repeat split).
Qed.

(** *** The report *)

(** What [save_results] puts in the summary: the total is taken over the
    successful results, and the average divides it by the number of all
    results. *)
Lemma save_data_totals (self : Self) rep :
  save_data self = Ok rep ->
  total_queries (sr_summary rep) = List.length (self_results self) /\
  total_execution_time (sr_summary rep) =
    py_sum (map execution_time_or_zero
              (List.filter (status_is "success") (self_results self))) /\
  match self_results self with
  | [] => average_query_time (sr_summary rep) = fzero
  | _ :: _ =>
      exists d,
        fof_int (Z.of_nat (List.length (self_results self))) = Ok d /\
        average_query_time (sr_summary rep) =
          fdiv (total_execution_time (sr_summary rep)) d
  end.
Proof.
  unfold save_data. intros H.
  destruct (self_results self) as [|r0 rs] eqn:R.
  - cbn in H.
    destruct (round_summary_of (self_round_times self)); cbn in H;
      [|discriminate].
    inversion H; subst rep. cbn. repeat split.
  - cbn [List.length] in H. unfold div_by_int in H.
    destruct (Z.of_nat (S (List.length rs)) =? 0)%Z eqn:Z0;
      [apply Z.eqb_eq in Z0; lia|].
    destruct (fof_int (Z.of_nat (S (List.length rs)))) as [d|] eqn:D;
      cbn [ebind] in H; [|discriminate].
    destruct (count_where (status_eq "success") (r0 :: rs));
      cbn [ebind] in H; [|discriminate].
    destruct (count_where (status_eq "error") (r0 :: rs));
      cbn [ebind] in H; [|discriminate].
    destruct (round_summary_of (self_round_times self));
      cbn [ebind] in H; [|discriminate].
    inversion H; subst rep. cbn.
    split; [reflexivity|]. split; [reflexivity|].
    exists d. split; [exact D | reflexivity].
Qed.

(** *** The counts of a round *)

Lemma eqb_prefix a b : String.eqb a b = true -> String.prefix a b = true.
Proof.
  intros H. apply String.eqb_eq in H. subst b.
  induction a as [|c a IH]; simpl; [reflexivity|].
  destruct (ascii_dec c c); [exact IH | contradiction].
Qed.

Lemma endswith_contains suf s : endswith suf s = true -> contains suf s = true.
Proof.
  induction s as [|c s IH]; cbn [endswith contains]; intros H.
  - rewrite orb_false_r in *. now apply eqb_prefix.
  - apply orb_true_iff in H. apply orb_true_iff. destruct H as [H|H].
    + left. now apply eqb_prefix.
    + right. now apply IH.
Qed.

(** The test of the round loop accepts every result whose name ends with the
    marker of the round; it may accept others. *)
Lemma in_round_covers_suffix st r (x : ResultDict) b :
  in_round st r x = Ok b -> ends_in_round st r x = true -> b = true.
Proof.
  unfold in_round, ends_in_round, status_is.
  destruct (status x) as [s|]; [|discriminate].
  destruct (String.eqb s st); [|discriminate].
  destruct (query_name x) as [qn|]; [|discriminate].
  intros H E. inversion H. now apply endswith_contains.
Qed.

(** *** Round statistics *)

Lemma run_rounds_length re dt files n :
  forall r acc (s : State) rts s',
  run_rounds re dt files n r acc s = (Ok rts, s') ->
  List.length rts = (List.length acc + n)%nat.
Proof.
  induction n as [|n IH]; intros r acc s rts s' H.
  - cbn in H. unfold ret in H. inversion H; subst. lia.
  - cbn [run_rounds] in H. unfold bind at 1 in H.
    destruct (time_time s) as [[r0|e] sa]; [|discriminate].
    unfold bind at 1 in H.
    destruct (run_queries re dt r files sa) as [[u|e] sb]; [|discriminate].
    unfold bind at 1 in H.
    destruct (time_time sb) as [[r1|e] sc]; [|discriminate].
    unfold bind at 1 in H. unfold get_self at 1 in H.
    unfold bind at 1 in H. unfold lift at 1 in H.
    destruct (count_where (in_round "success" r) (self_results (st_self sc)));
      [|discriminate].
    unfold bind at 1 in H. unfold lift at 1 in H.
    destruct (count_where (in_round "error" r) (self_results (st_self sc)));
      [|discriminate].
    unfold bind at 1 in H. unfold modify_world at 1 in H.
    apply IH in H. rewrite H, length_app. simpl. lia.
Qed.

Lemma round_statistics_defined (rts : list F) iterations d :
  (1 <= iterations)%Z -> List.length rts = Z.to_nat iterations ->
  fof_int iterations = Ok d ->
  exists totals, round_statistics rts iterations = Ok totals /\
                 rt_total totals = py_sum rts /\
                 rt_avg totals = fdiv (py_sum rts) d.
Proof.
  intros Hi Hl Hd. unfold round_statistics, div_by_int.
  destruct (iterations =? 0)%Z eqn:E; [lia|]. rewrite Hd. cbn.
  destruct rts as [|x rts]; [simpl in Hl; lia|]. cbn.
  eexists. repeat split.
Qed.

Lemma zero_iterations_outcome dir dt re (s : State) t s1 :
  connect s = (Ok (true, t), s1) ->
  execute_all_queries dir 0 dt re s =
  (Raise ZeroDivisionError,
   mkState (with_connect_time (st_self s1) t) (st_world s1)).
Proof.
  intros H. unfold execute_all_queries, bind. rewrite H. cbn.
  unfold load_sql_files. unfold_prims. cbn. reflexivity.
Qed.

(** C10.  With a connection that succeeds and [iterations = 0], the
    statistics after the rounds divide by zero: [execute_all_queries] raises
    [ZeroDivisionError] and the run writes no report.  The minimum and the
    maximum of an empty series would raise too, and they do when
    [iterations] is negative.  With [iterations >= 1] the series of round
    times has [iterations] elements and the statistics are computed, the
    average being the total divided by [iterations]. *)
Theorem zero_iterations_raises dir dt re (s : State) t s1 :
  connect s = (Ok (true, t), s1) ->
  fst (execute_all_queries dir 0 dt re s) = Raise ZeroDivisionError /\
  saved (st_world (main_run dir 0 dt re s)) = saved (st_world s) /\
  py_min (@nil F) = Raise ValueError /\
  py_max (@nil F) = Raise ValueError /\
  (forall iterations d,
     (iterations < 0)%Z -> fof_int iterations = Ok d ->
     round_statistics (@nil F) iterations = Raise ValueError) /\
  (forall iterations files (s2 : State) rts s3 d,
     (1 <= iterations)%Z ->
     run_rounds re dt files (Z.to_nat iterations) 1 [] s2 = (Ok rts, s3) ->
     fof_int iterations = Ok d ->
     List.length rts = Z.to_nat iterations /\
     exists totals, round_statistics rts iterations = Ok totals /\
                    rt_total totals = py_sum rts /\
                    rt_avg totals = fdiv (py_sum rts) d).
Proof.
  intros H. pose proof (zero_iterations_outcome dir dt re s t s1 H) as E.
  split; [now rewrite E|].
  split.
  { unfold main_run, bind. rewrite E.
    destruct (connect_frame _ _ _ H) as (_ & _ & _ & _ & _ & _ & R7 & _).
    unfold disconnect. unfold_prims. cbn.
    destruct (connection (st_self s1)); cbn; exact R7. }
  split; [reflexivity|]. split; [reflexivity|].
  split.
  { intros iterations d Hi Hd. unfold round_statistics, div_by_int.
    destruct (iterations =? 0)%Z eqn:Z0; [apply Z.eqb_eq in Z0; lia|].
    rewrite Hd. reflexivity. }
  intros iterations files s2 rts s3 d Hi HR Hd.
  pose proof (run_rounds_length _ _ _ _ _ _ _ _ _ HR) as L. simpl in L.
  split; [exact L|]. now apply round_statistics_defined.
Qed.

End WithFloat.

End ExecutorFacts.

(** ** Loading the queries *)

Module LoaderFacts.

Import Py Plan Executor PyFacts.

Local Open Scope list_scope.
Local Open Scope string_scope.

(** *** The order of strings *)

Lemma ascii_compare_refl c : Ascii.compare c c = Eq.
Proof. unfold Ascii.compare. apply N.compare_refl. Qed.

Lemma compare_append_left p a b :
  String.compare (p ++ a) (p ++ b) = String.compare a b.
Proof.
  induction p as [|c p IH]; simpl; [reflexivity|].
  now rewrite ascii_compare_refl.
Qed.

Lemma leb_append_left p a b : String.leb (p ++ a) (p ++ b) = String.leb a b.
Proof. unfold String.leb. now rewrite compare_append_left. Qed.

Lemma compare_trans_le a : forall b c,
  String.compare a b <> Gt -> String.compare b c <> Gt ->
  String.compare a c <> Gt.
Proof.
  induction a as [|x a IH]; intros [|y b] [|z c]; simpl; try congruence.
  unfold Ascii.compare.
  destruct (N.compare_spec (N_of_ascii x) (N_of_ascii y)) as [E1|L1|G1];
  destruct (N.compare_spec (N_of_ascii y) (N_of_ascii z)) as [E2|L2|G2];
  destruct (N.compare_spec (N_of_ascii x) (N_of_ascii z)) as [E3|L3|G3];
  try congruence; try lia; try (intros; apply (IH b c); assumption).
Qed.

Lemma str_le_trans a b c : str_le a b -> str_le b c -> str_le a c.
Proof.
  unfold str_le, String.leb. intros H1 H2.
  pose proof (compare_trans_le a b c) as T.
  destruct (String.compare a b); destruct (String.compare b c);
    destruct (String.compare a c); try reflexivity; try discriminate;
    exfalso; apply T; congruence.
Qed.

Lemma str_le_total a b : str_le a b \/ str_le b a.
Proof. apply String.leb_total. Qed.

(** *** [sorted] sorts *)

Lemma insert_sorted_perm x l : Permutation (insert_sorted x l) (x :: l).
Proof.
  induction l as [|y l IH]; simpl; [reflexivity|].
  destruct (String.leb x y); [reflexivity|].
  rewrite IH. apply perm_swap.
Qed.

Lemma sorted_perm l : Permutation (sorted l) l.
Proof.
  induction l as [|x l IH]; simpl; [reflexivity|].
  rewrite insert_sorted_perm. now constructor.
Qed.

Lemma insert_sorted_sorted x l :
  StronglySorted str_le l -> StronglySorted str_le (insert_sorted x l).
Proof.
  induction 1 as [|y l Hl IH Hy]; simpl.
  - repeat constructor.
  - destruct (String.leb x y) eqn:E.
    + constructor; [constructor; assumption|].
      constructor; [exact E|].
      eapply Forall_impl; [|exact Hy].
      intros z Hz. eapply str_le_trans; eassumption.
    + constructor; [exact IH|].
      assert (Hyx : str_le y x).
      { destruct (str_le_total x y) as [H|H];
          [unfold str_le in H; congruence | exact H]. }
      eapply Permutation_Forall; [symmetry; apply insert_sorted_perm|].
      constructor; assumption.
Qed.

Lemma sorted_sorted l : StronglySorted str_le (sorted l).
Proof.
  induction l as [|x l IH]; simpl;
    [constructor | now apply insert_sorted_sorted].
Qed.

(** *** Paths *)

Lemma append_inj_left p a b : p ++ a = p ++ b -> a = b.
Proof.
  induction p as [|c p IH]; simpl; intros H; [exact H | inversion H; auto].
Qed.

Lemma append_assoc a b c : (a ++ b) ++ c = a ++ (b ++ c).
Proof. induction a as [|x a IH]; simpl; [reflexivity | now rewrite IH]. Qed.

Lemma has_slash_append a b : has_slash (a ++ b) = has_slash a || has_slash b.
Proof.
  induction a as [|c a IH]; simpl; [reflexivity|]. now rewrite IH, orb_assoc.
Qed.

Lemma basename_no_slash name : has_slash name = false -> basename name = name.
Proof.
  destruct name as [|c s]; simpl; [reflexivity|].
  intros H. apply orb_false_iff in H. destruct H as [H1 H2].
  now rewrite H1, H2.
Qed.

Lemma basename_after_slash q name :
  has_slash name = false -> basename (q ++ "/" ++ name) = name.
Proof.
  intros H. induction q as [|c q IH]; simpl.
  - now rewrite H.
  - rewrite has_slash_append. simpl. rewrite orb_true_r. exact IH.
Qed.

Lemma rstrip_slashes_empty d :
  rstrip_slashes d = "" -> d <> "" -> exists q, d = q ++ "/".
Proof.
  induction d as [|c d IH]; simpl; [congruence|].
  destruct (rstrip_slashes d) eqn:R; [|discriminate].
  destruct (is_slash c) eqn:E; [|discriminate]. intros _ _.
  unfold is_slash in E. apply Ascii.eqb_eq in E. subst c.
  destruct d as [|c' d'].
  - exists "". reflexivity.
  - destruct (IH eq_refl) as [q Hq]; [discriminate|].
    exists (String "/" q). simpl. now rewrite Hq.
Qed.

(** The prefix is empty or ends with a slash. *)
Lemma glob_prefix_form d :
  glob_prefix d = "" \/ exists q, glob_prefix d = q ++ "/".
Proof.
  unfold glob_prefix. destruct d as [|c d]; [now left|]. right.
  destruct (rstrip_slashes (String c d)) eqn:R.
  - apply rstrip_slashes_empty; [exact R | discriminate].
  - eexists. reflexivity.
Qed.

Lemma basename_glob d name :
  has_slash name = false -> basename (glob_prefix d ++ name) = name.
Proof.
  intros H. destruct (glob_prefix_form d) as [E|[q E]]; rewrite E.
  - simpl. now apply basename_no_slash.
  - rewrite append_assoc. now apply basename_after_slash.
Qed.

(** *** One file *)

Lemma read_path_entry d entries e :
  NoDup (map fe_name entries) -> In e entries ->
  read_path d entries (glob_prefix d ++ fe_name e) = fe_text e.
Proof.
  unfold read_path. induction entries as [|e0 l IH]; intros ND HI;
    [contradiction|].
  simpl. inversion ND as [|? ? Hnot ND']; subst.
  destruct (String.eqb (glob_prefix d ++ fe_name e0)
              (glob_prefix d ++ fe_name e)) eqn:E.
  - apply String.eqb_eq, append_inj_left in E.
    destruct HI as [->|HI]; [reflexivity|].
    exfalso. apply Hnot. rewrite E. now apply in_map.
  - destruct HI as [->|HI]; [rewrite String.eqb_refl in E; discriminate|].
    now apply IH.
Qed.

Lemma load_path_entry d entries e :
  wf_listing entries -> In e entries ->
  load_path d entries (glob_prefix d ++ fe_name e) =
  if has_text e then [record_of e] else [].
Proof.
  intros [ND NS] HI. unfold load_path, record_of, has_text.
  rewrite (read_path_entry d entries e ND HI), (basename_glob d _ (NS e HI)).
  destruct (fe_text e) as [t|]; reflexivity.
Qed.

Lemma glob_sql_in d entries p :
  In p (glob_sql d entries) ->
  exists e, In e entries /\ p = glob_prefix d ++ fe_name e.
Proof.
  unfold glob_sql. intros H. apply in_map_iff in H.
  destruct H as (e & <- & He).
  apply filter_In in He. exists e. tauto.
Qed.

(** *** The whole directory *)

(** Before sorting, the loop gives the records of the loadable files. *)
Lemma load_glob d entries l :
  wf_listing entries -> (forall e, In e l -> In e entries) ->
  flat_map (load_path d entries) (glob_sql d l) =
  map record_of (List.filter loadable l).
Proof.
  intros WF. induction l as [|e l IH]; intros Hsub; [reflexivity|].
  unfold glob_sql in *. simpl. unfold loadable at 1.
  destruct (matches_sql (fe_name e)) eqn:M; simpl.
  - rewrite (load_path_entry d entries e WF (Hsub e (or_introl eq_refl))).
    rewrite IH by (intros; apply Hsub; now right).
    destruct (has_text e); reflexivity.
  - apply IH. intros; apply Hsub; now right.
Qed.

Lemma load_from_perm d entries :
  wf_listing entries ->
  Permutation (load_from d entries)
    (map record_of (List.filter loadable entries)).
Proof.
  intros WF. unfold load_from.
  rewrite <- (load_glob d entries entries WF (fun e H => H)).
  apply Permutation_flat_map, sorted_perm.
Qed.

Lemma load_sorted_paths d entries paths :
  wf_listing entries ->
  (forall p, In p paths ->
             exists e, In e entries /\ p = glob_prefix d ++ fe_name e) ->
  StronglySorted str_le paths ->
  StronglySorted by_filename (flat_map (load_path d entries) paths).
Proof.
  intros WF Hp HS. induction HS as [|p l Hl IH Hall]; simpl; [constructor|].
  assert (IH' := IH (fun q Hq => Hp q (or_intror Hq))).
  destruct (Hp p (or_introl eq_refl)) as (e & He & ->).
  rewrite (load_path_entry d entries e WF He).
  destruct (has_text e); simpl; [|exact IH'].
  constructor; [exact IH'|].
  apply Forall_forall. intros r Hr. apply in_flat_map in Hr.
  destruct Hr as (q & Hq & Hr).
  destruct (Hp q (or_intror Hq)) as (e' & He' & ->).
  rewrite (load_path_entry d entries e' WF He') in Hr.
  destruct (has_text e'); [|contradiction].
  destruct Hr as [<-|[]]. unfold by_filename, record_of. simpl.
  rewrite Forall_forall in Hall. specialize (Hall _ Hq).
  unfold str_le in *. now rewrite leb_append_left in Hall.
Qed.

Lemma load_from_sorted d entries :
  wf_listing entries -> StronglySorted by_filename (load_from d entries).
Proof.
  intros WF. unfold load_from.
  apply load_sorted_paths; [exact WF | | apply sorted_sorted].
  intros p Hp. apply glob_sql_in.
  eapply Permutation_in; [apply sorted_perm | exact Hp].
Qed.

(** *** Counting the records of a file *)

Lemma records_named_perm name l l' :
  Permutation l l' -> records_named name l = records_named name l'.
Proof.
  unfold records_named.
  induction 1 as [|x l l' _ IH|x y l|l l' l'' _ IH1 _ IH2]; simpl.
  - reflexivity.
  - destruct (String.eqb (filename x) name); simpl; now rewrite IH.
  - destruct (String.eqb (filename x) name);
      destruct (String.eqb (filename y) name); reflexivity.
  - now rewrite IH1.
Qed.

Lemma records_named_absent name l :
  ~ In name (map fe_name l) ->
  records_named name (map record_of (List.filter loadable l)) = 0%nat.
Proof.
  unfold records_named. induction l as [|e l IH]; simpl; [reflexivity|].
  intros N. destruct (loadable e); simpl.
  - destruct (String.eqb (fe_name e) name) eqn:E.
    + apply String.eqb_eq in E. exfalso. apply N. now left.
    + apply IH. intros H. apply N. now right.
  - apply IH. intros H. apply N. now right.
Qed.

Lemma records_named_entry l e :
  NoDup (map fe_name l) -> In e l ->
  records_named (fe_name e) (map record_of (List.filter loadable l)) =
  if loadable e then 1%nat else 0%nat.
Proof.
  induction l as [|e0 l IH]; intros ND HI; [contradiction|].
  simpl in ND. inversion ND as [|? ? Hnot ND']; subst.
  destruct HI as [->|HI].
  - simpl. destruct (loadable e) eqn:L.
    + unfold records_named. simpl. rewrite String.eqb_refl. simpl.
      f_equal. apply (records_named_absent _ _ Hnot).
    + apply (records_named_absent _ _ Hnot).
  - simpl. destruct (loadable e0) eqn:L0.
    + unfold records_named. simpl.
      destruct (String.eqb (fe_name e0) (fe_name e)) eqn:E.
      * apply String.eqb_eq in E. exfalso. apply Hnot. rewrite E.
        now apply in_map.
      * now apply IH.
    + now apply IH.
Qed.

Section WithFloat.

Context {F : Type} {FO : FloatOps F}.

#[local] Abbreviation State := (State F).

Ltac unfold_paths :=
  unfold dispatch in *;
  unfold execute_query_with_explain, execute_query_with_detailed_timing,
    execute_query_simple in *;
  unfold get_explain_analyze_json, error_result in *;
  unfold time_time, now_isoformat, db_cursor, db_execute, db_connect,
    bind, ret, raise, lift, get_self, get_world, modify_world,
    modify_self in *.

(** A connected object names each result after the query it was given and
    is not changed by the call. *)
Lemma dispatch_name re dt query qname (s : State) r s' :
  connection (st_self s) = true ->
  dispatch re dt query qname s = (Ok r, s') ->
  query_name r = Some qname /\ st_self s' = st_self s.
Proof.
  intros Ec H. unfold_paths.
  destruct re; [|destruct dt].
  all: rewrite ?Ec in H; cbn in H; rewrite ?Ec in H; cbn in H.
  all: destruct (cursor_error (st_world s) (statements (st_world s)));
    cbn in H; [inversion H; subst; split; reflexivity|].
  all: destruct (execute_error _); cbn in H;
    [inversion H; subst; split; reflexivity|].
  all: destruct (fetch_result _) as [e|rows]; cbn in H;
    [inversion H; subst; split; reflexivity|].
  - destruct rows as [|[|doc row] rows]; cbn in H.
    + inversion H; subst; split; reflexivity.
    + discriminate.
    + destruct (primary_exec_seconds _ _); cbn in H; [|discriminate].
      inversion H; subst; split; reflexivity.
  - inversion H; subst; split; reflexivity.
  - inversion H; subst; split; reflexivity.
Qed.

(** One round runs the queries in the order of the list. *)
Lemma run_queries_names re dt r files :
  forall (s s' : State),
  connection (st_self s) = true ->
  run_queries re dt r files s = (Ok tt, s') ->
  exists rs,
    self_results (st_self s') = (self_results (st_self s) ++ rs)%list /\
    map query_name rs =
      map (fun q => Some (filename q ++ round_marker r)) files.
Proof.
  induction files as [|q files IH]; intros s s' Ec H.
  - cbn in H. unfold ret in H. inversion H; subst.
    exists []. split; [now rewrite app_nil_r | reflexivity].
  - cbn [run_queries] in H. unfold bind at 1 in H.
    destruct (dispatch re dt (content q) (filename q ++ round_marker r) s)
      as [[res|e] s1] eqn:D; [|discriminate].
    destruct (dispatch_name _ _ _ _ _ _ _ Ec D) as [Hn Hs].
    unfold bind at 1 in H. unfold modify_self at 1 in H.
    apply IH in H; [|cbn; rewrite Hs; exact Ec].
    destruct H as (rs & H1 & H2). exists (res :: rs). split.
    + rewrite H1. cbn. rewrite Hs. now rewrite <- app_assoc.
    + cbn. now rewrite Hn, H2.
Qed.

(** On a path without pattern characters [load_sql_files] gives the
    records of the files of the directory. *)
Lemma load_sql_files_plain directory (s : State) :
  has_magic directory = false ->
  load_sql_files directory s =
    (Ok (load_from directory (listing (st_world s) directory)), s).
Proof.
  intros Hm. unfold load_sql_files, bind, get_world, ret, load_all.
  now rewrite Hm.
Qed.

(** C7 (amended).  For a directory path that holds none of the pattern
    characters [*], [?] and [[] of [glob], and whose listing has distinct
    names without slashes, [load_sql_files] returns, and leaves the state as
    it was, a list that holds exactly the records of the loadable files: a
    file is loadable when its name ends with [.sql] and does not start with
    a dot, it can be read, and its text is not blank; each loadable file has
    one record (its name and its stripped text), every other file has none.
    The list is sorted by file name, and a round of a connected object runs
    its queries in the order of the list. *)
Theorem load_sql_files_spec directory (s : State) :
  has_magic directory = false ->
  wf_listing (listing (st_world s) directory) ->
  exists recs,
    load_sql_files directory s = (Ok recs, s) /\
    Permutation recs
      (map record_of
         (List.filter loadable (listing (st_world s) directory))) /\
    (forall e, In e (listing (st_world s) directory) ->
               records_named (fe_name e) recs =
               if loadable e then 1%nat else 0%nat) /\
    StronglySorted by_filename recs /\
    (forall re dt r (s1 s2 : State),
       connection (st_self s1) = true ->
       run_queries re dt r recs s1 = (Ok tt, s2) ->
       exists rs,
         self_results (st_self s2) = (self_results (st_self s1) ++ rs)%list /\
         map query_name rs =
           map (fun q => Some (filename q ++ round_marker r)) recs).
Proof.
  intros Hm WF.
  exists (load_from directory (listing (st_world s) directory)).
  split; [apply load_sql_files_plain; exact Hm|].
  split; [now apply load_from_perm|].
  split.
  { intros e He.
    rewrite (records_named_perm _ _ _ (load_from_perm directory _ WF)).
    apply records_named_entry; [exact (proj1 WF) | exact He]. }
  split; [now apply load_from_sorted|].
  intros re dt r s1 s2. apply run_queries_names.
Qed.

End WithFloat.

End LoaderFacts.

(** ** Worked cases *)

Module Checks.

Import Py Plan Executor Scenario Examples.

Local Open Scope Q_scope.

(** C1 as stated fails: in [worker_plan_doc] the worker's plan has 5 shared
    hits and the root 1; the decoded tree holds both nodes, and the summary
    reports 1. *)
Lemma worker_plans_not_aggregated :
  ~ (forall (plan_json : json Q) (s : PlanSummary Q) (k : string),
       summarize_plan plan_json = Summary s ->
       aggregated s k = sum_counter k (all_nodes (complete_plan_tree s))).
Proof.
  intros H.
  destruct (summarize_plan worker_plan_doc) as [s|e] eqn:E;
    [|vm_compute in E; discriminate].
  specialize (H worker_plan_doc s "Shared Hit Blocks" E).
  vm_compute in E. inversion E; subst s. vm_compute in H. discriminate.
Qed.

(** C1 (amended) on [join_doc]: 3 + 4 shared hits. *)
Lemma aggregated_sums_children_witness :
  exists s,
    summarize_plan join_doc = Summary s /\
    aggregated s "Shared Hit Blocks" = 7%Z /\
    aggregated s "Shared Hit Blocks" =
      sum_counter "Shared Hit Blocks" (child_nodes (complete_plan_tree s)).
Proof.
  eexists. split; [vm_compute; reflexivity|].
  split; [vm_compute; reflexivity|].
  apply (PlanFacts.aggregated_sums_children join_doc).
  vm_compute. reflexivity.
Defined.

(** C2: one query of two fails; the total is that of the successful one,
    and the average divides it by two, the number of all results, not by
    one, the number of successful results. *)
Lemma average_counts_failed_queries :
  exists rep,
    saved (st_world mixed_run) = Some rep /\
    total_queries (sr_summary rep) = 2%nat /\
    successful_queries (sr_summary rep) = 1%nat /\
    failed_queries (sr_summary rep) = 1%nat /\
    total_execution_time (sr_summary rep) = 1 /\
    average_query_time (sr_summary rep) = 1 # 2 /\
    ~ average_query_time (sr_summary rep) ==
        total_execution_time (sr_summary rep)
        / inject_Z (Z.of_nat (successful_queries (sr_summary rep))).
Proof.
  eexists. split; [vm_compute; reflexivity|]. cbn.
  repeat split. intros H. vm_compute in H. discriminate H.
Qed.

(** C3 as stated fails: the document has an execution time of 5 ms, its
    plan cannot be summarised, and the result reports the second the client
    measured. *)
Lemma unreadable_plan_falls_back :
  ~ (forall query qname (s : State Q) r s' doc,
       execute_query_with_explain query qname s = (Ok r, s') ->
       status r = Some "success" ->
       explain_document query s = Some doc ->
       seconds_from (server_execution_ms doc) (client_elapsed s s')
         (execution_time r)).
Proof.
  intros H.
  destruct (execute_query_with_explain "SELECT 1" "q.sql_round1"
              unreadable_state) as [[r|e] s'] eqn:E;
    [|vm_compute in E; discriminate].
  specialize (H "SELECT 1" "q.sql_round1" unreadable_state r s'
                unreadable_plan_doc E).
  vm_compute in E. inversion E; subst r s'.
  specialize (H eq_refl eq_refl).
  destruct H as [x [Hx Hr]]. vm_compute in Hx, Hr.
  inversion Hx; subst x. discriminate Hr.
Qed.

(** C3 (amended) on [join_doc]: 2500 ms give 2.5 s. *)
Lemma explain_execution_time_witness :
  exists r s',
    execute_query_with_explain "SELECT 1" "q.sql_round1" join_state
      = (Ok r, s') /\
    status r = Some "success" /\
    execution_time r = Some (2500 # 1000) /\
    exists doc,
      explain_document "SELECT 1" join_state = Some doc /\
      plan_summary r = Some (summarize_plan doc) /\
      match summarize_plan doc with
      | Summary ps =>
          execution_time_ms ps = server_execution_ms doc /\
          seconds_from (execution_time_ms ps) (client_elapsed join_state s')
            (execution_time r)
      | SummaryError _ =>
          execution_time r = Some (client_elapsed join_state s')
      end.
Proof.
  eexists. eexists. split; [vm_compute; reflexivity|].
  split; [reflexivity|]. split; [reflexivity|].
  eapply (ExecutorFacts.explain_execution_time "SELECT 1" "q.sql_round1"
           join_state); [vm_compute; reflexivity | reflexivity].
Defined.

(** C4 on a statement the server refuses, in plan mode. *)
Lemma result_invariant_witness :
  exists r s',
    dispatch true false "SELECT 1" "q.sql_round1" failing_state
      = (Ok r, s') /\
    status r = Some "error" /\
    (status r = Some "error" ->
       execution_time r = Some (client_elapsed failing_state s') /\
       plan_summary r = None) /\
    (true = true -> status r = Some "success" ->
       (exists ps, plan_summary r = Some ps) /\
       results r = None /\ column_names r = None /\
       statements (st_world s') = S (statements (st_world failing_state))).
Proof.
  eexists. eexists. split; [vm_compute; reflexivity|].
  split; [reflexivity|].
  eapply (ExecutorFacts.result_invariant true false "SELECT 1" "q.sql_round1"
           failing_state).
  vm_compute. reflexivity.
Defined.

(** C5 on a statement that succeeds: four phases of one second each give
    4 s, where the readings on entry and at the end are 8 s apart. *)
Lemma detailed_time_is_phase_sum_witness :
  exists r s',
    execute_query_with_detailed_timing "SELECT 1" "q.sql_round1" join_state
      = (Ok r, s') /\
    status r = Some "success" /\
    execution_time r = Some 4 /\
    client_elapsed join_state s' = 8 /\
    exists dt,
      detailed_timing r = Some dt /\
      execution_time r =
        Some (fadd (fadd (fadd (cursor_creation_time dt)
                            (query_execution_time dt))
                      (result_fetch_time dt))
                (column_info_time dt)) /\
      let w := st_world join_state in
      let n := ticks w in
      dt = mkDetailedTiming
             (fsub (clock w (n + 2)%nat) (clock w (n + 1)%nat))
             (fsub (clock w (n + 4)%nat) (clock w (n + 3)%nat))
             (fsub (clock w (n + 6)%nat) (clock w (n + 5)%nat))
             (fsub (clock w (n + 8)%nat) (clock w (n + 7)%nat)).
Proof.
  eexists. eexists. split; [vm_compute; reflexivity|].
  split; [reflexivity|]. split; [reflexivity|].
  split; [vm_compute; reflexivity|].
  eapply (ExecutorFacts.detailed_time_is_phase_sum "SELECT 1" "q.sql_round1"
           join_state); [vm_compute; reflexivity | reflexivity].
Defined.

(** C6: after round 2 over the single file [q_round2.sql] the accumulated
    results are those of round 1 and of round 2; one of them ends with
    [_round2], and the line of round 2 reports two successes. *)
Lemma round_count_takes_other_round :
  map query_name (self_results (st_self marker_run)) =
    [ Some "q_round2.sql_round1"; Some "q_round2.sql_round2" ]%string /\
  List.length
    (List.filter (ends_in_round "success" 2)
       (self_results (st_self marker_run))) = 1%nat /\
  map (fun l => (rl_round l, rl_success l, rl_error l))
    (round_lines (st_world marker_run)) =
    [ (1%Z, 1%nat, 0%nat); (2%Z, 2%nat, 0%nat) ].
Proof. vm_compute. repeat split. Qed.

(** C7 as stated fails, on a plain directory path already: a query file
    that holds only blanks gives no record. *)
Lemma blank_file_gives_no_record :
  ~ (forall directory (s : State Q),
       has_magic directory = false ->
       wf_listing (listing (st_world s) directory) ->
       exists recs,
         load_sql_files directory s = (Ok recs, s) /\
         (forall e, In e (listing (st_world s) directory) ->
                    endswith ".sql" (fe_name e) = true ->
                    records_named (fe_name e) recs = 1%nat) /\
         StronglySorted by_filename recs).
Proof.
  intros H.
  destruct (H "queries"%string blank_state eq_refl) as (recs & E & C & _).
  { split; [repeat constructor; simpl; tauto|].
    intros e [<-|[]]. reflexivity. }
  vm_compute in E. inversion E; subst recs.
  specialize (C (mkFileEntry "blank.sql" (Some "  "%string))
                (or_introl eq_refl) eq_refl).
  vm_compute in C. discriminate.
Qed.

(** On a path that [glob] reads as a pattern the records follow the
    paths, not the file names: [b.sql] of [q1] comes before [a.sql] of
    [q2]. *)
Lemma pattern_directory_follows_the_paths :
  has_magic "q*" = true /\
  load_sql_files "q*" pattern_state =
    (Ok [ mkQueryRecord "b.sql" "SELECT 2";
          mkQueryRecord "a.sql" "SELECT 1" ]%string, pattern_state).
Proof. split; vm_compute; reflexivity. Qed.

Lemma some_files_wf : wf_listing some_files.
Proof.
  split.
  - repeat (constructor;
            [simpl; intros H; repeat destruct H as [H|H];
             try discriminate; exact H|]).
    constructor.
  - intros e H. simpl in H.
    repeat destruct H as [<-|H]; try reflexivity. contradiction.
Qed.

(** C7 (amended) on [some_files] in the directory [queries], a path
    without pattern characters: two records, [a.sql] before [b.sql]. *)
Lemma load_sql_files_spec_witness :
  has_magic "queries" = false /\
  exists recs,
    load_sql_files "queries" files_state = (Ok recs, files_state) /\
    recs = [ mkQueryRecord "a.sql" "SELECT 1";
             mkQueryRecord "b.sql" "SELECT 2" ]%string /\
    Permutation recs (map record_of (List.filter loadable some_files)) /\
    StronglySorted by_filename recs.
Proof.
  split; [reflexivity|].
  destruct (LoaderFacts.load_sql_files_spec "queries"%string files_state
              eq_refl some_files_wf) as (recs & E & P & _ & S & _).
  exists recs. split; [exact E|].
  split; [|split; [exact P | exact S]].
  vm_compute in E. inversion E. reflexivity.
Defined.

(** C8 on a server that cannot be reached: the report is written and has
    no round statistics. *)
Lemma failed_connection_aborts_run_witness :
  exists rep,
    saved (st_world (main_run "queries" 3 false true unreachable_state))
      = Some rep /\
    round_summary (sr_summary rep) = None /\
    sr_round_times rep = [] /\
    sr_query_results rep = [].
Proof.
  edestruct (ExecutorFacts.failed_connection_aborts_run "test"%string false
               None None unreachable_world "queries"%string 3%Z false true)
    as (_ & _ & _ & _ & _ & W & _).
  - vm_compute. reflexivity.
  - exact (W eq_refl).
Defined.

(** C9 as stated fails on a blank string: it is mapped to the empty
    string, and the empty string to NONE. *)
Lemma map_scenario_not_idempotent :
  ~ (forall x, map_scenario (map_scenario x) = map_scenario x).
Proof. intros H. specialize (H " "%string). vm_compute in H. discriminate. Qed.

(** C9 (amended) on a label with spaces around it. *)
Lemma map_scenario_spec_witness :
  is_ascii " ce_cm " = true /\
  nonempty (strip " ce_cm ") = true /\
  map_scenario " ce_cm " = "CE+CM"%string /\
  map_scenario (map_scenario " ce_cm ") = map_scenario " ce_cm ".
Proof.
  split; [reflexivity|]. split; [reflexivity|]. split; [reflexivity|].
  apply (proj2 (proj2 (proj2 ScenarioFacts.map_scenario_spec))); reflexivity.
Defined.

(** C10 on a server that answers, with no round asked for. *)
Lemma zero_iterations_raises_witness :
  fst (execute_all_queries "queries" 0 false false
         (mkState fresh marker_world)) = Raise ZeroDivisionError /\
  saved (st_world (main_run "queries" 0 false false
                     (mkState fresh marker_world))) = None.
Proof.
  edestruct (ExecutorFacts.zero_iterations_raises "queries"%string false false
               (mkState fresh marker_world)) as (A & B & _).
  - vm_compute. reflexivity.
  - split; [exact A | exact B].
Defined.

End Checks.

(** ** 32-bit words *)

Module WordFacts.

Import Fingerprint.

Lemma mask32_mod (x : Z) : mask32 x = x mod 2 ^ 32.
Proof.
  unfold mask32. change 0xFFFFFFFF with (Z.ones 32).
  apply Z.land_ones. lia.
Qed.

Lemma mask32_range (x : Z) : 0 <= mask32 x < 2 ^ 32.
Proof. rewrite mask32_mod. apply Z.mod_pos_bound. lia. Qed.

Lemma word_range (x : Z) : word x <-> 0 <= x < 2 ^ 32.
Proof.
  unfold word. rewrite mask32_mod. split.
  - intros H. rewrite <- H. apply Z.mod_pos_bound. lia.
  - intros H. apply Z.mod_small. exact H.
Qed.

Lemma word_mask32 (x : Z) : word (mask32 x).
Proof. apply word_range, mask32_range. Qed.

Lemma word_rot (x k : Z) : word (rot x k).
Proof. apply word_mask32. Qed.

Lemma word_lxor (x y : Z) : word x -> word y -> word (Z.lxor x y).
Proof.
  unfold word, mask32. intros Hx Hy.
  apply Z.bits_inj'. intros n _.
  rewrite <- Hx at 2. rewrite <- Hy at 2.
  rewrite !Z.land_spec, !Z.lxor_spec, !Z.land_spec.
  destruct (Z.testbit x n), (Z.testbit y n), (Z.testbit 0xFFFFFFFF n);
    reflexivity.
Qed.

Lemma lxor_cancel (x y : Z) : Z.lxor (Z.lxor x y) y = x.
Proof. rewrite Z.lxor_assoc, Z.lxor_nilpotent, Z.lxor_0_r. reflexivity. Qed.

Lemma sub_add_word (x y : Z) : word x -> mask32 (mask32 (x - y) + y) = x.
Proof.
  intros H. apply word_range in H. rewrite !mask32_mod.
  rewrite Zplus_mod_idemp_l. replace (x - y + y) with x by lia.
  apply Z.mod_small. exact H.
Qed.

Lemma add_sub_word (x y : Z) : word x -> mask32 (mask32 (x + y) - y) = x.
Proof.
  intros H. apply word_range in H. rewrite !mask32_mod.
  rewrite Zminus_mod_idemp_l. replace (x + y - y) with x by lia.
  apply Z.mod_small. exact H.
Qed.

Create HintDb words.
#[local] Hint Resolve word_mask32 word_rot word_lxor : words.

Lemma unmix_mix (a b c : Z) :
  word a -> word b -> word c ->
  let '(a', b', c') := mix a b c in unmix a' b' c' = (a, b, c).
Proof.
  intros Ha Hb Hc. unfold mix, unmix.
  repeat (rewrite ?add_sub_word, ?sub_add_word, ?lxor_cancel
            by auto 10 with words).
  reflexivity.
Qed.

Lemma unfinal_final (a b c : Z) :
  word a -> word b -> word c ->
  let '(a', b', c') := final a b c in unfinal a' b' c' = (a, b, c).
Proof.
  intros Ha Hb Hc. unfold final, unfinal.
  repeat (rewrite ?sub_add_word, ?lxor_cancel by auto 10 with words).
  reflexivity.
Qed.

(** X2.  [mix] and [final] lose nothing: on 32-bit words each of them is
    one-to-one, two different triples never give the same triple.  Every
    step adds, subtracts or xors a value that the step leaves in place, so
    it can be taken back ([unmix], [unfinal]). *)
Theorem mix_and_final_lose_nothing (a b c a' b' c' : Z) :
  word a -> word b -> word c -> word a' -> word b' -> word c' ->
  (mix a b c = mix a' b' c' -> (a, b, c) = (a', b', c')) /\
  (final a b c = final a' b' c' -> (a, b, c) = (a', b', c')).
Proof.
  intros Ha Hb Hc Ha' Hb' Hc'. split; intros H.
  - pose proof (unmix_mix a b c Ha Hb Hc) as H1.
    pose proof (unmix_mix a' b' c' Ha' Hb' Hc') as H2.
    rewrite H in H1. destruct (mix a' b' c') as [[x y] z]. congruence.
  - pose proof (unfinal_final a b c Ha Hb Hc) as H1.
    pose proof (unfinal_final a' b' c' Ha' Hb' Hc') as H2.
    rewrite H in H1. destruct (final a' b' c') as [[x y] z]. congruence.
Qed.

End WordFacts.

(** ** The hash *)

Module HashFacts.

Import Fingerprint WordFacts.

#[local] Hint Resolve word_mask32 word_rot word_lxor : words.

(** ** The hash and its signed form *)

Lemma hash_bytes_word (data : list Z) : word (hash_bytes data).
Proof.
  unfold hash_bytes.
  destruct (blocks data _ _ _) as [[[a b] c] tail].
  destruct (add_tail tail a b c) as [[a1 b1] c1].
  destruct (final a1 b1 c1) as [[a2 b2] c2].
  apply word_mask32.
Qed.

Lemma land_top_bit (h : Z) :
  Z.land h 0x80000000 = if Z.testbit h 31 then 0x80000000 else 0.
Proof.
  apply Z.bits_inj'. intros n Hn. rewrite Z.land_spec.
  assert (Hp : n <> 31 -> Z.testbit 0x80000000 n = false).
  { intros Hne. change 0x80000000 with (2 ^ 31).
    apply Z.pow2_bits_false. lia. }
  destruct (Z.eq_dec n 31) as [->|Hne].
  - destruct (Z.testbit h 31); reflexivity.
  - rewrite (Hp Hne), andb_false_r.
    destruct (Z.testbit h 31); [rewrite (Hp Hne) | rewrite Z.bits_0];
      reflexivity.
Qed.

Lemma top_bit_word (h : Z) :
  0 <= h < 2 ^ 32 -> Z.testbit h 31 = (2 ^ 31 <=? h)%Z.
Proof.
  intros Hh.
  pose proof (Z.testbit_spec' h 31 ltac:(lia)) as H.
  assert (Hd : h / 2 ^ 31 = if (2 ^ 31 <=? h)%Z then 1 else 0).
  { destruct (Z.leb_spec (2 ^ 31) h).
    - symmetry. apply (Z.div_unique h (2 ^ 31) 1 (h - 2 ^ 31)); lia.
    - apply Z.div_small. lia. }
  rewrite Hd in H.
  destruct (Z.testbit h 31), (2 ^ 31 <=? h)%Z; simpl in H;
    (reflexivity || discriminate H).
Qed.

Lemma signed_hash_word (h : Z) :
  word h ->
  - 2 ^ 31 <= signed_hash h < 2 ^ 31 /\ mask32 (signed_hash h) = h.
Proof.
  intros Hw. pose proof Hw as Hr. apply word_range in Hr.
  unfold signed_hash. rewrite land_top_bit, (top_bit_word h Hr).
  destruct (Z.leb_spec (2 ^ 31) h) as [Hge|Hlt]; cbn [Z.eqb].
  - split; [lia|]. rewrite mask32_mod.
    symmetry. apply (Z.mod_unique_pos _ _ (-1)); lia.
  - split; [lia | exact Hw].
Qed.

(** X3.  For every text, [hash_bytes] of its normal form is a 32-bit
    word, the value [main] writes for it lies in the range of a signed
    32-bit integer, and the hash is that value modulo 2^32: the signed
    column of the cache file determines the hash. *)
Theorem fingerprint_is_a_signed_word (sql : string) :
  0 <= hash_bytes (normalize_sql sql) < 2 ^ 32 /\
  - 2 ^ 31 <= fingerprint sql < 2 ^ 31 /\
  mask32 (fingerprint sql) = hash_bytes (normalize_sql sql).
Proof.
  pose proof (hash_bytes_word (normalize_sql sql)) as Hw.
  split; [apply word_range, Hw|].
  apply signed_hash_word, Hw.
Qed.

(** ** Rotation *)

Lemma word_bit (x i : Z) : word x -> 32 <= i -> Z.testbit x i = false.
Proof.
  intros Hx Hi. rewrite <- Hx. unfold mask32.
  rewrite Z.land_spec. change 0xFFFFFFFF with (Z.ones 32).
  rewrite Z.ones_spec_high by lia. apply andb_false_r.
Qed.

Lemma rot_bit (x k i : Z) :
  word x -> 0 <= k <= 32 -> 0 <= i < 32 ->
  Z.testbit (rot x k) i
    = Z.testbit x (if (k <=? i)%Z then i - k else i + 32 - k).
Proof.
  intros Hx Hk Hi. unfold rot, mask32.
  rewrite Z.land_spec. change 0xFFFFFFFF with (Z.ones 32).
  rewrite Z.ones_spec_low by lia. rewrite andb_true_r.
  rewrite Z.lor_spec, Z.shiftl_spec, Z.shiftr_spec by lia.
  replace (i + (32 - k)) with (i + 32 - k) by lia.
  destruct (Z.leb_spec k i).
  - rewrite (word_bit x (i + 32 - k)) by (assumption || lia).
    apply orb_false_r.
  - rewrite (Z.testbit_neg_r x (i - k)) by lia. reflexivity.
Qed.

(** X1.  [rot] is a rotation of 32-bit words: rotating by [k] and then by
    [32 - k] gives the word back, for every [k] from 0 to 32. *)
Theorem rot_back (x k : Z) :
  word x -> 0 <= k <= 32 -> rot (rot x k) (32 - k) = x.
Proof.
  intros Hx Hk. apply Z.bits_inj'. intros i Hi.
  destruct (Z.ltb_spec i 32) as [Hlt|Hge].
  - rewrite rot_bit by (auto with words; lia).
    destruct (Z.leb_spec (32 - k) i).
    + rewrite rot_bit by (auto; lia).
      destruct (Z.leb_spec k (i - (32 - k))); f_equal; lia.
    + rewrite rot_bit by (auto; lia).
      destruct (Z.leb_spec k (i + 32 - (32 - k))); f_equal; lia.
  - rewrite !word_bit by (auto with words; lia). reflexivity.
Qed.

End HashFacts.

(** ** The text of a statement *)

Module TextFacts.

Import Py Fingerprint.

Local Open Scope list_scope.
Local Open Scope string_scope.

(** ** Suffixes *)

Lemma suffix_refl s : suffix_of s s.
Proof. exists "". reflexivity. Qed.

Lemma suffix_trans s t u : suffix_of s t -> suffix_of t u -> suffix_of s u.
Proof.
  intros [p ->] [q ->]. exists (p ++ q).
  symmetry. apply LoaderFacts.append_assoc.
Qed.

Lemma suffix_cons c s t : suffix_of s t -> suffix_of (String c s) t.
Proof. intros [p ->]. exists (String c p). reflexivity. Qed.

Lemma suffix_length s t :
  suffix_of s t -> (String.length t <= String.length s)%nat.
Proof.
  intros [p ->]. induction p as [|c p IH]; simpl; lia.
Qed.

Lemma lstrip_suffix s : suffix_of s (lstrip s).
Proof.
  induction s as [|c s IH]; simpl; [apply suffix_refl|].
  destruct (isspace c); [apply suffix_cons, IH | apply suffix_refl].
Qed.

Lemma drop_suffix n s : suffix_of s (drop n s).
Proof.
  revert s. induction n as [|n IH]; intros [|c s]; simpl;
    try apply suffix_refl.
  apply suffix_cons, IH.
Qed.

Lemma skip_group_suffix d s : suffix_of s (skip_group d s).
Proof.
  revert d. induction s as [|c s IH]; intros d; simpl; [apply suffix_refl|].
  destruct d as [|d]; [apply suffix_refl|].
  destruct (Ascii.eqb c "("); [apply suffix_cons, IH|].
  destruct (Ascii.eqb c ")"); apply suffix_cons, IH.
Qed.

Lemma skip_word_suffix s : suffix_of s (skip_word s).
Proof.
  induction s as [|c s IH]; simpl; [apply suffix_refl|].
  destruct (isspace c); [apply suffix_refl | apply suffix_cons, IH].
Qed.

Lemma after_option_suffix opt s r :
  after_option opt s = Some r -> suffix_of s r.
Proof.
  unfold after_option. destruct (at_word opt s); [|discriminate].
  intros H.
  assert (Hr : suffix_of (drop (String.length opt) s) r).
  { destruct (drop (String.length opt) s) as [|c rest] eqn:E.
    - inversion H. apply suffix_refl.
    - destruct (isspace c); inversion H.
      eapply suffix_trans; [apply skip_word_suffix | apply lstrip_suffix]. }
  eapply suffix_trans; [apply drop_suffix | exact Hr].
Qed.

Lemma first_option_some options s r :
  first_option options s = Some r ->
  exists opt, In opt options /\ after_option opt s = Some r.
Proof.
  induction options as [|o options IH]; simpl; [discriminate|].
  destruct (after_option o s) as [r'|] eqn:E.
  - intros H. inversion H. subst. exists o. auto.
  - intros H. destruct (IH H) as (opt & Hin & Ho). exists opt. auto.
Qed.

Lemma first_option_none options s :
  first_option options s = None ->
  forall opt, In opt options -> after_option opt s = None.
Proof.
  induction options as [|o options IH]; simpl; [intros _ opt []|].
  destruct (after_option o s) as [r'|] eqn:E; [discriminate|].
  intros H opt [<-|Hin]; [exact E | apply IH; assumption].
Qed.

Lemma skip_options_suffix options fuel s :
  suffix_of s (skip_options options fuel s).
Proof.
  revert s. induction fuel as [|fuel IH]; intros s; simpl;
    [apply suffix_refl|].
  destruct s as [|c s]; [apply suffix_refl|].
  destruct (first_option options (String c s)) as [r|] eqn:E;
    [|apply suffix_refl].
  apply first_option_some in E. destruct E as (opt & _ & Ho).
  eapply suffix_trans; [eapply after_option_suffix, Ho | apply IH].
Qed.

(** A matched option moves the scan forward. *)
Lemma after_option_shorter opt s r :
  s <> "" -> after_option opt s = Some r ->
  (String.length r < String.length s)%nat.
Proof.
  intros Hs H. destruct s as [|c s]; [congruence|]. clear Hs.
  unfold after_option in H.
  destruct (at_word opt (String c s)); [|discriminate].
  destruct opt as [|a opt].
  - simpl in H. destruct (isspace c) eqn:Ec; [|discriminate].
    inversion H. simpl. rewrite Ec.
    pose proof (PyFacts.lstrip_length s). simpl. lia.
  - simpl in H.
    assert (Hr : suffix_of (drop (String.length opt) s) r).
    { destruct (drop (String.length opt) s) as [|c' rest] eqn:E.
      - inversion H. apply suffix_refl.
      - destruct (isspace c'); inversion H.
        eapply suffix_trans; [apply skip_word_suffix | apply lstrip_suffix]. }
    pose proof (suffix_length _ _
                  (suffix_trans _ _ _ (drop_suffix _ _) Hr)).
    simpl. lia.
Qed.

(** The fuel of [skip_options] is enough: more of it changes nothing. *)
Lemma skip_options_enough options fuel s :
  (String.length s <= fuel)%nat ->
  skip_options options fuel s = skip_options options (String.length s) s.
Proof.
  remember (String.length s) as n eqn:En.
  revert s En fuel.
  induction n as [n IH] using lt_wf_ind. intros s En fuel Hf.
  destruct s as [|c s].
  - subst n. destruct fuel; reflexivity.
  - simpl in En. destruct fuel as [|fuel]; [lia|].
    destruct n as [|n]; [discriminate|].
    simpl.
    destruct (first_option options (String c s)) as [r|] eqn:E;
      [|reflexivity].
    apply first_option_some in E. destruct E as (opt & _ & Ho).
    apply after_option_shorter in Ho; [|discriminate]. simpl in Ho.
    rewrite (IH (String.length r)) with (fuel := fuel); try lia; auto.
    rewrite (IH (String.length r)) with (fuel := n) (s := r); try lia; auto.
Qed.

(** ** Words at a position *)

Lemma at_word_cons a w c s :
  at_word (String a w) (String c s) = Ascii.eqb (lower_cp c) a && at_word w s.
Proof. reflexivity. Qed.

(** Two words that are both read at one place: one starts the other. *)
Lemma at_word_prefix w1 : forall w2 s,
  at_word w1 s = true -> at_word w2 s = true ->
  String.prefix w1 w2 = true \/ String.prefix w2 w1 = true.
Proof.
  induction w1 as [|a w1 IH]; intros w2 s H1 H2.
  - left. destruct w2; reflexivity.
  - destruct w2 as [|b w2]; [right; reflexivity|].
    destruct s as [|c s]; [discriminate H1|].
    rewrite at_word_cons in H1, H2.
    apply andb_true_iff in H1, H2. destruct H1 as [Ha H1], H2 as [Hb H2].
    apply Ascii.eqb_eq in Ha, Hb. subst a b.
    simpl. destruct (ascii_dec (lower_cp c) (lower_cp c)); [|congruence].
    eapply IH; eassumption.
Qed.

Lemma after_option_at_word opt s r :
  after_option opt s = Some r -> at_word opt s = true.
Proof.
  unfold after_option. destruct (at_word opt s); [reflexivity|discriminate].
Qed.

(** No option name starts another one. *)
Lemma option_words_apart o1 o2 :
  In o1 option_words -> In o2 option_words ->
  String.prefix o1 o2 = true -> o1 = o2.
Proof.
  unfold option_words. simpl.
  intros H1 H2.
  repeat (destruct H1 as [<-|H1]); try contradiction;
    repeat (destruct H2 as [<-|H2]); try contradiction;
    intros H; (reflexivity || discriminate H).
Qed.

Lemma first_option_perm options s :
  Permutation options option_words ->
  first_option options s = first_option option_words s.
Proof.
  intros HP.
  destruct (first_option options s) as [r|] eqn:E;
    destruct (first_option option_words s) as [r'|] eqn:E'.
  - apply first_option_some in E, E'.
    destruct E as (o & Ho & Hr), E' as (o' & Ho' & Hr').
    apply (Permutation_in _ HP) in Ho.
    assert (o = o').
    { destruct (at_word_prefix o o' s) as [H|H];
        eauto using after_option_at_word.
      - apply option_words_apart; assumption.
      - symmetry. apply option_words_apart; assumption. }
    subst o'. congruence.
  - apply first_option_some in E. destruct E as (o & Ho & Hr).
    apply (Permutation_in _ HP) in Ho.
    pose proof (first_option_none _ _ E' o Ho). congruence.
  - apply first_option_some in E'. destruct E' as (o & Ho & Hr).
    apply (Permutation_in _ (Permutation_sym HP)) in Ho.
    pose proof (first_option_none _ _ E o Ho). congruence.
  - reflexivity.
Qed.

Lemma skip_options_perm options fuel s :
  Permutation options option_words ->
  skip_options options fuel s = skip_options option_words fuel s.
Proof.
  intros HP. revert s.
  induction fuel as [|fuel IH]; intros s; cbn [skip_options];
    [reflexivity|].
  destruct s as [|c s]; [reflexivity|].
  rewrite (first_option_perm _ _ HP).
  destruct (first_option option_words (String c s)); [apply IH|reflexivity].
Qed.

(** ** The keyword scan *)

Lemma find_keyword_spec sql s :
  find_keyword sql s = sql \/
  (suffix_of s (find_keyword sql s) /\ at_keyword (find_keyword sql s) = true).
Proof.
  induction s as [|c s IH]; cbn [find_keyword]; [left; reflexivity|].
  destruct (at_keyword (String c s)) eqn:E.
  - right. split; [apply suffix_refl | exact E].
  - destruct IH as [IH|[IH1 IH2]]; [left; exact IH|].
    right. split; [apply suffix_cons, IH1 | exact IH2].
Qed.

(** The place the keyword scan starts from. *)
Lemma scan_start_suffix options sql :
  let s := lstrip (drop 7 (lstrip sql)) in
  suffix_of sql
    match s with
    | String c rest =>
        if Ascii.eqb c "("%char then lstrip (skip_group 1 rest)
        else skip_options options (String.length s) s
    | EmptyString => skip_options options (String.length s) s
    end.
Proof.
  intros s.
  assert (Hs : suffix_of sql s).
  { eapply suffix_trans; [apply lstrip_suffix|].
    eapply suffix_trans; [apply drop_suffix | apply lstrip_suffix]. }
  destruct s as [|c rest] eqn:E.
  - eapply suffix_trans; [exact Hs | apply skip_options_suffix].
  - destruct (Ascii.eqb c "(").
    + eapply suffix_trans; [exact Hs|]. apply suffix_cons.
      eapply suffix_trans; [apply skip_group_suffix | apply lstrip_suffix].
    + eapply suffix_trans; [exact Hs | apply skip_options_suffix].
Qed.

(** X4.  Whatever the text and the order in which the option names are
    met, [strip_explain_prefix] returns the end of the text it was given,
    never anything else; it is either the whole text or a part that starts
    with one of the keywords select, with, insert, update and delete (in
    any letter case). *)
Theorem strip_explain_prefix_keeps_a_suffix options sql :
  let r := strip_explain_prefix_in options sql in
  suffix_of sql r /\ (r = sql \/ at_keyword r = true).
Proof.
  unfold strip_explain_prefix_in.
  destruct (negb (at_word "explain" (lstrip sql))).
  - split; [apply suffix_refl | left; reflexivity].
  - pose proof (scan_start_suffix options sql) as Hs. cbv zeta in Hs.
    match goal with
    | |- context [find_keyword sql ?s] =>
        destruct (find_keyword_spec sql s) as [H|[H1 H2]]
    end.
    + cbv zeta. rewrite H. split; [apply suffix_refl | left; reflexivity].
    + cbv zeta. split; [|right; exact H2].
      eapply suffix_trans; [exact Hs | exact H1].
Qed.

(** X5.  The option names are a [set], whose iteration order is not
    fixed; the result of [strip_explain_prefix] is the same for every order,
    because no option name starts another one, so at most one of them is
    read at a place. *)
Theorem strip_explain_prefix_any_order options sql :
  Permutation options option_words ->
  strip_explain_prefix_in options sql = strip_explain_prefix sql.
Proof.
  intros HP. unfold strip_explain_prefix, strip_explain_prefix_in.
  destruct (negb (at_word "explain" (lstrip sql))); [reflexivity|].
  cbv zeta.
  destruct (lstrip (drop 7 (lstrip sql))) as [|c rest];
    cbn [String.length skip_options].
  - reflexivity.
  - rewrite (first_option_perm _ _ HP).
    destruct (Ascii.eqb c "("); [reflexivity|].
    destruct (first_option option_words (String c rest));
      [|reflexivity].
    rewrite (skip_options_perm _ _ _ HP). reflexivity.
Qed.

(** ** The statement the executor sends *)

Lemma skip_group_no_paren d o rest :
  no_paren o = true ->
  skip_group (S d) (o ++ String ")" rest) = skip_group d rest.
Proof.
  induction o as [|c o IH]; intros H.
  - destruct rest; reflexivity.
  - unfold no_paren in H. cbn [all_chars] in H.
    apply andb_true_iff in H. destruct H as [Hc Ho].
    apply negb_true_iff, orb_false_iff in Hc. destruct Hc as [H1 H2].
    cbn [append skip_group]. rewrite H1, H2. apply IH, Ho.
Qed.

Lemma at_keyword_nonempty s : at_keyword s = true -> s <> "".
Proof. intros H ->. discriminate H. Qed.

Lemma at_keyword_not_explain s :
  at_keyword s = true -> at_word "explain" s = false.
Proof.
  intros H. destruct (at_word "explain" s) eqn:E; [|reflexivity].
  unfold at_keyword in H. apply existsb_exists in H.
  destruct H as (kw & Hin & Hk).
  destruct (at_word_prefix _ _ _ Hk E) as [H|H];
    simpl in Hin; repeat (destruct Hin as [<-|Hin]); try contradiction;
    discriminate H.
Qed.

Lemma squeeze_lstrip s : squeeze (lstrip s) = squeeze s.
Proof.
  induction s as [|c s IH]; [reflexivity|]. cbn [lstrip squeeze].
  destruct (isspace c) eqn:E; [exact IH|]. cbn [squeeze]. rewrite E.
  reflexivity.
Qed.

Lemma strip_explain_prefix_plain options s :
  at_keyword (lstrip s) = true -> strip_explain_prefix_in options s = s.
Proof.
  intros H. unfold strip_explain_prefix_in.
  rewrite (at_keyword_not_explain _ H). reflexivity.
Qed.

Section WithFloat.

Context {F : Type} {FO : FloatOps F}.

#[local] Abbreviation Self := (Executor.Self F).

Lemma strip_explain_statement options (self : Self) (query : string) :
  no_paren (Executor.join ", "
              (map Executor.render_option (Executor.explain_options self)))
    = true ->
  at_keyword (lstrip query) = true ->
  strip_explain_prefix_in options (Executor.build_explain_sql self query)
    = lstrip query.
Proof.
  intros Hp Hk. unfold Executor.build_explain_sql.
  set (o := Executor.join _ _) in *.
  unfold strip_explain_prefix_in.
  change ("EXPLAIN (" ++ o ++ ") " ++ query)
    with (String "E" (String "X" (String "P" (String "L" (String "A"
           (String "I" (String "N" (String " " (String "("
              (o ++ String ")" (String " " query))))))))))).
  cbn [lstrip]. change (isspace "E") with false. cbv iota.
  change (at_word "explain" _) with true.
  cbn [negb drop lstrip]. change (isspace " ") with true. cbv iota.
  cbn [lstrip]. change (isspace "(") with false. cbv iota zeta.
  change (Ascii.eqb "(" "(") with true. cbv iota.
  rewrite (skip_group_no_paren 0 _ _ Hp).
  cbn [skip_group lstrip]. change (isspace " ") with true. cbv iota.
  destruct (lstrip query) as [|c s] eqn:E; [discriminate Hk|].
  cbn [find_keyword]. rewrite Hk. reflexivity.
Qed.

(** X6.  The statement the executor sends for a query and the query
    itself have the same fingerprint: when the rendered EXPLAIN options
    hold no parenthesis (as the default options do) and the query starts,
    after white space, with one of the five keywords,
    [strip_explain_prefix] gives the query back without its leading white
    space, and the two fingerprints are equal. *)
Theorem explain_statement_has_the_query_fingerprint
    (self : Self) (query : string) :
  no_paren (Executor.join ", "
              (map Executor.render_option (Executor.explain_options self)))
    = true ->
  at_keyword (lstrip query) = true ->
  strip_explain_prefix (Executor.build_explain_sql self query)
    = lstrip query /\
  fingerprint (Executor.build_explain_sql self query) = fingerprint query.
Proof.
  intros Hp Hk.
  pose proof (strip_explain_statement option_words self query Hp Hk) as H.
  split; [exact H|].
  unfold fingerprint, normalize_sql, strip_explain_prefix.
  rewrite H, (strip_explain_prefix_plain _ _ Hk), squeeze_lstrip.
  reflexivity.
Qed.

End WithFloat.

(** ** The bytes of the normal form *)

Lemma utf8_lower_plain c :
  isspace c = false -> forallb plain_byte (utf8 (lower_cp c)) = true.
Proof.
  destruct c as [[] [] [] [] [] [] [] []]; intros H;
    solve [discriminate H | vm_compute; reflexivity].
Qed.

(** X8.  The normal form of a text is a sequence of byte values (0 to
    255) that holds no ASCII capital letter and no ASCII white space. *)
Theorem normalize_sql_bytes (sql : string) :
  Forall (fun b => (0 <= b < 256 /\ ~ 65 <= b <= 90 /\
                    ~ 9 <= b <= 13 /\ ~ 28 <= b <= 32)%Z)
    (normalize_sql sql).
Proof.
  unfold normalize_sql. apply Forall_flat_map.
  induction (strip_explain_prefix sql) as [|c s IH]; cbn [squeeze];
    [constructor|].
  destruct (isspace c) eqn:E; [exact IH|].
  constructor; [|exact IH].
  pose proof (utf8_lower_plain c E) as H.
  rewrite forallb_forall in H. apply Forall_forall. intros b Hb.
  specialize (H b Hb). unfold plain_byte in H. lia.
Qed.

(** ** Letter case *)

Lemma isspace_lower_cp c : isspace (lower_cp c) = isspace c.
Proof. destruct c as [[] [] [] [] [] [] [] []]; reflexivity. Qed.

Lemma lower_cp_idem c : lower_cp (lower_cp c) = lower_cp c.
Proof. destruct c as [[] [] [] [] [] [] [] []]; reflexivity. Qed.

Lemma open_lower_cp c : Ascii.eqb (lower_cp c) "(" = Ascii.eqb c "(".
Proof. destruct c as [[] [] [] [] [] [] [] []]; reflexivity. Qed.

Lemma close_lower_cp c : Ascii.eqb (lower_cp c) ")" = Ascii.eqb c ")".
Proof. destruct c as [[] [] [] [] [] [] [] []]; reflexivity. Qed.

Lemma lower_text_idem s : lower_text (lower_text s) = lower_text s.
Proof.
  unfold lower_text. rewrite PyFacts.map_chars_compose.
  apply PyFacts.map_chars_ext, lower_cp_idem.
Qed.

Lemma length_lower_text s : String.length (lower_text s) = String.length s.
Proof.
  induction s as [|c s IH]; [reflexivity|].
  cbn [lower_text map_chars String.length]. f_equal. exact IH.
Qed.

Lemma substring_lower_text n s :
  substring 0 n (lower_text s) = lower_text (substring 0 n s).
Proof.
  revert s. induction n as [|n IH]; intros [|c s]; try reflexivity.
  cbn. f_equal. apply IH.
Qed.

Lemma at_word_lower_text w s : at_word w (lower_text s) = at_word w s.
Proof.
  unfold at_word. rewrite substring_lower_text, lower_text_idem.
  reflexivity.
Qed.

Lemma at_keyword_lower_text s : at_keyword (lower_text s) = at_keyword s.
Proof.
  unfold at_keyword.
  induction keywords as [|kw l IH]; [reflexivity|].
  cbn [existsb]. rewrite at_word_lower_text, IH. reflexivity.
Qed.

Lemma lstrip_lower_text s : lstrip (lower_text s) = lower_text (lstrip s).
Proof. apply PyFacts.lstrip_map_chars, isspace_lower_cp. Qed.

Lemma drop_lower_text n s : drop n (lower_text s) = lower_text (drop n s).
Proof.
  revert s. induction n as [|n IH]; intros [|c s]; try reflexivity.
  apply IH.
Qed.

Lemma skip_group_lower_text d s :
  skip_group d (lower_text s) = lower_text (skip_group d s).
Proof.
  revert d. induction s as [|c s IH]; intros d; [reflexivity|].
  cbn [lower_text map_chars skip_group]. destruct d as [|d]; [reflexivity|].
  rewrite open_lower_cp, close_lower_cp.
  destruct (Ascii.eqb c "("); [apply IH|].
  destruct (Ascii.eqb c ")"); apply IH.
Qed.

Lemma skip_word_lower_text s :
  skip_word (lower_text s) = lower_text (skip_word s).
Proof.
  induction s as [|c s IH]; [reflexivity|].
  cbn [lower_text map_chars skip_word]. rewrite isspace_lower_cp.
  destruct (isspace c); [reflexivity | exact IH].
Qed.

Lemma after_option_lower_text opt s :
  after_option opt (lower_text s)
    = option_map lower_text (after_option opt s).
Proof.
  unfold after_option. rewrite at_word_lower_text, drop_lower_text.
  destruct (at_word opt s); [|reflexivity].
  destruct (drop (String.length opt) s) as [|c rest]; [reflexivity|].
  change (lower_text (String c rest))
    with (String (lower_cp c) (lower_text rest)).
  cbv iota. rewrite isspace_lower_cp.
  destruct (isspace c); [|reflexivity].
  change (String (lower_cp c) (lower_text rest))
    with (lower_text (String c rest)).
  rewrite skip_word_lower_text, lstrip_lower_text. reflexivity.
Qed.

Lemma first_option_lower_text options s :
  first_option options (lower_text s)
    = option_map lower_text (first_option options s).
Proof.
  induction options as [|o options IH]; [reflexivity|].
  cbn [first_option]. rewrite after_option_lower_text.
  destruct (after_option o s); [reflexivity | exact IH].
Qed.

Lemma skip_options_lower_text options fuel s :
  skip_options options fuel (lower_text s)
    = lower_text (skip_options options fuel s).
Proof.
  revert s. induction fuel as [|fuel IH]; intros s; [reflexivity|].
  cbn [skip_options]. destruct s as [|c s]; [reflexivity|].
  change (String (lower_cp c) (lower_text s))
    with (lower_text (String c s)).
  change (lower_text (String c s))
    with (String (lower_cp c) (lower_text s)) at 1.
  cbv iota.
  change (String (lower_cp c) (lower_text s))
    with (lower_text (String c s)).
  rewrite first_option_lower_text.
  destruct (first_option options (String c s)); [apply IH|reflexivity].
Qed.

Lemma find_keyword_lower_text sql s :
  find_keyword (lower_text sql) (lower_text s)
    = lower_text (find_keyword sql s).
Proof.
  induction s as [|c s IH]; [reflexivity|].
  change (lower_text (String c s))
    with (String (lower_cp c) (lower_text s)) at 1.
  cbn [find_keyword].
  change (String (lower_cp c) (lower_text s))
    with (lower_text (String c s)).
  rewrite at_keyword_lower_text.
  destruct (at_keyword (String c s)); [reflexivity | exact IH].
Qed.

Lemma strip_explain_prefix_lower_text sql :
  strip_explain_prefix (lower_text sql)
    = lower_text (strip_explain_prefix sql).
Proof.
  unfold strip_explain_prefix, strip_explain_prefix_in.
  rewrite lstrip_lower_text, at_word_lower_text.
  destruct (negb (at_word "explain" (lstrip sql))); [reflexivity|].
  cbv zeta.
  rewrite drop_lower_text, lstrip_lower_text.
  rewrite <- find_keyword_lower_text. f_equal.
  destruct (lstrip (drop 7 (lstrip sql))) as [|c rest] eqn:E.
  - reflexivity.
  - change (lower_text (String c rest))
      with (String (lower_cp c) (lower_text rest)) at 1.
    cbv iota. rewrite open_lower_cp.
    destruct (Ascii.eqb c "(").
    + rewrite skip_group_lower_text, lstrip_lower_text. reflexivity.
    + change (String (lower_cp c) (lower_text rest))
        with (lower_text (String c rest)).
      rewrite length_lower_text. apply skip_options_lower_text.
Qed.

Lemma squeeze_lower_text s : squeeze (lower_text s) = squeeze s.
Proof.
  induction s as [|c s IH]; [reflexivity|].
  cbn [lower_text map_chars squeeze]. rewrite isspace_lower_cp, lower_cp_idem.
  fold (lower_text s). rewrite IH. reflexivity.
Qed.

Lemma normalize_sql_lower_text sql :
  normalize_sql (lower_text sql) = normalize_sql sql.
Proof.
  unfold normalize_sql.
  rewrite strip_explain_prefix_lower_text, squeeze_lower_text. reflexivity.
Qed.

(** X7.  The fingerprint does not depend on letter case: two texts with
    the same lower-case form have the same normal form, the bytes that
    [normalize_sql] gives, and the same fingerprint, the signed hash of
    these bytes. *)
Theorem fingerprint_ignores_letter_case (a b : string) :
  lower_text a = lower_text b ->
  normalize_sql a = normalize_sql b /\ fingerprint a = fingerprint b.
Proof.
  intros H.
  assert (N : normalize_sql a = normalize_sql b).
  { rewrite <- (normalize_sql_lower_text a), <- (normalize_sql_lower_text b).
    now rewrite H. }
  split; [exact N|]. unfold fingerprint. now rewrite N.
Qed.

(** ** Names of results *)

Lemma rstrip_append x y :
  y <> "" -> rstrip y = y -> rstrip (x ++ y) = x ++ y.
Proof.
  intros Hy Hr. induction x as [|c x IH]; [exact Hr|].
  cbn [append rstrip]. rewrite IH.
  destruct (x ++ y) eqn:E; [|reflexivity].
  destruct x; [simpl in E; congruence | discriminate E].
Qed.

Lemma lstrip_append x c y :
  isspace c = false ->
  lstrip (x ++ String c y) = lstrip x ++ String c y.
Proof.
  intros Hc. induction x as [|a x IH].
  - cbn [append lstrip]. rewrite Hc. reflexivity.
  - cbn [append lstrip]. destruct (isspace a); [exact IH | reflexivity].
Qed.

Lemma endswith_append x y : endswith y (x ++ y) = true.
Proof.
  induction x as [|c x IH].
  - destruct y; cbn [append endswith]; rewrite String.eqb_refl; reflexivity.
  - cbn [append endswith]. rewrite IH. apply orb_true_r.
Qed.

Lemma length_append x y :
  String.length (x ++ y) = (String.length x + String.length y)%nat.
Proof. induction x as [|c x IH]; simpl; congruence. Qed.

Lemma drop_last_append x y : drop_last (String.length y) (x ++ y) = x.
Proof.
  induction x as [|c x IH].
  - destruct y as [|c y]; [reflexivity|].
    cbn [append drop_last]. rewrite Nat.leb_refl. reflexivity.
  - cbn [append drop_last].
    replace (String.length (String c (x ++ y)) <=? String.length y)%nat
      with false.
    + rewrite IH. reflexivity.
    + symmetry. apply Nat.leb_gt. simpl. rewrite length_append. lia.
Qed.

(** X9.  The name the executor gives to a result of round 1 leads back to
    the query file: [normalize_query] (the same steps are in [main] of the
    cache generator) returns the file name, without leading white space if
    it has any. *)
Theorem round_one_name_gives_the_file (name : string) :
  normalize_query (name ++ Executor.round_marker 1) = lstrip name.
Proof.
  change (Executor.round_marker 1) with "_round1".
  unfold normalize_query, strip.
  rewrite (lstrip_append name "_" "round1") by reflexivity.
  rewrite rstrip_append by (reflexivity || discriminate).
  rewrite endswith_append.
  apply (drop_last_append (lstrip name) "_round1").
Qed.

End TextFacts.

(** ** Whole runs *)

Module RunFacts.

Import Py Plan Executor Runs.

Section WithFloat.

Context {F : Type} {FO : FloatOps F}.

#[local] Abbreviation Self := (Self F).
#[local] Abbreviation ResultDict := (ResultDict F).
#[local] Abbreviation State := (State F).
#[local] Abbreviation World := (World F).

Ltac unfold_prims :=
  unfold time_time, now_isoformat, db_cursor, db_execute, db_connect,
    bind, ret, raise, lift, get_self, get_world, modify_world,
    modify_self in *.

Ltac unfold_paths :=
  unfold dispatch in *;
  unfold execute_query_with_explain, execute_query_with_detailed_timing,
    execute_query_simple in *;
  unfold get_explain_analyze_json, error_result in *;
  unfold_prims.

Lemma with_results_same (self : Self) :
  with_results self (self_results self) = self.
Proof. destruct self; reflexivity. Qed.

Ltac outcome H :=
  inversion H; subst; cbn;
  split; [reflexivity|];
  split; [reflexivity|];
  split; [reflexivity|];
  split;
  [ intros ? X;
    first
      [ discriminate X
      | inversion X; subst; cbn;
        split; [reflexivity|];
        split; [eexists; reflexivity|];
        first [left; reflexivity | right; reflexivity] ]
  | intros X; first [discriminate X | eexists; reflexivity] ].

(** A call of an execution path on a connected object: whatever the server
    answers, the object and what the run has written are as before; a
    result that is returned carries the name given and is settled; only
    plan mode can raise. *)
Lemma dispatch_outcome re dt query qname (s : State) o s' :
  connection (st_self s) = true ->
  dispatch re dt query qname s = (o, s') ->
  st_self s' = st_self s /\
  closed (st_world s') = closed (st_world s) /\
  round_lines (st_world s') = round_lines (st_world s) /\
  (forall r, o = Ok r -> query_name r = Some qname /\ settled r) /\
  (re = false -> exists r, o = Ok r).
Proof.
  intros Ec H. unfold settled. unfold_paths.
  destruct re; [|destruct dt].
  all: rewrite ?Ec in H; cbn in H; rewrite ?Ec in H; cbn in H.
  all: destruct (cursor_error (st_world s) (statements (st_world s)));
    cbn in H; [outcome H|].
  all: destruct (execute_error _); cbn in H; [outcome H|].
  all: destruct (fetch_result _) as [e|rows]; cbn in H; [outcome H|].
  - destruct rows as [|[|doc row] rows]; cbn in H.
    + outcome H.
    + outcome H.
    + destruct (primary_exec_seconds _ _); cbn in H; outcome H.
  - outcome H.
  - outcome H.
Qed.

Lemma run_queries_outcome re dt r files :
  forall (s : State) o s',
  connection (st_self s) = true ->
  run_queries re dt r files s = (o, s') ->
  exists rs,
    st_self s' = with_results (st_self s) (self_results (st_self s) ++ rs) /\
    closed (st_world s') = closed (st_world s) /\
    round_lines (st_world s') = round_lines (st_world s) /\
    Forall settled rs /\
    (o = Ok tt -> map query_name rs = round_names files r) /\
    (re = false -> o = Ok tt).
Proof.
  induction files as [|q files IH]; intros s o s' Ec H.
  - cbn in H. unfold ret in H. inversion H; subst.
    exists []. rewrite app_nil_r, with_results_same.
    repeat split; auto.
  - cbn [run_queries] in H. unfold bind at 1 in H.
    destruct (dispatch re dt (content q) (filename q ++ round_marker r) s)
      as [[res|e] s1] eqn:D;
      destruct (dispatch_outcome _ _ _ _ _ _ _ Ec D) as (Hs & Hc & Hl & Hr & Hok).
    + unfold bind at 1 in H. unfold modify_self at 1 in H.
      apply IH in H; [|cbn; rewrite Hs; exact Ec].
      destruct H as (rs & H1 & H2 & H3 & H4 & H5 & H6).
      destruct (Hr res eq_refl) as [Hn Hset].
      exists (res :: rs). cbn in H1, H2, H3. rewrite Hs in H1.
      repeat split.
      * rewrite H1. unfold with_results. cbn. rewrite <- app_assoc.
        reflexivity.
      * rewrite H2. exact Hc.
      * rewrite H3. exact Hl.
      * constructor; assumption.
      * intros Ho. cbn. rewrite Hn, (H5 Ho). reflexivity.
      * exact H6.
    + inversion H; subst. exists [].
      rewrite app_nil_r, with_results_same, Hs.
      repeat split; auto.
      * intros X. discriminate X.
      * intros X. destruct (Hok X) as [r0 Hr0]. discriminate Hr0.
Qed.

Lemma time_time_spec (s : State) :
  time_time s =
  (Ok (clock (st_world s) (ticks (st_world s))),
   mkState (st_self s) (advance (st_world s))).
Proof. reflexivity. Qed.

Lemma count_in_round_ok st r (l : list ResultDict) :
  Forall settled l -> exists n, count_where (in_round st r) l = Ok n.
Proof.
  induction 1 as [|x l [[qn Hq] Hs] _ [n IH]]; [exists O; reflexivity|].
  cbn [count_where]. unfold in_round at 1. rewrite Hq.
  destruct Hs as [-> | ->]; destruct (String.eqb _ st);
    cbn [ebind]; rewrite IH; cbn [ebind]; eexists; reflexivity.
Qed.

Lemma run_rounds_outcome re dt files n :
  forall r acc (s : State) o s',
  connection (st_self s) = true ->
  run_rounds re dt files n r acc s = (o, s') ->
  exists rs,
    st_self s' = with_results (st_self s) (self_results (st_self s) ++ rs) /\
    closed (st_world s') = closed (st_world s) /\
    Forall settled rs /\
    (forall rts, o = Ok rts ->
       map query_name rs = flat_map (round_names files) (rounds_from r n) /\
       List.length rts = (List.length acc + n)%nat) /\
    (re = false -> Forall settled (self_results (st_self s)) ->
     exists rts, o = Ok rts).
Proof.
  induction n as [|n IH]; intros r acc s o s' Ec H.
  - cbn in H. unfold ret in H. inversion H; subst.
    exists []. rewrite app_nil_r, with_results_same.
    split; [reflexivity|]. split; [reflexivity|]. split; [constructor|].
    split.
    + intros rts X. inversion X; subst. split; [reflexivity | lia].
    + intros _ _. eexists; reflexivity.
  - cbn [run_rounds] in H. unfold bind at 1 in H.
    rewrite time_time_spec in H. cbv iota beta in H.
    unfold bind at 1 in H.
    destruct (run_queries re dt r files _) as [[u|e] sb] eqn:Q;
      apply run_queries_outcome in Q; try exact Ec;
      destruct Q as (rs & Q1 & Q2 & Q3 & Q4 & Q5 & Q6); cbn in Q1, Q2, Q3.
    2:{ inversion H; subst. exists rs.
        split; [exact Q1|]. split; [exact Q2|]. split; [exact Q4|].
        split.
        - intros rts X. discriminate X.
        - intros X _. specialize (Q6 X). discriminate Q6. }
    destruct u. specialize (Q5 eq_refl).
    unfold bind at 1 in H. rewrite time_time_spec in H.
    cbv iota beta zeta in H.
    unfold bind at 1 in H. unfold get_self at 1 in H. cbv iota beta in H.
    cbn [st_self st_world] in H.
    unfold bind at 1 in H. unfold lift at 1 in H.
    destruct (count_where (in_round "success" r) (self_results (st_self sb)))
      as [n1|e1] eqn:C1.
    2:{ inversion H; subst. exists rs. cbn.
        split; [exact Q1|]. split; [exact Q2|]. split; [exact Q4|].
        split.
        - intros rts X. discriminate X.
        - intros _ Hset.
          destruct (count_in_round_ok "success" r (self_results (st_self sb)))
            as [k Hk].
          + rewrite Q1. cbn. apply Forall_app. split; assumption.
          + congruence. }
    unfold bind at 1 in H. unfold lift at 1 in H.
    destruct (count_where (in_round "error" r) (self_results (st_self sb)))
      as [n2|e2] eqn:C2.
    2:{ inversion H; subst. exists rs. cbn.
        split; [exact Q1|]. split; [exact Q2|]. split; [exact Q4|].
        split.
        - intros rts X. discriminate X.
        - intros _ Hset.
          destruct (count_in_round_ok "error" r (self_results (st_self sb)))
            as [k Hk].
          + rewrite Q1. cbn. apply Forall_app. split; assumption.
          + congruence. }
    unfold bind at 1 in H. unfold modify_world at 1 in H.
    cbn [st_self st_world] in H.
    apply IH in H; [|cbn; rewrite Q1; exact Ec].
    destruct H as (rs' & H1 & H2 & H3 & H4 & H5). cbn in H1, H2.
    exists (rs ++ rs').
    split; [|split; [|split; [|split]]].
    + rewrite H1, Q1. unfold with_results. cbn. rewrite <- app_assoc.
      reflexivity.
    + rewrite H2. exact Q2.
    + apply Forall_app. split; assumption.
    + intros rts X. destruct (H4 rts X) as [Hn Hl]. split.
      * cbn [rounds_from flat_map]. rewrite map_app, Q5, Hn. reflexivity.
      * rewrite Hl, length_app. simpl. lia.
    + intros X Hset. apply H5; [exact X|].
      cbn. rewrite Q1. cbn. apply Forall_app. split; assumption.
Qed.

(** [connect] returns a flag and a time; the object holds a connection
    from the moment [psycopg2.connect] has returned one. *)
Lemma connect_outcome (s : State) o s1 :
  connect s = (o, s1) ->
  exists b t,
    o = Ok (b, t) /\
    st_self s1 = (if reachable s then with_connection (st_self s)
                  else st_self s) /\
    closed (st_world s1) = closed (st_world s) /\
    (forall dir, load_all (st_world s1) dir = load_all (st_world s) dir) /\
    (b = true -> reachable s = true).
Proof.
  unfold connect, reachable. unfold_prims. cbn. intros H.
  destruct (connect_error (st_world s)); cbn in H.
  { inversion H; subst; cbn. do 2 eexists. repeat split. discriminate. }
  destruct (cursor_error (st_world s) (statements (st_world s))); cbn in H.
  { inversion H; subst; cbn. do 2 eexists. repeat split. }
  destruct (statement_timeout_ms (st_self s)) as [ms|]; cbn in H.
  - destruct (0 <? ms)%Z; cbn in H.
    + destruct (execute_error _); cbn in H;
        inversion H; subst; cbn; do 2 eexists; repeat split.
    + inversion H; subst; cbn. do 2 eexists. repeat split.
  - inversion H; subst; cbn. do 2 eexists. repeat split.
Qed.

Lemma disconnect_spec (s : State) :
  disconnect s =
  (Ok tt, if connection (st_self s)
          then mkState (st_self s) (with_closed (st_world s)) else s).
Proof.
  unfold disconnect. unfold_prims. cbn.
  destruct (connection (st_self s)); [reflexivity|]. destruct s; reflexivity.
Qed.

(** What a call of [execute_all_queries] leaves, whatever its outcome. *)
Lemma execute_all_outcome dir iterations dt re (s : State) o s' :
  execute_all_queries dir iterations dt re s = (o, s') ->
  exists rs,
    self_results (st_self s') = self_results (st_self s) ++ rs /\
    Forall settled rs /\
    connection (st_self s') = connection (st_self s) || reachable s /\
    (closed (st_world s') = closed (st_world s) \/
     closed (st_world s') = true /\ connection (st_self s') = true) /\
    (forall t s1, connect s = (Ok (true, t), s1) ->
       (o = Ok tt ->
          map query_name rs =
            flat_map (round_names (load_all (st_world s) dir))
              (rounds_from 1 (Z.to_nat iterations)) /\
          List.length (self_round_times (st_self s'))
            = Z.to_nat iterations /\
          closed (st_world s') = true) /\
       (re = false -> Forall settled (self_results (st_self s)) ->
        (1 <= iterations)%Z -> (exists d, fof_int iterations = Ok d) ->
        o = Ok tt)).
Proof.
  unfold execute_all_queries. intros H. unfold bind at 1 in H.
  destruct (connect s) as [oc s1] eqn:C.
  destruct (connect_outcome _ _ _ C) as (b & t & -> & Hc1 & Hc2 & Hc3 & Hc4).
  assert (Hres : self_results (st_self s1) = self_results (st_self s)).
  { rewrite Hc1. destruct (reachable s); reflexivity. }
  assert (Hcon : connection (st_self s1)
                 = connection (st_self s) || reachable s).
  { rewrite Hc1. destruct (reachable s); cbn;
      [rewrite orb_true_r | rewrite orb_false_r]; reflexivity. }
  destruct b; cbv iota beta in H; cbn [negb] in H; cbv iota in H.
  2:{ unfold ret in H. inversion H; subst. exists [].
      rewrite app_nil_r.
      split; [exact Hres|]. split; [constructor|]. split; [exact Hcon|].
      split; [left; exact Hc2|].
      intros t' s1' X. discriminate X. }
  specialize (Hc4 eq_refl).
  assert (Ec : connection (st_self s1) = true).
  { rewrite Hc1, Hc4. reflexivity. }
  unfold bind at 1 in H. unfold modify_self at 1 in H.
  unfold bind at 1 in H. unfold load_sql_files at 1 in H.
  unfold bind at 1 in H. unfold get_world at 1 in H. unfold ret at 1 in H.
  cbn [st_self st_world] in H.
  unfold bind at 1 in H.
  match type of H with
  | context [run_rounds re dt ?fs ?n 1 [] ?st] =>
      destruct (run_rounds re dt fs n 1 [] st) as [[rts|e] s2] eqn:R;
      (apply run_rounds_outcome in R; [|cbn; exact Ec])
  end;
    destruct R as (rs & R1 & R2 & R3 & R4 & R5); cbn in R1, R2.
  2:{ inversion H; subst. exists rs.
      split; [rewrite R1; cbn; rewrite Hres; reflexivity|].
      split; [exact R3|].
      split; [rewrite R1; cbn; exact Hcon|].
      split; [left; rewrite R2; exact Hc2|].
      intros t' s1' X. split; [intros Y; discriminate Y|].
      intros Hre Hset _ _.
      destruct (R5 Hre) as [rts Hr]; [|discriminate Hr].
      cbn. rewrite Hres. exact Hset. }
  destruct (R4 rts eq_refl) as [Rn Rl]. cbn in Rl.
  unfold bind at 1 in H. unfold lift at 1 in H.
  destruct (round_statistics rts iterations) as [totals|e] eqn:S.
  2:{ inversion H; subst. exists rs.
      split; [rewrite R1; cbn; rewrite Hres; reflexivity|].
      split; [exact R3|].
      split; [rewrite R1; cbn; exact Hcon|].
      split; [left; rewrite R2; exact Hc2|].
      intros t' s1' X. split; [intros Y; discriminate Y|].
      intros _ _ Hi [d Hd].
      destruct (ExecutorFacts.round_statistics_defined rts iterations d Hi
                  Rl Hd) as (tot & Ht & _).
      congruence. }
  unfold bind at 1 in H. unfold modify_world at 1 in H.
  unfold bind at 1 in H. unfold modify_self at 1 in H.
  cbn [st_self st_world] in H.
  rewrite disconnect_spec in H. cbn [st_self st_world] in H.
  assert (Ec2 : connection (with_round_times (st_self s2) rts) = true).
  { cbn. rewrite R1. cbn. exact Ec. }
  rewrite Ec2 in H. inversion H; subst. cbn.
  exists rs.
  split; [rewrite R1; cbn; rewrite Hres; reflexivity|].
  split; [exact R3|].
  split; [rewrite R1; cbn; exact Hcon|].
  split; [right; split; [reflexivity | rewrite R1; exact Ec]|].
  intros t' s1' X. split; [|reflexivity].
  intros _. rewrite Rn, Hc3. split; [reflexivity|].
  split; [exact Rl | reflexivity].
Qed.

Lemma length_round_names (files : list QueryRecord) r :
  List.length (round_names files r) = List.length files.
Proof. unfold round_names. apply length_map. Qed.

Lemma length_rounds (files : list QueryRecord) n : forall r,
  List.length (flat_map (round_names files) (rounds_from r n))
    = (n * List.length files)%nat.
Proof.
  induction n as [|n IH]; intros r; [reflexivity|].
  cbn [rounds_from flat_map]. rewrite length_app, length_round_names, IH.
  reflexivity.
Qed.

(** X10.  When the connection succeeds and the call returns normally,
    [execute_all_queries] has appended one result per query file and round,
    round after round and, within a round, in the order of the sorted
    files, the list [load_sql_files] builds, each named after its file and
    its round; [self.round_times] has one entry per round. *)
Theorem results_follow_the_rounds dir iterations dt re (s : State) t s1 s' :
  connect s = (Ok (true, t), s1) ->
  execute_all_queries dir iterations dt re s = (Ok tt, s') ->
  let files := load_all (st_world s) dir in
  exists rs,
    self_results (st_self s') = self_results (st_self s) ++ rs /\
    map query_name rs =
      flat_map (round_names files) (rounds_from 1 (Z.to_nat iterations)) /\
    List.length rs = (Z.to_nat iterations * List.length files)%nat /\
    List.length (self_round_times (st_self s')) = Z.to_nat iterations.
Proof.
  intros C H files.
  destruct (execute_all_outcome _ _ _ _ _ _ _ H)
    as (rs & H1 & _ & _ & _ & H5).
  destruct (H5 t s1 C) as [H6 _].
  destruct (H6 eq_refl) as (Hn & Hl & _).
  exists rs. split; [exact H1|]. split; [exact Hn|]. split; [|exact Hl].
  rewrite <- (length_map query_name), Hn. apply length_rounds.
Qed.

Lemma count_status_settled (rs : list ResultDict) a b :
  Forall settled rs ->
  count_where (status_eq "success") rs = Ok a ->
  count_where (status_eq "error") rs = Ok b ->
  (a + b)%nat = List.length rs.
Proof.
  intros Hs. revert a b.
  induction Hs as [|x l [_ Hx] _ IH]; intros a b Ha Hb.
  - inversion Ha; inversion Hb; reflexivity.
  - cbn [count_where] in Ha, Hb.
    unfold status_eq at 1 in Ha. unfold status_eq at 1 in Hb.
    destruct (count_where (status_eq "success") l) as [a'|]; cbn [ebind] in Ha;
      [|destruct Hx as [Hx|Hx]; rewrite Hx in Ha; discriminate Ha].
    destruct (count_where (status_eq "error") l) as [b'|]; cbn [ebind] in Hb;
      [|destruct Hx as [Hx|Hx]; rewrite Hx in Hb; discriminate Hb].
    specialize (IH a' b' eq_refl eq_refl).
    destruct Hx as [Hx|Hx]; rewrite Hx in Ha, Hb; cbn in Ha, Hb;
      inversion Ha; inversion Hb; subst; simpl; lia.
Qed.

Lemma save_data_counts (self : Self) rep :
  Forall settled (self_results self) ->
  save_data self = Ok rep ->
  (successful_queries (sr_summary rep) + failed_queries (sr_summary rep))%nat
    = total_queries (sr_summary rep) /\
  total_queries (sr_summary rep) = List.length (sr_query_results rep).
Proof.
  intros Hs H. unfold save_data in H.
  match type of H with
  | ebind ?c _ = _ => destruct c as [avg|]; cbn [ebind] in H; [|discriminate]
  end.
  destruct (count_where (status_eq "success") (self_results self)) as [a|]
    eqn:A; cbn [ebind] in H; [|discriminate].
  destruct (count_where (status_eq "error") (self_results self)) as [b|]
    eqn:B; cbn [ebind] in H; [|discriminate].
  destruct (round_summary_of (self_round_times self));
    cbn [ebind] in H; [|discriminate].
  inversion H; subst rep. cbn.
  split; [exact (count_status_settled _ _ _ Hs A B) | reflexivity].
Qed.

(** X11.  In the report, every result is counted once: when the results
    the object held before the call are settled (for the object [main]
    creates there is none), then after [execute_all_queries], whatever its
    outcome, the successful and the failed queries of [save_data] add up to
    the total, which is the number of results written. *)
Theorem report_counts_add_up dir iterations dt re (s : State) o s' rep :
  Forall settled (self_results (st_self s)) ->
  execute_all_queries dir iterations dt re s = (o, s') ->
  save_data (st_self s') = Ok rep ->
  (successful_queries (sr_summary rep) + failed_queries (sr_summary rep))%nat
    = total_queries (sr_summary rep) /\
  total_queries (sr_summary rep) = List.length (sr_query_results rep).
Proof.
  intros Hs H Hrep.
  destruct (execute_all_outcome _ _ _ _ _ _ _ H) as (rs & H1 & H2 & _).
  apply (save_data_counts (st_self s')); [|exact Hrep].
  rewrite H1. apply Forall_app. split; assumption.
Qed.

(** X12.  In simple and in detailed mode no answer of the server aborts
    the run: with a connection that succeeds, at least one round and settled
    earlier results, [execute_all_queries] returns normally, has closed the
    connection and has recorded one time per round. *)
Theorem plain_modes_never_abort dir iterations dt (s : State) t s1 d :
  connect s = (Ok (true, t), s1) ->
  Forall settled (self_results (st_self s)) ->
  (1 <= iterations)%Z ->
  fof_int iterations = Ok d ->
  exists s',
    execute_all_queries dir iterations dt false s = (Ok tt, s') /\
    closed (st_world s') = true /\
    List.length (self_round_times (st_self s')) = Z.to_nat iterations.
Proof.
  intros C Hs Hi Hd.
  destruct (execute_all_queries dir iterations dt false s) as [o s'] eqn:H.
  destruct (execute_all_outcome _ _ _ _ _ _ _ H) as (rs & _ & _ & _ & _ & H5).
  destruct (H5 t s1 C) as [H6 H7].
  assert (o = Ok tt) as -> by (apply H7; eauto).
  destruct (H6 eq_refl) as (_ & Hl & Hc).
  exists s'. repeat split; assumption.
Qed.

Lemma save_results_outcome (s : State) :
  exists s2,
    save_results s = (Ok tt, s2) /\
    st_self s2 = st_self s /\
    closed (st_world s2) = closed (st_world s).
Proof.
  unfold save_results. unfold_prims. cbn.
  destruct (save_data (st_self s)) as [rep|e].
  - eexists. split; [reflexivity|]. cbn. split; [reflexivity|].
    unfold with_saved. destruct (writable (st_world s)); reflexivity.
  - eexists. split; [reflexivity|]. split; reflexivity.
Qed.

(** X13.  At the end of [main]'s run the connection is closed exactly when
    there was one: it is closed if it was closed before, if the object
    already held a connection, or if [psycopg2.connect] returned one during
    the run (also when [connect()] then gave up, or an exception ended the
    rounds); otherwise nothing is closed. *)
Theorem run_closes_what_it_opened dir iterations dt re (s : State) :
  closed (st_world (main_run dir iterations dt re s))
    = closed (st_world s) || connection (st_self s) || reachable s.
Proof.
  unfold main_run. unfold bind.
  destruct (execute_all_queries dir iterations dt re s) as [o s1] eqn:H.
  destruct (execute_all_outcome _ _ _ _ _ _ _ H)
    as (rs & _ & _ & Hc & Hcl & _).
  assert (Hend : forall s2 : State,
            st_self s2 = st_self s1 ->
            closed (st_world s2) = closed (st_world s1) ->
            closed (st_world (snd (disconnect s2)))
              = closed (st_world s) || connection (st_self s) || reachable s).
  { intros s2 E1 E2. rewrite disconnect_spec. cbn [snd].
    rewrite E1, Hc, <- orb_assoc.
    destruct (connection (st_self s) || reachable s) eqn:E.
    - cbn. symmetry. apply orb_true_r.
    - cbv iota. rewrite E2, orb_false_r.
      destruct Hcl as [Hcl|[_ Hcl]]; [exact Hcl|].
      rewrite Hc in Hcl. discriminate Hcl. }
  destruct o as [u|e].
  - destruct (save_results_outcome s1) as (s2 & -> & E1 & E2).
    apply Hend; assumption.
  - apply Hend; reflexivity.
Qed.

End WithFloat.

End RunFacts.

(** ** The connection parameters *)

Module ConfigFacts.

Import Py Fingerprint Config.

Section WithFloat.

Context {F : Type}.

#[local] Abbreviation json := (json F).

Lemma get_pop {V : Type} k (d : dict V) : get k (pop k d) = None.
Proof.
  induction d as [|[k' v] d IH]; [reflexivity|].
  unfold pop. cbn [List.filter fst].
  destruct (String.eqb k' k) eqn:E; cbn [negb]; [exact IH|].
  cbn [get]. rewrite E. exact IH.
Qed.

Lemma defaults_same (name : string) :
  getd name (@default_configs F) (getd "kvm" default_configs [])
  = [ ("host", JStr "localhost"); ("port", JInt 5432);
      ("database", JStr "imdbload"); ("user", JStr "qihan") ].
Proof.
  unfold getd, default_configs. cbn [get].
  repeat match goal with
         | |- context [String.eqb ?a name] => destruct (String.eqb a name)
         end; reflexivity.
Qed.

(** X14.  The configuration [get_database_config] returns never has a
    ["description"] entry, whatever the configuration file holds; and
    without a usable file every environment name, known or not, gets the
    same four parameters. *)
Theorem database_config_entries (name : string) (file : option json) :
  get "description" (get_database_config name file) = None /\
  @get_database_config F name None = get_database_config "kvm" None.
Proof.
  split.
  - unfold get_database_config. cbv zeta. rewrite defaults_same.
    destruct file as [[| | | | | |cfg]|]; try reflexivity.
    destruct (getd "environments" cfg (JObj [])) as [| | | | | |envs];
      try reflexivity.
    destruct (get (lower_text name) envs) as [[| | | | | |conf]|];
      try reflexivity.
    apply get_pop.
  - unfold get_database_config. cbv zeta. rewrite !defaults_same.
    reflexivity.
Qed.

End WithFloat.

End ConfigFacts.

(** ** The comparison of component choices *)

Module CompareFacts.

Import Py Scenario Compare.

(** ** The distance *)

Lemma hamming_cons x y a b :
  hamming (x :: a) (y :: b)
  = ((if Z.eqb x y then 0 else 1) + hamming a b)%nat.
Proof.
  unfold hamming. cbn [combine List.filter fst snd].
  destruct (Z.eqb x y); reflexivity.
Qed.

Lemma hamming_sym a : forall b, hamming a b = hamming b a.
Proof.
  induction a as [|x a IH]; intros [|y b]; try reflexivity.
  rewrite !hamming_cons, IH, (Z.eqb_sym x y). reflexivity.
Qed.

Lemma hamming_zero a : forall b,
  List.length a = List.length b -> (hamming a b = 0%nat <-> a = b).
Proof.
  induction a as [|x a IH]; intros [|y b] Hl; try discriminate Hl.
  - split; reflexivity.
  - rewrite hamming_cons. simpl in Hl. injection Hl as Hl.
    destruct (Z.eqb_spec x y) as [->|Hne].
    + rewrite (IH b Hl). split; [intros ->; reflexivity|].
      intros H. inversion H. reflexivity.
    + split; [discriminate|]. intros H. inversion H. contradiction.
Qed.

Lemma hamming_bound a : forall b, (hamming a b <= List.length a)%nat.
Proof.
  induction a as [|x a IH]; intros [|y b]; try (cbn; lia).
  rewrite hamming_cons. specialize (IH b). simpl.
  destruct (Z.eqb x y); lia.
Qed.

Lemma hamming_triangle a : forall b c,
  List.length a = List.length b -> List.length b = List.length c ->
  (hamming a c <= hamming a b + hamming b c)%nat.
Proof.
  induction a as [|x a IH]; intros [|y b] [|z c] H1 H2;
    try discriminate; [cbn; lia|].
  simpl in H1, H2. injection H1 as H1. injection H2 as H2.
  rewrite !hamming_cons. specialize (IH b c H1 H2).
  destruct (Z.eqb_spec x z), (Z.eqb_spec x y), (Z.eqb_spec y z);
    try lia; congruence.
Qed.

(** X15.  On tuples of one length, [hamming] is a distance: it is
    symmetric, it is zero exactly when the tuples are equal, it is at most
    the length, and it satisfies the triangle inequality. *)
Theorem hamming_is_a_distance (a b c : list Z) :
  List.length a = List.length b -> List.length b = List.length c ->
  hamming a b = hamming b a /\
  (hamming a b = 0%nat <-> a = b) /\
  (hamming a b <= List.length a)%nat /\
  (hamming a c <= hamming a b + hamming b c)%nat.
Proof.
  intros H1 H2.
  split; [apply hamming_sym|].
  split; [apply hamming_zero, H1|].
  split; [apply hamming_bound | apply hamming_triangle; assumption].
Qed.

(** ** The tables *)

Lemma get_in {V : Type} k (d : dict V) v : get k d = Some v -> In (k, v) d.
Proof.
  induction d as [|[k' v'] d IH]; simpl; [discriminate|].
  destruct (String.eqb k' k) eqn:E; intros H.
  - apply String.eqb_eq in E. inversion H. subst. now left.
  - right. auto.
Qed.

(** X16.  The two scripts agree on what a combination is: for every
    [best_combo] cell whose stripped, lower-cased text is in the table of
    [map_scenario], the bits the comparison gives to the cell are the bits
    it gives to the label [map_scenario] writes for it, and they are
    defined. *)
Theorem scenario_label_has_the_bits_of_the_combination
    (best_combo label : string) :
  get (lower (strip best_combo)) mapping = Some label ->
  map_scenario best_combo = label /\
  get (label_combination label) BIT_MAP
    = get (best_combination best_combo) BIT_MAP /\
  get (best_combination best_combo) BIT_MAP <> None.
Proof.
  intros H.
  assert (Hm : map_scenario best_combo = label).
  { unfold map_scenario. destruct best_combo as [|c s]; [discriminate H|].
    cbn [nonempty negb]. cbv zeta. unfold getd. rewrite H. reflexivity. }
  split; [exact Hm|].
  unfold best_combination. cbv zeta.
  apply get_in in H. revert H.
  generalize (lower (strip best_combo)). intros key H.
  unfold mapping in H. simpl in H.
  repeat (destruct H as [H|H];
          [inversion H; subst; split; [reflexivity | discriminate]|]).
  contradiction.
Qed.

(** ** The statistics *)

Local Open Scope nat_scope.

Lemma tuple_eqb_eq a : forall b, tuple_eqb a b = true <-> a = b.
Proof.
  induction a as [|x a IH]; intros [|y b]; cbn [tuple_eqb];
    try (split; [discriminate | intros H; inversion H]).
  - split; reflexivity.
  - rewrite andb_true_iff, Z.eqb_eq, IH.
    split; [intros [-> ->]; reflexivity | intros H; inversion H; auto].
Qed.

Lemma bits_length b : In b (map snd BIT_MAP) -> List.length b = 3%nat.
Proof.
  simpl. intros H.
  repeat (destruct H as [<-|H]; [reflexivity|]). contradiction.
Qed.

Lemma rows_bits best pred : Forall bits_row (rows_of best pred).
Proof.
  unfold rows_of. induction best as [|[query best_combo] best IH];
    [constructor|].
  cbn [flat_map]. apply Forall_app. split; [|exact IH].
  destruct (get query pred) as [pred_combo|]; [|constructor].
  destruct (get best_combo BIT_MAP) as [b|] eqn:B; [|constructor].
  destruct (get pred_combo BIT_MAP) as [p|] eqn:P; [|constructor].
  constructor; [|constructor]. split; cbn [fst snd];
    apply bits_length; eapply PyFacts.get_in_values; eassumption.
Qed.

Lemma rows_length best pred :
  (List.length (rows_of best pred) <= List.length best)%nat.
Proof.
  unfold rows_of. induction best as [|[query best_combo] best IH];
    [apply Nat.le_refl|].
  cbn [flat_map]. rewrite length_app. cbn [List.length].
  destruct (get query pred) as [pred_combo|]; [|cbn [List.length]; lia].
  destruct (get best_combo BIT_MAP) as [b|]; [|cbn [List.length]; lia].
  destruct (get pred_combo BIT_MAP) as [p|]; cbn [List.length]; lia.
Qed.

Lemma row_distance row :
  bits_row row ->
  (hamming (snd (fst row)) (snd row) <= 3)%nat /\
  (tuple_eqb (snd (fst row)) (snd row) = true <->
   hamming (snd (fst row)) (snd row) = 0%nat).
Proof.
  intros [H1 H2]. split.
  - rewrite <- H1. apply hamming_bound.
  - rewrite tuple_eqb_eq, hamming_zero by congruence. reflexivity.
Qed.

Lemma histogram (rows : list (string * list Z * list Z)) :
  Forall bits_row rows ->
  let dists := map (fun row => hamming (snd (fst row)) (snd row)) rows in
  (count_occ Nat.eq_dec dists 0 + count_occ Nat.eq_dec dists 1
   + count_occ Nat.eq_dec dists 2 + count_occ Nat.eq_dec dists 3)%nat
    = List.length rows /\
  count_occ Nat.eq_dec dists 0
    = List.length
        (List.filter (fun row => tuple_eqb (snd (fst row)) (snd row)) rows) /\
  (max_of dists <= 3)%nat.
Proof.
  intros H. cbv zeta.
  induction H as [|row rows Hr _ IH];
    [split; [reflexivity | split; [reflexivity | apply Nat.le_0_l]]|].
  destruct IH as (I1 & I2 & I3).
  destruct (row_distance row Hr) as [Hb He].
  cbn [map List.filter max_of fold_right].
  set (d := hamming (snd (fst row)) (snd row)) in *.
  fold (max_of (map (fun row => hamming (snd (fst row)) (snd row)) rows)).
  cbn [count_occ]. cbv zeta.
  split; [|split].
  - cbn [List.length].
    destruct (Nat.eq_dec d 0), (Nat.eq_dec d 1), (Nat.eq_dec d 2),
      (Nat.eq_dec d 3); lia.
  - destruct (tuple_eqb (snd (fst row)) (snd row)) eqn:E.
    + destruct (Nat.eq_dec d 0) as [_|N]; [cbn; lia|].
      destruct N. apply He. reflexivity.
    + destruct (Nat.eq_dec d 0) as [Z0|_]; [|exact I2].
      apply He in Z0. congruence.
  - lia.
Qed.

Section WithFloat.

Context {F : Type} {FO : FloatOps F}.

#[local] Abbreviation Stats := (Stats F).

(** X17.  The figures of [evaluate] are consistent: the rows compared are
    at least one and at most the queries of [best]; the histogram lists
    the distances 0 to 3 and accounts for every row; the number of exact
    matches is the number of rows at distance 0; and no distance exceeds
    3. *)
Theorem evaluate_counts (best pred : dict string) (st : Stats) :
  evaluate best pred = Ok (Some st) ->
  (1 <= count st <= List.length best)%nat /\
  (max_hamming st <= 3)%nat /\
  exists c1 c2 c3,
    dist_counts st = [ (0, exact st); (1, c1); (2, c2); (3, c3) ]%nat /\
    (exact st + c1 + c2 + c3)%nat = count st.
Proof.
  unfold evaluate. cbv zeta.
  pose proof (rows_bits best pred) as Hb.
  pose proof (rows_length best pred) as Hl.
  destruct (rows_of best pred) as [|row rows] eqn:R; [discriminate|].
  rewrite <- R in *.
  destruct (int_div _ _) as [avg|]; cbn [ebind]; [|discriminate].
  destruct (int_div _ _) as [pct|]; cbn [ebind]; [|discriminate].
  intros H. inversion H; subst st. clear H. cbn.
  destruct (histogram _ Hb) as (H1 & H2 & H3). cbv zeta in H1, H2, H3.
  split; [rewrite R at 1; cbn [List.length]; lia|].
  split; [exact H3|].
  do 3 eexists. split; [rewrite H2; reflexivity|].
  rewrite <- H2. exact H1.
Qed.

End WithFloat.

End CompareFacts.

(** ** More closed instances *)

Module MoreChecks.

Import Py Plan Executor Examples MoreExamples Fingerprint Runs Compare.

Lemma rot_back_witness : rot (rot 0x12345678 4) (32 - 4) = 0x12345678.
Proof. apply (HashFacts.rot_back 0x12345678 4); [reflexivity | lia]. Defined.

Lemma mix_and_final_lose_nothing_witness :
  (mix 1 2 3 = mix 4 5 6 -> (1, 2, 3) = (4, 5, 6)) /\
  (final 1 2 3 = final 4 5 6 -> (1, 2, 3) = (4, 5, 6)).
Proof.
  apply (WordFacts.mix_and_final_lose_nothing 1 2 3 4 5 6);
    reflexivity.
Defined.

Lemma strip_explain_prefix_any_order_witness :
  strip_explain_prefix_in (rev option_words)
    "explain analyze verbose select 1"
  = strip_explain_prefix "explain analyze verbose select 1".
Proof.
  apply TextFacts.strip_explain_prefix_any_order.
  apply Permutation_sym, Permutation_rev.
Defined.

Lemma explain_statement_has_the_query_fingerprint_witness :
  strip_explain_prefix (build_explain_sql fresh " SELECT 1") = "SELECT 1" /\
  fingerprint (build_explain_sql fresh " SELECT 1") = fingerprint " SELECT 1".
Proof.
  apply (TextFacts.explain_statement_has_the_query_fingerprint
           fresh " SELECT 1"); reflexivity.
Defined.

Lemma fingerprint_ignores_letter_case_witness :
  lower_text "SELECT Name FROM t" = lower_text "select name from T" /\
  normalize_sql "SELECT Name FROM t" = normalize_sql "select name from T" /\
  fingerprint "SELECT Name FROM t" = fingerprint "select name from T".
Proof.
  split; [reflexivity|].
  destruct (TextFacts.fingerprint_ignores_letter_case
              "SELECT Name FROM t" "select name from T" eq_refl)
    as (N & E).
  split; [exact N | exact E].
Defined.

Lemma results_follow_the_rounds_witness :
  exists rs,
    self_results
      (st_self (snd (execute_all_queries "queries" 2 false false
                       mixed_start)))
      = self_results (st_self mixed_start) ++ rs /\
    map query_name rs =
      [ Some "a.sql_round1"; Some "b.sql_round1";
        Some "a.sql_round2"; Some "b.sql_round2" ] /\
    List.length rs = 4%nat /\
    List.length
      (self_round_times
         (st_self (snd (execute_all_queries "queries" 2 false false
                          mixed_start)))) = 2%nat.
Proof.
  eapply (RunFacts.results_follow_the_rounds "queries" 2 false false
            mixed_start); vm_compute; reflexivity.
Defined.

Lemma report_counts_add_up_witness :
  exists rep,
    save_data
      (st_self (snd (execute_all_queries "queries" 1 false false
                       mixed_start))) = Ok rep /\
    (successful_queries (sr_summary rep)
       + failed_queries (sr_summary rep))%nat
      = total_queries (sr_summary rep) /\
    total_queries (sr_summary rep) = 2%nat.
Proof.
  eexists. split; [vm_compute; reflexivity|].
  split; [|reflexivity].
  eapply (RunFacts.report_counts_add_up "queries" 1 false false mixed_start).
  - constructor.
  - apply surjective_pairing.
  - vm_compute. reflexivity.
Defined.

Lemma plain_modes_never_abort_witness :
  exists s',
    execute_all_queries "queries" 3 true false mixed_start = (Ok tt, s') /\
    closed (st_world s') = true /\
    List.length (self_round_times (st_self s')) = 3%nat.
Proof.
  eapply (RunFacts.plain_modes_never_abort "queries" 3 true mixed_start).
  - vm_compute. reflexivity.
  - constructor.
  - lia.
  - reflexivity.
Defined.

Lemma hamming_is_a_distance_witness :
  hamming [1; 0; 0] [0; 1; 0] = hamming [0; 1; 0] [1; 0; 0] /\
  (hamming [1; 0; 0] [0; 1; 0] = 0%nat <-> [1; 0; 0] = [0; 1; 0]) /\
  (hamming [1; 0; 0]%Z [0; 1; 0]%Z <= 3)%nat /\
  (hamming [1; 0; 0]%Z [1; 1; 1]%Z
   <= hamming [1; 0; 0]%Z [0; 1; 0]%Z + hamming [0; 1; 0]%Z [1; 1; 1]%Z)%nat.
Proof.
  apply (CompareFacts.hamming_is_a_distance [1; 0; 0] [0; 1; 0] [1; 1; 1]);
    reflexivity.
Defined.

Lemma scenario_label_has_the_bits_of_the_combination_witness :
  Scenario.map_scenario " CE_CM " = "CE+CM" /\
  get (label_combination "CE+CM") BIT_MAP
    = get (best_combination " CE_CM ") BIT_MAP /\
  get (best_combination " CE_CM ") BIT_MAP <> None.
Proof.
  apply CompareFacts.scenario_label_has_the_bits_of_the_combination.
  reflexivity.
Defined.

Lemma evaluate_counts_witness :
  exists st : Stats Q,
    evaluate [ ("q1", "ce_cm"); ("q2", "all"); ("q3", "jn") ]
             [ ("q1", "ce"); ("q2", "all_three") ] = Ok (Some st) /\
    (1 <= count st <= 3)%nat /\
    (max_hamming st <= 3)%nat /\
    exists c1 c2 c3,
      dist_counts st = [ (0, exact st); (1, c1); (2, c2); (3, c3) ]%nat /\
      (exact st + c1 + c2 + c3)%nat = count st.
Proof.
  eexists. split; [vm_compute; reflexivity|].
  eapply (CompareFacts.evaluate_counts
            [ ("q1", "ce_cm"); ("q2", "all"); ("q3", "jn") ]
            [ ("q1", "ce"); ("q2", "all_three") ]).
  vm_compute. reflexivity.
Defined.

End MoreChecks.
